(** * Matrix-free Laplacian kernels (src/src/matrix-free.hpp) and the ROCm SMI
      telemetry helpers (src/unnamed/part_000): a shallow embedding.

    Arithmetic is exact: the scalar type [T] of the kernels is read as the
    field of rationals [Qc] (canonical fractions, Leibniz equality), and every
    decimal literal of the source denotes the rational it spells.  What is
    proved of the kernels is proved under exact arithmetic; the rounding of
    [double] is not modelled.  Division is the field's total division
    ([x / 0 = 0]) where the source's gives an infinity or a NaN, so the model
    follows the source on the cells whose Jacobian determinant is not zero,
    which the spec requires of every cell of a mesh.

    Indices.  The source indexes with [int] / [std::int32_t]; negative indices
    and signed overflow are undefined there, so the model ranges over [nat].
    Pointers ([T*], [const std::int32_t*]) carry no length: a pointed-to array
    is a total function from offsets to contents. *)

From Stdlib Require Import QArith Qcanon Qcabs ZArith String List Lia Arith Bool Permutation.
Import ListNotations.

Open Scope Qc_scope.

(** ** Scalars, arrays, loops *)

Definition lit (q : Q) : Qc := Q2Qc q.

Definition fabs (v : Qc) : Qc := Qcabs v.

Definition array := nat -> Qc.
Definition index_array := nat -> nat.

(** An array literal; offsets past the end read as [0]. *)
Definition arr (l : list Qc) : array := fun k => nth k l 0.

(** A two-dimensional constant table [t[point][dof]]. *)
Definition table (l : list (list Qc)) : nat -> nat -> Qc :=
  fun p d => nth d (nth p l []) 0.

(** [for (int i = 0; i < n; ++i) body] over a state [S]: the body runs for
    [i = 0], then [1], ..., then [n - 1]. *)
Fixpoint for_loop {S : Type} (n : nat) (body : nat -> S -> S) (s : S) : S :=
  match n with
  | O => s
  | S k => body k (for_loop k body s)
  end.

(** [a[i] += v] on a local array. *)
Definition add_at (a : array) (i : nat) (v : Qc) : array :=
  fun j => if Nat.eqb j i then a j + v else a j.

(** [a[i] = v] on a local array. *)
Definition store (a : array) (i : nat) (v : Qc) : array :=
  fun j => if Nat.eqb j i then v else a j.

(** The local arrays of a kernel thread are declared without initialiser
    ([double w[8]; double coordinate_dofs[24]; double A[8];]): each starts
    with whatever the thread's stack holds. *)
Record Locals : Type := mkLocals {
  w_uninit : array;
  coordinate_dofs_uninit : array;
  A_uninit : array
}.

(** [x = 0.0; for ic0 for ic1 for ic2: x += f ic0 ic1 ic2], the shape of every
    scalar accumulator of the Jacobian and Coefficient sections.  The nine
    Jacobian accumulators share the [ic0] loop in the source but are distinct
    variables, so each one sees exactly this loop nest. *)
Definition acc3 (n : nat) (f : nat -> nat -> nat -> Qc) : Qc :=
  for_loop n (fun ic0 a =>
    for_loop n (fun ic1 a =>
      for_loop n (fun ic2 a => a + f ic0 ic1 ic2) a) a) 0.

(** ** Device memory seen by one kernel launch *)

Record Memory : Type := mkMemory {
  Aglobal : array;                    (* T* Aglobal *)
  wglobal : array;                    (* const T* wglobal *)
  c : array;                          (* const T* c *)
  coordinate_dofs_global : array;     (* const T* coordinate_dofs_global *)
  geom_dofmap : index_array;          (* const std::int32_t* geom_dofmap *)
  dofmap : index_array                (* const std::int32_t* dofmap *)
}.

(** [atomicAdd(&Aglobal[k], v)]: one indivisible read-modify-write. *)
Definition atomicAdd (m : Memory) (k : nat) (v : Qc) : Memory :=
  mkMemory (fun j => if Nat.eqb j k then Aglobal m j + v else Aglobal m j)
           (wglobal m) (c m) (coordinate_dofs_global m)
           (geom_dofmap m) (dofmap m).

(** ** The kernel body, by section of the generated code *)

(** Section "Intermediates" (lines 195-292 and 541-638; the two copies differ
    only in the names [sv_461_k] / [sv_be1_k]).  The nine quotients by the
    determinant [sv_17] are the source's where [sv_17] is not zero. *)
Definition intermediates
    (J_c0 J_c1 J_c2 J_c3 J_c4 J_c5 J_c6 J_c7 J_c8 : Qc)
    (w0_d100 w0_d010 w0_d001 : Qc) (c0 weight : Qc) : Qc * Qc * Qc :=
  let sv_0 := J_c4 * J_c8 in
  let sv_1 := J_c5 * J_c7 in
  let sv_2 := - sv_1 in
  let sv_3 := sv_0 + sv_2 in
  let sv_4 := J_c0 * sv_3 in
  let sv_5 := J_c3 * J_c8 in
  let sv_6 := J_c5 * J_c6 in
  let sv_7 := - sv_6 in
  let sv_8 := sv_5 + sv_7 in
  let sv_9 := - J_c1 in
  let sv_10 := sv_8 * sv_9 in
  let sv_11 := sv_4 + sv_10 in
  let sv_12 := J_c3 * J_c7 in
  let sv_13 := J_c4 * J_c6 in
  let sv_14 := - sv_13 in
  let sv_15 := sv_12 + sv_14 in
  let sv_16 := J_c2 * sv_15 in
  let sv_17 := sv_11 + sv_16 in
  let sv_18 := sv_3 / sv_17 in
  let sv_19 := - J_c8 in
  let sv_20 := J_c3 * sv_19 in
  let sv_21 := sv_6 + sv_20 in
  let sv_22 := sv_21 / sv_17 in
  let sv_23 := sv_15 / sv_17 in
  let sv_24 := w0_d100 * sv_18 in
  let sv_25 := w0_d010 * sv_22 in
  let sv_26 := sv_24 + sv_25 in
  let sv_27 := w0_d001 * sv_23 in
  let sv_28 := sv_26 + sv_27 in
  let sv_29 := sv_28 * sv_18 in
  let sv_30 := sv_28 * sv_22 in
  let sv_31 := sv_28 * sv_23 in
  let sv_32 := J_c2 * J_c7 in
  let sv_33 := J_c8 * sv_9 in
  let sv_34 := sv_32 + sv_33 in
  let sv_35 := sv_34 / sv_17 in
  let sv_36 := J_c0 * J_c8 in
  let sv_37 := - J_c2 in
  let sv_38 := J_c6 * sv_37 in
  let sv_39 := sv_36 + sv_38 in
  let sv_40 := sv_39 / sv_17 in
  let sv_41 := J_c1 * J_c6 in
  let sv_42 := J_c0 * J_c7 in
  let sv_43 := - sv_42 in
  let sv_44 := sv_41 + sv_43 in
  let sv_45 := sv_44 / sv_17 in
  let sv_46 := w0_d100 * sv_35 in
  let sv_47 := w0_d010 * sv_40 in
  let sv_48 := sv_46 + sv_47 in
  let sv_49 := w0_d001 * sv_45 in
  let sv_50 := sv_48 + sv_49 in
  let sv_51 := sv_50 * sv_35 in
  let sv_52 := sv_50 * sv_40 in
  let sv_53 := sv_50 * sv_45 in
  let sv_54 := sv_51 + sv_29 in
  let sv_55 := sv_52 + sv_30 in
  let sv_56 := sv_31 + sv_53 in
  let sv_57 := J_c1 * J_c5 in
  let sv_58 := J_c2 * J_c4 in
  let sv_59 := - sv_58 in
  let sv_60 := sv_57 + sv_59 in
  let sv_61 := sv_60 / sv_17 in
  let sv_62 := J_c2 * J_c3 in
  let sv_63 := J_c0 * J_c5 in
  let sv_64 := - sv_63 in
  let sv_65 := sv_62 + sv_64 in
  let sv_66 := sv_65 / sv_17 in
  let sv_67 := J_c0 * J_c4 in
  let sv_68 := J_c1 * J_c3 in
  let sv_69 := - sv_68 in
  let sv_70 := sv_67 + sv_69 in
  let sv_71 := sv_70 / sv_17 in
  let sv_72 := w0_d100 * sv_61 in
  let sv_73 := w0_d010 * sv_66 in
  let sv_74 := sv_72 + sv_73 in
  let sv_75 := w0_d001 * sv_71 in
  let sv_76 := sv_74 + sv_75 in
  let sv_77 := sv_76 * sv_61 in
  let sv_78 := sv_76 * sv_66 in
  let sv_79 := sv_76 * sv_71 in
  let sv_80 := sv_54 + sv_77 in
  let sv_81 := sv_55 + sv_78 in
  let sv_82 := sv_56 + sv_79 in
  let sv_83 := c0 * sv_80 in
  let sv_84 := c0 * sv_81 in
  let sv_85 := c0 * sv_82 in
  let sv_86 := fabs sv_17 in
  let sv_87 := sv_83 * sv_86 in
  let sv_88 := sv_84 * sv_86 in
  let sv_89 := sv_85 * sv_86 in
  (sv_87 * weight, sv_88 * weight, sv_89 * weight).

Section Kernel.

(** What distinguishes the two kernels: the number [nq] of quadrature points
    and [nd] of coefficient dofs per direction, the weights, the tables
    contracted with the geometry ([GD] derivative, [GV] value) and with the
    coefficient and test functions ([CD] derivative, [CV] value).
      Q1: nq = 3, nd = 2, GD = CD = FE_TF0, GV = CV = FE_TF1;
      Q2: nq = 4, nd = 3, GD = FE_TF3, GV = FE_TF2, CD = FE_TF0, CV = FE_TF1. *)
Variables nq nd : nat.
Variable weights : nat -> Qc.
Variables GD GV CD CV : nat -> nat -> Qc.

Definition space_dim : nat := nd * nd * nd.

(** Section "Tensor Computation" for one quadrature point. *)
Definition tensor_computation (iq0 iq1 iq2 : nat) (fw : Qc * Qc * Qc)
    (A : array) : array :=
  let '(fw0, fw1, fw2) := fw in
  for_loop nd (fun i0 A =>
    for_loop nd (fun i1 A =>
      for_loop nd (fun i2 A =>
        let A := add_at A (nd * nd * i0 + nd * i1 + i2)
                   (fw0 * (CD iq0 i0 * CV iq1 i1 * CV iq2 i2)) in
        let A := add_at A (nd * nd * i0 + nd * i1 + i2)
                   (fw1 * (CV iq0 i0 * CD iq1 i1 * CV iq2 i2)) in
        add_at A (nd * nd * i0 + nd * i1 + i2)
                   (fw2 * (CV iq0 i0 * CV iq1 i1 * CD iq2 i2))) A) A) A.

(** The three weighted fluxes at one quadrature point: sections "Jacobian",
    "Coefficient" and "Intermediates". *)
Definition quadrature_point (w coordinate_dofs : array) (c0 : Qc)
    (iq0 iq1 iq2 : nat) : Qc * Qc * Qc :=
  let geo k := fun ic0 ic1 ic2 => coordinate_dofs ((4 * ic0 + 2 * ic1 + ic2) * 3 + k)%nat in
  let J_c4 := acc3 2 (fun ic0 ic1 ic2 =>
      geo 1%nat ic0 ic1 ic2 * (GV iq0 ic0 * GD iq1 ic1 * GV iq2 ic2)) in
  let J_c8 := acc3 2 (fun ic0 ic1 ic2 =>
      geo 2%nat ic0 ic1 ic2 * (GV iq0 ic0 * GV iq1 ic1 * GD iq2 ic2)) in
  let J_c5 := acc3 2 (fun ic0 ic1 ic2 =>
      geo 1%nat ic0 ic1 ic2 * (GV iq0 ic0 * GV iq1 ic1 * GD iq2 ic2)) in
  let J_c7 := acc3 2 (fun ic0 ic1 ic2 =>
      geo 2%nat ic0 ic1 ic2 * (GV iq0 ic0 * GD iq1 ic1 * GV iq2 ic2)) in
  let J_c0 := acc3 2 (fun ic0 ic1 ic2 =>
      geo 0%nat ic0 ic1 ic2 * (GD iq0 ic0 * GV iq1 ic1 * GV iq2 ic2)) in
  let J_c3 := acc3 2 (fun ic0 ic1 ic2 =>
      geo 1%nat ic0 ic1 ic2 * (GD iq0 ic0 * GV iq1 ic1 * GV iq2 ic2)) in
  let J_c6 := acc3 2 (fun ic0 ic1 ic2 =>
      geo 2%nat ic0 ic1 ic2 * (GD iq0 ic0 * GV iq1 ic1 * GV iq2 ic2)) in
  let J_c1 := acc3 2 (fun ic0 ic1 ic2 =>
      geo 0%nat ic0 ic1 ic2 * (GV iq0 ic0 * GD iq1 ic1 * GV iq2 ic2)) in
  let J_c2 := acc3 2 (fun ic0 ic1 ic2 =>
      geo 0%nat ic0 ic1 ic2 * (GV iq0 ic0 * GV iq1 ic1 * GD iq2 ic2)) in
  let w0_d100 := acc3 nd (fun ic0 ic1 ic2 =>
      w (nd * nd * ic0 + nd * ic1 + ic2)%nat * (CD iq0 ic0 * CV iq1 ic1 * CV iq2 ic2)) in
  let w0_d010 := acc3 nd (fun ic0 ic1 ic2 =>
      w (nd * nd * ic0 + nd * ic1 + ic2)%nat * (CV iq0 ic0 * CD iq1 ic1 * CV iq2 ic2)) in
  let w0_d001 := acc3 nd (fun ic0 ic1 ic2 =>
      w (nd * nd * ic0 + nd * ic1 + ic2)%nat * (CV iq0 ic0 * CV iq1 ic1 * CD iq2 ic2)) in
  intermediates J_c0 J_c1 J_c2 J_c3 J_c4 J_c5 J_c6 J_c7 J_c8
                w0_d100 w0_d010 w0_d001 c0
                (weights (nq * nq * iq0 + nq * iq1 + iq2)%nat).

(** The quadrature loop, lines 45-321 and 391-667: [A] enters with whatever
    it holds and leaves with every quadrature point's contribution added. *)
Definition quadrature_loop (w coordinate_dofs : array) (c0 : Qc)
    (A : array) : array :=
  for_loop nq (fun iq0 A =>
    for_loop nq (fun iq1 A =>
      for_loop nq (fun iq2 A =>
        tensor_computation iq0 iq1 iq2
          (quadrature_point w coordinate_dofs c0 iq0 iq1 iq2) A) A) A) A.

(** One thread of the kernel.  [zero_A] tells whether the kernel has the
    loop [for (i < space_dim) A[i] = 0.0;] in front of the quadrature loop
    (lines 389-390 of tabulate_tensor_Q2; tabulate_tensor_Q1 has none). *)
Variable zero_A : bool.

(** Lines 17-321 (Q1) and 337-667 (Q2): gather, optional zeroing of [A],
    quadrature loop.  The result is the local array [A] that is scattered. *)
Definition local_tensor (stack : Locals) (id : nat) (m : Memory) : array :=
  let w := for_loop space_dim (fun i w =>
             store w i (wglobal m (dofmap m (id * space_dim + i)%nat)))
             (w_uninit stack) in
  let coordinate_dofs := for_loop 8 (fun i cd =>
      let cd := store cd (i * 3)
        (coordinate_dofs_global m (geom_dofmap m (id * 8 + i)%nat * 3)%nat) in
      let cd := store cd (i * 3 + 1)
        (coordinate_dofs_global m (geom_dofmap m (id * 8 + i)%nat * 3 + 1)%nat) in
      store cd (i * 3 + 2)
        (coordinate_dofs_global m (geom_dofmap m (id * 8 + i)%nat * 3 + 2)%nat))
      (coordinate_dofs_uninit stack) in
  let A := if zero_A
           then for_loop space_dim (fun i A => store A i 0) (A_uninit stack)
           else A_uninit stack in
  quadrature_loop w coordinate_dofs (c m 0%nat) A.

Definition kernel_thread (stack : Locals) (blockIdx blockDim threadIdx : nat)
    (N : nat) (m : Memory) : Memory :=
  let id := (blockIdx * blockDim + threadIdx)%nat in
  if Nat.ltb id N then
    let A := local_tensor stack id m in
    for_loop space_dim (fun i m =>
      atomicAdd m (dofmap m (id * space_dim + i)%nat) (A i)) m
  else m.

(** The [atomicAdd] calls of one thread, in program order (lines 322-323,
    668-669): target offset and added value. *)
Definition thread_events (stack : Locals) (blockIdx blockDim threadIdx : nat)
    (N : nat) (m : Memory) : list (nat * Qc) :=
  let id := (blockIdx * blockDim + threadIdx)%nat in
  if Nat.ltb id N then
    map (fun i => (dofmap m (id * space_dim + i)%nat, local_tensor stack id m i))
        (seq 0 space_dim)
  else [].

End Kernel.

(** ** The two instances *)

Module Q1.

Definition weights_461 : nat -> Qc := arr (map lit
  [0.02143347050754454; 0.03429355281207129; 0.02143347050754456; 0.03429355281207129;
   0.05486968449931409; 0.03429355281207132; 0.02143347050754457; 0.03429355281207132;
   0.02143347050754458; 0.03429355281207129; 0.05486968449931409; 0.03429355281207132;
   0.05486968449931409; 0.0877914951989026;  0.05486968449931414; 0.03429355281207132;
   0.05486968449931413; 0.03429355281207135; 0.02143347050754457; 0.03429355281207132;
   0.02143347050754458; 0.03429355281207132; 0.05486968449931413; 0.03429355281207135;
   0.02143347050754458; 0.03429355281207135; 0.0214334705075446]%Q).

Definition FE_TF0 : nat -> nat -> Qc := table (map (map lit)
  [[-1.0; 1.0]; [-1.0; 1.0]; [-1.0; 1.0]]%Q).

Definition FE_TF1 : nat -> nat -> Qc := table (map (map lit)
  [[0.8872983346207417; 0.1127016653792582];
   [0.5; 0.5];
   [0.1127016653792582; 0.8872983346207417]]%Q).

End Q1.

Module Q2.

Definition weights_be1 : nat -> Qc := arr (map lit
  [0.005261434686316431; 0.009863939474383817; 0.009863939474383819; 0.00526143468631643;
   0.009863939474383817; 0.01849254200709766;  0.01849254200709766;  0.009863939474383814;
   0.009863939474383819; 0.01849254200709766;  0.01849254200709766;  0.009863939474383816;
   0.00526143468631643;  0.009863939474383814; 0.009863939474383816; 0.005261434686316428;
   0.009863939474383817; 0.01849254200709766;  0.01849254200709766;  0.009863939474383814;
   0.01849254200709766;  0.03466912086923912;  0.03466912086923912;  0.01849254200709765;
   0.01849254200709766;  0.03466912086923912;  0.03466912086923913;  0.01849254200709766;
   0.009863939474383814; 0.01849254200709765;  0.01849254200709766;  0.00986393947438381;
   0.009863939474383819; 0.01849254200709766;  0.01849254200709766;  0.009863939474383816;
   0.01849254200709766;  0.03466912086923912;  0.03466912086923913;  0.01849254200709766;
   0.01849254200709766;  0.03466912086923912;  0.03466912086923913;  0.01849254200709766;
   0.009863939474383817; 0.01849254200709766;  0.01849254200709766;  0.009863939474383814;
   0.00526143468631643;  0.009863939474383814; 0.009863939474383816; 0.005261434686316428;
   0.009863939474383814; 0.01849254200709765;  0.01849254200709766;  0.00986393947438381;
   0.009863939474383817; 0.01849254200709766;  0.01849254200709766;  0.009863939474383814;
   0.005261434686316428; 0.00986393947438381;  0.009863939474383812; 0.005261434686316426]%Q).

Definition FE_TF0 : nat -> nat -> Qc := table (map (map lit)
  [[-2.722272623188105; -0.7222726231881051; 3.44454524637621];
   [-1.679962087169713; 0.3200379128302875; 1.359924174339425];
   [-0.3200379128302875; 1.679962087169713; -1.359924174339425];
   [0.7222726231881049; 2.722272623188105; -3.444545246376209]]%Q).

Definition FE_TF1 : nat -> nat -> Qc := table (map (map lit)
  [[0.8013460293699309; -0.05979028222412167; 0.2584442528541908];
   [0.227784076790952; -0.1121969667939042; 0.884412890002952];
   [-0.1121969667939043; 0.2277840767909521; 0.884412890002952];
   [-0.05979028222412186; 0.8013460293699308; 0.258444252854191]]%Q).

Definition FE_TF2 : nat -> nat -> Qc := table (map (map lit)
  [[0.9305681557970263; 0.06943184420297366];
   [0.6699905217924281; 0.3300094782075719];
   [0.3300094782075719; 0.6699905217924281];
   [0.06943184420297371; 0.9305681557970262]]%Q).

Definition FE_TF3 : nat -> nat -> Qc := table (map (map lit)
  [[-1.0; 1.0]; [-1.0; 1.0]; [-1.0; 1.0]; [-1.0; 1.0]]%Q).

End Q2.

(** The type of a kernel entry point: the thread's stack and coordinates in
    the grid, then the arguments [N, Aglobal, wglobal, c,
    coordinate_dofs_global, geom_dofmap, dofmap], the six pointers being the
    fields of the memory. *)
Definition kernel : Type := Locals -> nat -> nat -> nat -> nat -> Memory -> Memory.

(** [tabulate_tensor_Q1], lines 8-325.  [double A[8];] (line 44) is declared
    and never assigned before the first [+=] of line 305: the quadrature loop
    starts from the stack content. *)
Definition tabulate_tensor_Q1 : kernel :=
  kernel_thread 3 2 Q1.weights_461 Q1.FE_TF0 Q1.FE_TF1 Q1.FE_TF0 Q1.FE_TF1 false.

(** [tabulate_tensor_Q2], lines 328-671, with the zeroing loop of lines
    389-390. *)
Definition tabulate_tensor_Q2 : kernel :=
  kernel_thread 4 3 Q2.weights_be1 Q2.FE_TF3 Q2.FE_TF2 Q2.FE_TF0 Q2.FE_TF1 true.

(** ** Launching a kernel *)

(** [hipLaunchKernelGGL(f, grid_size, block_size, 0, 0, N, ...)] where [f] is
    the address of a kernel: every thread of every block runs [f].  This is
    the reference schedule, the threads one after the other by increasing
    [id]; [stacks id] is the stack thread [id] finds.  The threads communicate
    only through [atomicAdd]. *)
Definition hipLaunchKernelGGL (f : kernel) (grid_size block_size : nat)
    (stacks : nat -> Locals) (N : nat) (m : Memory) : Memory :=
  for_loop grid_size (fun blockIdx m =>
    for_loop block_size (fun threadIdx m =>
      f (stacks (blockIdx * block_size + threadIdx)%nat)
        blockIdx block_size threadIdx N m) m) m.

(** A parallel execution is seen through the order in which the [atomicAdd]s
    of the threads take effect.  [play] applies them in a given order. *)
Definition play (evs : list (nat * Qc)) (m : Memory) : Memory :=
  fold_left (fun m e => atomicAdd m (fst e) (snd e)) evs m.

(** [interleaving ts l]: [l] merges the sequences [ts], each one kept in its
    own order. *)
Inductive interleaving {E : Type} : list (list E) -> list E -> Prop :=
| interleaving_nil : forall ts,
    Forall (fun t => t = []) ts -> interleaving ts []
| interleaving_cons : forall ts1 e t ts2 l,
    interleaving (ts1 ++ t :: ts2) l ->
    interleaving (ts1 ++ (e :: t) :: ts2) (e :: l).

(** The event sequences of all the threads of a launch, by increasing [id]. *)
Definition launch_threads (events : Locals -> nat -> nat -> nat -> nat -> Memory -> list (nat * Qc))
    (grid_size block_size : nat) (stacks : nat -> Locals) (N : nat) (m : Memory)
    : list (list (nat * Qc)) :=
  flat_map (fun blockIdx =>
    map (fun threadIdx =>
      events (stacks (blockIdx * block_size + threadIdx)%nat)
             blockIdx block_size threadIdx N m) (seq 0 block_size))
    (seq 0 grid_size).

Definition thread_events_Q1 :=
  thread_events 3 2 Q1.weights_461 Q1.FE_TF0 Q1.FE_TF1 Q1.FE_TF0 Q1.FE_TF1 false.

Definition thread_events_Q2 :=
  thread_events 4 3 Q2.weights_be1 Q2.FE_TF3 Q2.FE_TF2 Q2.FE_TF0 Q2.FE_TF1 true.

(** ** The sequential accumulation the scatter is compared with *)

(** The reference the spec measures the parallel scatter against, written
    from its words and sharing nothing with [atomicAdd]: "a strictly
    sequential cell-by-cell accumulation" of the per-cell local tensors.  One
    cell adds the entries [0 .. sd-1] of its local tensor [A] to the output
    entries its row of the dofmap names, [out[dm[cell * sd + i]] += A[i]]. *)
Definition accumulate_cell (sd : nat) (dm : index_array) (A : array) (cell : nat)
    (out : array) : array :=
  fold_left (fun out i =>
               fun d => if Nat.eqb d (dm (cell * sd + i)%nat) then out d + A i else out d)
            (seq 0 sd) out.

(** The cells [0 .. N-1], one after the other; [A cell] is the local tensor
    of [cell]. *)
Definition sequential_accumulation (sd N : nat) (dm : index_array) (A : nat -> array)
    (out : array) : array :=
  fold_left (fun out cell => accumulate_cell sd dm (A cell) cell out) (seq 0 N) out.

(** ** Launching through a pointer *)

(** What a variable of the type [void (*)(int, T*, const T*, const T*,
    const T*, const std::int32_t*, const std::int32_t*)] can hold: the
    address of a kernel, or a value that is the address of none (a null
    pointer, leftover bits). *)
Inductive kernel_pointer : Type :=
| address_of (f : kernel)
| no_kernel.

Coercion address_of : kernel >-> kernel_pointer.

(** The statuses of the runtime that the launch can leave behind. *)
Inductive hipError_t : Type :=
| hipSuccess
| hipErrorInvalidDeviceFunction.

(** [hipLaunchKernelGGL(p, ...)] through a pointer, then [hipGetLastError()]:
    the memory the launch leaves and the status the runtime reports.  A
    pointer that is the address of a kernel starts the grid; the runtime is
    taken to have the resources for it.  A pointer that is the address of no
    kernel starts nothing and the runtime reports an invalid device function. *)
Definition launch (p : kernel_pointer) (grid_size block_size : nat)
    (stacks : nat -> Locals) (N : nat) (m : Memory) : Memory * hipError_t :=
  match p with
  | address_of f => (hipLaunchKernelGGL f grid_size block_size stacks N m, hipSuccess)
  | no_kernel => (m, hipErrorInvalidDeviceFunction)
  end.

(** Modelled from the spec: [err_check], a macro of the repository that is
    not among the sources.  The spec has a launch failure "surfaced
    immediately to the caller as a fatal failure of the apply call":
    [err_check status] tells whether the call fails, which it does on every
    status but success. *)
Definition err_check (status : hipError_t) : bool :=
  match status with
  | hipSuccess => false
  | _ => true
  end.

(** ** class MatFreeLaplace *)

Module MatFreeLaplace.

Record t : Type := mk {
  num_cells : nat;
  constants : array;
  x : array;
  x_dofmap : index_array;
  dofmap : index_array;
  tabulate_tensor : kernel_pointer
}.

(** The constructor, lines 680-697.  The member [tabulate_tensor] (line 720)
    has no initialiser: the [default] branch assigns nothing, and the pointer
    keeps the value its storage held, [unassigned], which need not be the
    address of a kernel. *)
Definition new (unassigned : kernel_pointer) (degree : Z) (num_cells : nat)
    (constants x : array) (x_dofmap dofmap : index_array) : t :=
  mk num_cells constants x x_dofmap dofmap
     (match degree with
      | 1%Z => address_of tabulate_tensor_Q1
      | 2%Z => address_of tabulate_tensor_Q2
      | _ => unassigned
      end).

Definition block_size : nat := 256.

Definition grid_size (op : t) : nat :=
  (num_cells op + block_size - 1) / block_size.

(** The device memory a launch of [op] works on. *)
Definition memory (op : t) (in_ out : array) : Memory :=
  mkMemory out in_ (constants op) (x op) (x_dofmap op) (dofmap op).

(** [operator()(in, out)], lines 701-712, under the reference schedule: the
    launch through the member (line 709) and [err_check(hipGetLastError())]
    (line 711).  The result is the device memory the launch leaves, whose
    [wglobal] and [Aglobal] are the vectors [in] and [out], and whether the
    call fails. *)
Definition operator_call (op : t) (stacks : nat -> Locals) (in_ out : array)
    : Memory * bool :=
  let launched := launch (tabulate_tensor op) (grid_size op) block_size stacks
                         (num_cells op) (memory op in_ out) in
  (fst launched, err_check (snd launched)).

(** The memory one call of the operator leaves. *)
Definition apply (op : t) (stacks : nat -> Locals) (in_ out : array) : Memory :=
  fst (operator_call op stacks in_ out).

(** Whether one call of the operator fails. *)
Definition fails (op : t) (stacks : nat -> Locals) (in_ out : array) : bool :=
  snd (operator_call op stacks in_ out).

End MatFreeLaplace.

(** * Reading the kernels: sums, scattered amounts, contributions *)

(** ** Loops as sums *)

(** [sum_n n f] is [f 0 + ... + f (n-1)], accumulated from [0] as the loops do. *)
Definition sum_n (n : nat) (f : nat -> Qc) : Qc :=
  for_loop n (fun i a => a + f i) 0.

Definition sum3 (n : nat) (f : nat -> nat -> nat -> Qc) : Qc :=
  sum_n n (fun i0 => sum_n n (fun i1 => sum_n n (fun i2 => f i0 i1 i2))).

Definition sum_list (l : list Qc) : Qc := fold_right Qcplus 0 l.

(** The amount a sequence of [atomicAdd]s adds at offset [d]. *)
Definition added_at (d : nat) (evs : list (nat * Qc)) : Qc :=
  sum_list (map (fun e => if Nat.eqb d (fst e) then snd e else 0) evs).

(** What [atomicAdd] leaves alone: everything but [Aglobal]. *)
Definition same_inputs (m m' : Memory) : Prop :=
  wglobal m' = wglobal m /\ c m' = c m /\
  coordinate_dofs_global m' = coordinate_dofs_global m /\
  geom_dofmap m' = geom_dofmap m /\ dofmap m' = dofmap m.

(** ** The flux block *)

Definition fw0 (fw : Qc * Qc * Qc) : Qc := fst (fst fw).
Definition fw1 (fw : Qc * Qc * Qc) : Qc := snd (fst fw).
Definition fw2 (fw : Qc * Qc * Qc) : Qc := snd fw.

(** The determinant [sv_17] and the nine quotients [K a j] of the block:
    [K a j] is the cofactor of the Jacobian entry [(a, j)] over the
    determinant, that is the entry [(j, a)] of the inverse. *)
Definition det (J0 J1 J2 J3 J4 J5 J6 J7 J8 : Qc) : Qc :=
  J0 * (J4 * J8 + - (J5 * J7)) + (J3 * J8 + - (J5 * J6)) * - J1
  + J2 * (J3 * J7 + - (J4 * J6)).

Definition K (J0 J1 J2 J3 J4 J5 J6 J7 J8 : Qc) (a j : nat) : Qc :=
  let d := det J0 J1 J2 J3 J4 J5 J6 J7 J8 in
  match a, j with
  | O, O => (J4 * J8 + - (J5 * J7)) / d          (* sv_18 *)
  | O, S O => (J5 * J6 + J3 * - J8) / d          (* sv_22 *)
  | O, _ => (J3 * J7 + - (J4 * J6)) / d          (* sv_23 *)
  | S O, O => (J2 * J7 + J8 * - J1) / d          (* sv_35 *)
  | S O, S O => (J0 * J8 + J6 * - J2) / d        (* sv_40 *)
  | S O, _ => (J1 * J6 + - (J0 * J7)) / d        (* sv_45 *)
  | _, O => (J1 * J5 + - (J2 * J4)) / d          (* sv_61 *)
  | _, S O => (J2 * J3 + - (J0 * J5)) / d        (* sv_66 *)
  | _, _ => (J0 * J4 + - (J1 * J3)) / d          (* sv_71 *)
  end.

(** Physical gradient components [sv_28], [sv_50], [sv_76]: the reference
    gradient [(g0, g1, g2)] contracted with the inverse Jacobian. *)
Definition physical_gradient (J0 J1 J2 J3 J4 J5 J6 J7 J8 : Qc) (a : nat)
    (g0 g1 g2 : Qc) : Qc :=
  g0 * K J0 J1 J2 J3 J4 J5 J6 J7 J8 a 0
  + g1 * K J0 J1 J2 J3 J4 J5 J6 J7 J8 a 1
  + g2 * K J0 J1 J2 J3 J4 J5 J6 J7 J8 a 2.

(** Entry [(i, j)] of the Jacobian [J_c0 .. J_c8], row-major. *)
Definition entry (J0 J1 J2 J3 J4 J5 J6 J7 J8 : Qc) (i j : nat) : Qc :=
  match i, j with
  | O, O => J0 | O, S O => J1 | O, _ => J2
  | S O, O => J3 | S O, S O => J4 | S O, _ => J5
  | _, O => J6 | _, S O => J7 | _, _ => J8
  end.

(** The weighted flux read as the physical gradient component times the
    material constant, the absolute determinant and the weight. *)
Definition claimed_flux (J0 J1 J2 J3 J4 J5 J6 J7 J8 : Qc) (g0 g1 g2 c0 weight : Qc)
    (a : nat) : Qc :=
  physical_gradient J0 J1 J2 J3 J4 J5 J6 J7 J8 a g0 g1 g2 * c0
  * fabs (det J0 J1 J2 J3 J4 J5 J6 J7 J8) * weight.

(** The weighted flux [fw_k] as the block computes it: the physical gradient
    contracted once more with the inverse Jacobian. *)
Definition pulled_back_flux (J0 J1 J2 J3 J4 J5 J6 J7 J8 : Qc) (g0 g1 g2 c0 weight : Qc)
    (k : nat) : Qc :=
  c0 * (physical_gradient J0 J1 J2 J3 J4 J5 J6 J7 J8 0 g0 g1 g2 * K J0 J1 J2 J3 J4 J5 J6 J7 J8 0 k
        + physical_gradient J0 J1 J2 J3 J4 J5 J6 J7 J8 1 g0 g1 g2 * K J0 J1 J2 J3 J4 J5 J6 J7 J8 1 k
        + physical_gradient J0 J1 J2 J3 J4 J5 J6 J7 J8 2 g0 g1 g2 * K J0 J1 J2 J3 J4 J5 J6 J7 J8 2 k)
  * fabs (det J0 J1 J2 J3 J4 J5 J6 J7 J8) * weight.

(** ** One cell *)

Section CellSemantics.

Variables nq nd : nat.
Variable weights : nat -> Qc.
Variables GD GV CD CV : nat -> nat -> Qc.
Variable zero_A : bool.

Local Notation "'sd'" := (space_dim nd).

Definition idx3 (i0 i1 i2 : nat) : nat := (nd * nd * i0 + nd * i1 + i2)%nat.

(** The three basis-derivative products of the Coefficient and Tensor
    Computation sections. *)
Definition dphi (k : nat) (iq0 iq1 iq2 i0 i1 i2 : nat) : Qc :=
  match k with
  | O => CD iq0 i0 * CV iq1 i1 * CV iq2 i2
  | S O => CV iq0 i0 * CD iq1 i1 * CV iq2 i2
  | _ => CV iq0 i0 * CV iq1 i1 * CD iq2 i2
  end.

(** Reference gradient of the local field [w]: [w0_d100], [w0_d010],
    [w0_d001] for [k = 0, 1, 2]. *)
Definition ref_gradient (w : array) (k : nat) (iq0 iq1 iq2 : nat) : Qc :=
  sum3 nd (fun i0 i1 i2 => w (idx3 i0 i1 i2) * dphi k iq0 iq1 iq2 i0 i1 i2).

(** Jacobian entry [J_c(3 * comp + dir)]: derivative of the physical
    coordinate [comp] along the reference direction [dir]. *)
Definition jacobian (geo : nat -> nat -> Qc) (iq0 iq1 iq2 : nat) (comp dir : nat) : Qc :=
  sum3 2 (fun ic0 ic1 ic2 =>
    geo (4 * ic0 + 2 * ic1 + ic2)%nat comp *
    match dir with
    | O => GD iq0 ic0 * GV iq1 ic1 * GV iq2 ic2
    | S O => GV iq0 ic0 * GD iq1 ic1 * GV iq2 ic2
    | _ => GV iq0 ic0 * GV iq1 ic1 * GD iq2 ic2
    end).

(** The flux block at a quadrature point, as a function of the cell
    geometry [geo node comp] and of the reference gradient. *)
Definition flux (geo : nat -> nat -> Qc) (c0 : Qc) (iq0 iq1 iq2 : nat)
    (g0 g1 g2 : Qc) : Qc * Qc * Qc :=
  let J := jacobian geo iq0 iq1 iq2 in
  intermediates (J 0 0)%nat (J 0 1)%nat (J 0 2)%nat (J 1 0)%nat (J 1 1)%nat (J 1 2)%nat
                (J 2 0)%nat (J 2 1)%nat (J 2 2)%nat
                g0 g1 g2 c0 (weights (nq * nq * iq0 + nq * iq1 + iq2)%nat).

(** What one quadrature point adds to the entry [j] of [A]. *)
Definition point_contribution (fw : Qc * Qc * Qc) (iq0 iq1 iq2 : nat) (j : nat) : Qc :=
  sum3 nd (fun i0 i1 i2 =>
    if Nat.eqb j (idx3 i0 i1 i2)
    then fw0 fw * dphi 0 iq0 iq1 iq2 i0 i1 i2
         + fw1 fw * dphi 1 iq0 iq1 iq2 i0 i1 i2
         + fw2 fw * dphi 2 iq0 iq1 iq2 i0 i1 i2
    else 0).

(** What the whole quadrature loop adds to the entry [j] of [A], for the
    local field [w] and the geometry [geo]. *)
Definition contribution (w : array) (geo : nat -> nat -> Qc) (c0 : Qc) (j : nat) : Qc :=
  sum3 nq (fun iq0 iq1 iq2 =>
    point_contribution
      (flux geo c0 iq0 iq1 iq2 (ref_gradient w 0%nat iq0 iq1 iq2)
            (ref_gradient w 1 iq0 iq1 iq2) (ref_gradient w 2 iq0 iq1 iq2))
      iq0 iq1 iq2 j).

(** The gathered local field and geometry of cell [id]. *)
Definition gather_w (m : Memory) (id : nat) : array :=
  fun i => wglobal m (dofmap m (id * sd + i)%nat).

Definition gather_geo (m : Memory) (id : nat) : nat -> nat -> Qc :=
  fun node k => coordinate_dofs_global m (geom_dofmap m (id * 8 + node)%nat * 3 + k)%nat.

(** The content of [A] when the quadrature loop starts. *)
Definition A_start (stack : Locals) : array :=
  if zero_A then for_loop sd (fun i A => store A i 0) (A_uninit stack)
  else A_uninit stack.

(** What cell [id] adds to the entry [d] of the output vector. *)
Definition cell_add (stack : Locals) (id : nat) (m : Memory) (d : nat) : Qc :=
  sum_n sd (fun i =>
    if Nat.eqb d (dofmap m (id * sd + i)%nat)
    then local_tensor nq nd weights GD GV CD CV zero_A stack id m i else 0).

(** The memory [m] with the input vector replaced by [w]. *)
Definition with_input (m : Memory) (w : array) : Memory :=
  mkMemory (Aglobal m) w (c m) (coordinate_dofs_global m) (geom_dofmap m) (dofmap m).

(** The pairing of the fluxes of [u] with the reference gradient of [v],
    summed over the quadrature points of one cell. *)
Definition pairing (geo : nat -> nat -> Qc) (c0 : Qc) (u v : array) : Qc :=
  sum3 nq (fun iq0 iq1 iq2 =>
    let f := flux geo c0 iq0 iq1 iq2
               (ref_gradient u 0 iq0 iq1 iq2)
               (ref_gradient u 1 iq0 iq1 iq2)
               (ref_gradient u 2 iq0 iq1 iq2) in
    fw0 f * ref_gradient v 0 iq0 iq1 iq2
    + fw1 f * ref_gradient v 1 iq0 iq1 iq2
    + fw2 f * ref_gradient v 2 iq0 iq1 iq2).

(** The sum over the cells [0 .. N-1] of what each adds at [d]. *)
Definition assembled (stacks : nat -> Locals) (N : nat) (m : Memory) (d : nat) : Qc :=
  sum_n N (fun id => cell_add (stacks id) id m d).

(** Every cell's thread finds [A] zero when its quadrature loop starts. *)
Definition clean_start (stacks : nat -> Locals) (N : nat) : Prop :=
  forall id i, (id < N)%nat -> (i < sd)%nat -> A_start (stacks id) i = 0.

End CellSemantics.

(** ** The two kernels and example meshes *)

Definition zeros : array := fun _ => 0.
Definition ones : array := fun _ => 1.

(** Degrees of freedom per cell of the two kernels. *)
Definition dofs_per_cell (degree : Z) : nat :=
  match degree with 1%Z => 8 | _ => 27 end.

Definition cell_add_Q1 :=
  cell_add 3 2 Q1.weights_461 Q1.FE_TF0 Q1.FE_TF1 Q1.FE_TF0 Q1.FE_TF1 false.

Definition cell_add_Q2 :=
  cell_add 4 3 Q2.weights_be1 Q2.FE_TF3 Q2.FE_TF2 Q2.FE_TF0 Q2.FE_TF1 true.

(** What the quadrature loop of a degree-1 cell adds to [A[j]]. *)
Definition contribution_Q1 :=
  contribution 3 2 Q1.weights_461 Q1.FE_TF0 Q1.FE_TF1 Q1.FE_TF0 Q1.FE_TF1.

Definition contribution_Q2 :=
  contribution 4 3 Q2.weights_be1 Q2.FE_TF3 Q2.FE_TF2 Q2.FE_TF0 Q2.FE_TF1.

(** The global sum of [v] times [r] over the dofs [0 .. n-1]. *)
Definition dot (n : nat) (v r : array) : Qc := sum_n n (fun d => v d * r d).

(** A mesh of one hexahedron, the unit cube: node [4 i0 + 2 i1 + i2] sits at
    [(i0, i1, i2)]; both dofmaps are the identity. *)
Module UnitCube.

Definition x : array := arr (map lit
  [0; 0; 0;  0; 0; 1;  0; 1; 0;  0; 1; 1;
   1; 0; 0;  1; 0; 1;  1; 1; 0;  1; 1; 1]%Q).

Definition identity : index_array := fun i => i.

Definition op (unassigned : kernel_pointer) (degree : Z) : MatFreeLaplace.t :=
  MatFreeLaplace.new unassigned degree 1 ones x identity identity.

(** Stacks whose leftover content is [g] in every array. *)
Definition stacks (g : Qc) : nat -> Locals :=
  fun _ => mkLocals (fun _ => g) (fun _ => g) (fun _ => g).

End UnitCube.

(** A hexahedron stretched to [0,2] x [0,1] x [0,1], same node order. *)
Module StretchedCell.

Definition x : array := arr (map lit
  [0; 0; 0;  0; 0; 1;  0; 1; 0;  0; 1; 1;
   2; 0; 0;  2; 0; 1;  2; 1; 0;  2; 1; 1]%Q).

(** The trilinear field that is 0 on the face [x = 0] and 1 on [x = 2]. *)
Definition w : array := arr (map lit [0; 0; 0; 0; 1; 1; 1; 1]%Q).

End StretchedCell.

(** The nodal field of dof 0. *)
Definition e0 : array := arr [1].

(** The tolerance of the end-to-end scenario. *)
Definition tolerance : Qc := lit 0.0000000000001.

Definition local_tensor_Q2 :=
  local_tensor 4 3 Q2.weights_be1 Q2.FE_TF3 Q2.FE_TF2 Q2.FE_TF0 Q2.FE_TF1 true.

(** Two unit cubes side by side along the first axis, sharing a face: twelve
    nodes, node [4 a + 2 b + c] at [(a, b, c)]; the second cell starts at
    node 4.  The degree-2 field dofmap lets the cells share nine dofs. *)
Module TwoCells.

Definition x : array := fun k =>
  match (k mod 3)%nat with
  | O => lit (inject_Z (Z.of_nat (k / 12)))
  | S O => lit (inject_Z (Z.of_nat ((k / 6) mod 2)))
  | _ => lit (inject_Z (Z.of_nat ((k / 3) mod 2)))
  end.

Definition x_dofmap : index_array := fun k => if Nat.ltb k 8 then k else (k - 4)%nat.

Definition dofmap_Q2 : index_array := fun k => if Nat.ltb k 27 then k else (k - 9)%nat.

End TwoCells.

(** ** Evaluating the degree-2 kernel on the unit cube *)

(** Row sums of a table: all that a constant field sees of it. *)
Definition row_sums (nd : nat) (T : nat -> nat -> Qc) : nat -> nat -> Qc :=
  fun iq _ => sum_n nd (T iq).

(** [floor_at s x] is the integer part of [x * s], and [below s x] the
    multiple of [1 / s] right below [x]. *)
Definition floor_at (s : positive) (x : Qc) : Z :=
  (Qnum (this x) * Zpos s) / Zpos (Qden (this x)).

Definition below (s : positive) (x : Qc) : Qc := Q2Qc (floor_at s x # s).

(** A triple sum that gives up as soon as a term is refused. *)
Definition guarded_sum3 (n : nat) (g : nat -> nat -> nat -> option Qc) : option Qc :=
  for_loop n (fun i0 st =>
    for_loop n (fun i1 st =>
      for_loop n (fun i2 st =>
        match st with
        | Some acc => match g i0 i1 i2 with Some v => Some (acc + v) | None => None end
        | None => None
        end) st) st) (Some 0).

(** The three components of [f] are at most [F] in absolute value. *)
Definition small (F : Qc) (f : Qc * Qc * Qc) : bool :=
  Qle_bool (this (Qcabs (fw0 f))) (this F)
  && Qle_bool (this (Qcabs (fw1 f))) (this F)
  && Qle_bool (this (Qcabs (fw2 f))) (this F).

(** Every entry of the table [T], [n] rows of [k], is at most [B] in
    absolute value. *)
Definition table_within (n k : nat) (T : nat -> nat -> Qc) (B : Qc) : bool :=
  forallb (fun iq => forallb (fun i => Qle_bool (this (Qcabs (T iq i))) (this B)) (seq 0 k))
          (seq 0 n).

(** The weighted fluxes of the degree-2 kernel for the constant field 1,
    the reference gradient taken from the row sums. *)
Definition Q2_constant_flux (geo : nat -> nat -> Qc) (c0 : Qc) (iq0 iq1 iq2 : nat) :
    Qc * Qc * Qc :=
  flux 4 Q2.weights_be1 Q2.FE_TF3 Q2.FE_TF2 geo c0 iq0 iq1 iq2
    (dphi (row_sums 3 Q2.FE_TF0) (row_sums 3 Q2.FE_TF1) 0 iq0 iq1 iq2 0 0 0)
    (dphi (row_sums 3 Q2.FE_TF0) (row_sums 3 Q2.FE_TF1) 1 iq0 iq1 iq2 0 0 0)
    (dphi (row_sums 3 Q2.FE_TF0) (row_sums 3 Q2.FE_TF1) 2 iq0 iq1 iq2 0 0 0).

(** What a quadrature point adds to [A[0]], given its fluxes [f]. *)
Definition Q2_first_entry_term (f : Qc * Qc * Qc) (iq0 iq1 iq2 : nat) : Qc :=
  fw0 f * dphi Q2.FE_TF0 Q2.FE_TF1 0 iq0 iq1 iq2 0 0 0
  + fw1 f * dphi Q2.FE_TF0 Q2.FE_TF1 1 iq0 iq1 iq2 0 0 0
  + fw2 f * dphi Q2.FE_TF0 Q2.FE_TF1 2 iq0 iq1 iq2 0 0 0.

(** One step of the pass over the quadrature points: the fluxes of the point
    are within [F], and the term of [A[0]] is rounded down to a multiple of
    [1 / s]. *)
Definition Q2_constant_step (geo : nat -> nat -> Qc) (c0 F : Qc) (s : positive)
    (iq0 iq1 iq2 : nat) : option Qc :=
  let f := Q2_constant_flux geo c0 iq0 iq1 iq2 in
  if small F f then Some (below s (Q2_first_entry_term f iq0 iq1 iq2)) else None.

(** The pass went through and its sum is at least [t]. *)
Definition at_least (t : Qc) (o : option Qc) : bool :=
  match o with
  | Some r => Qle_bool (this t) (this r)
  | None => false
  end.

(** Bound on the fluxes of the constant field 1 on the unit cube, and on the
    entries of the two degree-2 tables. *)
Definition flux_bound : Qc := lit 0.0000000000000001.
Definition FE_TF0_bound : Qc := lit 4.
Definition FE_TF1_bound : Qc := lit 1.

(** A positive number below the entry 0 of the degree-2 output. *)
Definition first_entry_bound : Qc := lit 0.00000000000000001.

(** Thirty decimals. *)
Definition scale : positive := Eval vm_compute in (10 ^ 30)%positive.

(** What the local tensor of a cell is bounded by when its fluxes are within
    [F]: 64 quadrature points, three terms each. *)
Definition Q2_entry_bound (F : Qc) : Qc :=
  sum3 4 (fun _ _ _ =>
    F * (FE_TF0_bound * FE_TF1_bound * FE_TF1_bound)
    + F * (FE_TF0_bound * FE_TF1_bound * FE_TF1_bound)
    + F * (FE_TF0_bound * FE_TF1_bound * FE_TF1_bound)).

(** ** ROCm SMI telemetry (src/unnamed/part_000), built with ROCM_SMI defined *)

Module Telemetry.

Open Scope string_scope.

(** The line feed at the end of a diagnostic line. *)
Definition endl : string := String (Ascii.ascii_of_nat 10) EmptyString.

(** [rsmi_status_t] converts to [int]; [RSMI_STATUS_SUCCESS] is 0. *)
Definition rsmi_status_t : Type := Z.
Definition RSMI_STATUS_SUCCESS : rsmi_status_t := 0%Z.

(** The memory types [RSMI_MEM_TYPE_FIRST .. RSMI_MEM_TYPE_LAST] of the
    library header, the three keys of [kDevMemoryTypeNameMap]. *)
Inductive rsmi_memory_type_t : Type :=
| RSMI_MEM_TYPE_VRAM
| RSMI_MEM_TYPE_VIS_VRAM
| RSMI_MEM_TYPE_GTT.

Definition memory_types : list rsmi_memory_type_t :=
  [RSMI_MEM_TYPE_VRAM; RSMI_MEM_TYPE_VIS_VRAM; RSMI_MEM_TYPE_GTT].

Definition kDevMemoryTypeNameMap (ty : rsmi_memory_type_t) : string :=
  match ty with
  | RSMI_MEM_TYPE_VRAM => "VRAM memory"
  | RSMI_MEM_TYPE_VIS_VRAM => "Visible VRAM memory"
  | RSMI_MEM_TYPE_GTT => "GTT memory"
  end.

(** The entry points of the monitoring library that the module calls. *)
Inductive rsmi_call : Type :=
| rsmi_init
| rsmi_shut_down
| rsmi_num_monitor_devices
| rsmi_dev_memory_busy_percent_get (dv_ind : nat)
| rsmi_dev_memory_usage_get (dv_ind : nat) (ty : rsmi_memory_type_t)
| rsmi_dev_memory_total_get (dv_ind : nat) (ty : rsmi_memory_type_t).

(** How the library answers: a status for every call and the value it
    writes through the out-pointer. *)
Record rsmi : Type := mkRsmi {
  init_status : rsmi_status_t;
  shut_down_status : rsmi_status_t;
  monitor_devices_status : rsmi_status_t;
  monitor_devices : nat;
  busy_percent : nat -> rsmi_status_t * N;
  memory_usage : nat -> rsmi_memory_type_t -> rsmi_status_t * N;
  memory_total : nat -> rsmi_memory_type_t -> rsmi_status_t * N
}.

(** What is sent to [std::cout]. *)
Inductive chunk : Type :=
| Str (s : string)
| UInt (n : N)
| Rank (r : nat)
| Percent (usage total : N).      (* (static_cast<float>(usage)*100)/total *)

(** What the module does to its environment, in order. *)
Inductive event : Type :=
| Call (f : rsmi_call) (ret : rsmi_status_t)
| Cout (ch : chunk).

Record State : Type := mkState {
  initialised : bool;               (* the global [bool initialised] *)
  trace : list event
}.

Definition initial : State := mkState false [].

Definition emit (e : event) (st : State) : State :=
  mkState (initialised st) (trace st ++ [e]).

Definition cout (chs : list chunk) (st : State) : State :=
  mkState (initialised st) (trace st ++ map Cout chs).

Definition set_initialised (b : bool) (st : State) : State :=
  mkState b (trace st).

Section WithLibrary.

Variable lib : rsmi.
Variable rank : nat.              (* MPI_Comm_rank(MPI_COMM_WORLD, &rank) *)

(** Lines 14-29. *)
Definition initialise_rocm_smi (st : State) : Z * State :=
  let ret := init_status lib in
  let st := emit (Call rsmi_init ret) st in
  let st := if Z.eqb ret RSMI_STATUS_SUCCESS then set_initialised true st else st in
  (ret, st).

(** Lines 31-44. *)
Definition shutdown_rocm_smi (st : State) : Z * State :=
  if initialised st then
    let ret := shut_down_status lib in
    (ret, emit (Call rsmi_shut_down ret) st)
  else (0%Z, st).

(** Lines 46-56.  The status of the query is dropped; [monitor_devices]
    is what the local variable holds after the call. *)
Definition num_monitored_devices (st : State) : nat * State :=
  if initialised st then
    (monitor_devices lib,
     emit (Call rsmi_num_monitor_devices (monitor_devices_status lib)) st)
  else (0%nat, st).

(** [for (uint32_t i = i0; i < num_monitored_devices(); ++i) body]: the
    bound is queried before every iteration; [body] answers [false] when
    it executed [return].  [fuel] bounds the number of iterations. *)
Fixpoint for_devices (fuel : nat) (i : nat)
    (body : nat -> State -> bool * State) (st : State) : State :=
  match fuel with
  | O => st
  | S fuel' =>
      let (n, st) := num_monitored_devices st in
      if Nat.ltb i n then
        let (continue, st) := body i st in
        if continue then for_devices fuel' (S i) body st else st
      else st
  end.

(** [for (mem_type = RSMI_MEM_TYPE_FIRST; mem_type <= RSMI_MEM_TYPE_LAST;
    ++mem_type) body], with the same convention for [return]. *)
Fixpoint for_memory_types (tys : list rsmi_memory_type_t)
    (body : rsmi_memory_type_t -> State -> bool * State) (st : State)
    : bool * State :=
  match tys with
  | [] => (true, st)
  | ty :: tys' =>
      let (continue, st) := body ty st in
      if continue then for_memory_types tys' body st else (false, st)
  end.

(** Enough iterations for any device count the library can report. *)
Definition device_fuel : nat := S (monitor_devices lib).

Definition not_initialised (st : State) : State :=
  cout [Str "ROCm SMI not initialised"; Str endl] st.

(** Lines 58-83. *)
Definition print_amd_gpu_memory_busy (text : string) (st : State) : State :=
  if initialised st then
    for_devices device_fuel 0 (fun i st =>
      let (err, mem_busy_percent) := busy_percent lib i in
      let st := emit (Call (rsmi_dev_memory_busy_percent_get i) err) st in
      if negb (Z.eqb err RSMI_STATUS_SUCCESS) then (false, st)
      else
        (true, cout [Str text; Str " MPI Rank "; Rank rank; Str " GPU "; UInt (N.of_nat i);
                     Str " Memory Busy %: "; UInt mem_busy_percent; Str endl] st)) st
  else not_initialised st.

(** Lines 85-116. *)
Definition print_amd_gpu_memory_used (text : string) (st : State) : State :=
  if initialised st then
    for_devices device_fuel 0 (fun i st =>
      let st := cout [Str text; Str " MPI Rank "; Rank rank; Str " GPU "; UInt (N.of_nat i);
                      Str " memory used:"] st in
      let (continue, st) := for_memory_types memory_types (fun mem_type st =>
        let (err, usage) := memory_usage lib i mem_type in
        let st := emit (Call (rsmi_dev_memory_usage_get i mem_type) err) st in
        if negb (Z.eqb err RSMI_STATUS_SUCCESS) then (false, st)
        else
          (true, cout [Str " "; Str (kDevMemoryTypeNameMap mem_type);
                       Str " "; UInt usage] st)) st in
      if continue then (true, cout [Str endl] st) else (false, st)) st
  else not_initialised st.

(** Lines 118-148. *)
Definition print_amd_gpu_memory_total (text : string) (st : State) : State :=
  if initialised st then
    for_devices device_fuel 0 (fun i st =>
      let st := cout [Str text; Str " MPI Rank "; Rank rank; Str " GPU "; UInt (N.of_nat i);
                      Str " total memory:"] st in
      let (continue, st) := for_memory_types memory_types (fun mem_type st =>
        let (err, total) := memory_total lib i mem_type in
        let st := emit (Call (rsmi_dev_memory_total_get i mem_type) err) st in
        if negb (Z.eqb err RSMI_STATUS_SUCCESS) then (false, st)
        else
          (true, cout [Str " "; Str (kDevMemoryTypeNameMap mem_type);
                       Str " "; UInt total] st)) st in
      if continue then (true, cout [Str endl] st) else (false, st)) st
  else not_initialised st.

(** Lines 150-187. *)
Definition print_amd_gpu_memory_percentage_used (text : string) (st : State) : State :=
  if initialised st then
    for_devices device_fuel 0 (fun i st =>
      let st := cout [Str text; Str " MPI Rank "; Rank rank; Str " GPU "; UInt (N.of_nat i);
                      Str "  % memory used:"] st in
      let (continue, st) := for_memory_types memory_types (fun mem_type st =>
        let (err, total) := memory_total lib i mem_type in
        let st := emit (Call (rsmi_dev_memory_total_get i mem_type) err) st in
        if negb (Z.eqb err RSMI_STATUS_SUCCESS) then (false, st)
        else
          let (err, usage) := memory_usage lib i mem_type in
          let st := emit (Call (rsmi_dev_memory_usage_get i mem_type) err) st in
          if negb (Z.eqb err RSMI_STATUS_SUCCESS) then (false, st)
          else
            (true, cout [Str " "; Str (kDevMemoryTypeNameMap mem_type);
                         Str " "; Percent usage total] st)) st in
      if continue then (true, cout [Str endl] st) else (false, st)) st
  else not_initialised st.

End WithLibrary.

(** The operations a client can invoke. *)
Inductive operation : Type :=
| Initialise
| Shutdown
| NumMonitoredDevices
| PrintMemoryBusy (text : string)
| PrintMemoryUsed (text : string)
| PrintMemoryTotal (text : string)
| PrintMemoryPercentageUsed (text : string).

Definition perform (lib : rsmi) (rank : nat) (op : operation) (st : State) : State :=
  match op with
  | Initialise => snd (initialise_rocm_smi lib st)
  | Shutdown => snd (shutdown_rocm_smi lib st)
  | NumMonitoredDevices => snd (num_monitored_devices lib st)
  | PrintMemoryBusy text => print_amd_gpu_memory_busy lib rank text st
  | PrintMemoryUsed text => print_amd_gpu_memory_used lib rank text st
  | PrintMemoryTotal text => print_amd_gpu_memory_total lib rank text st
  | PrintMemoryPercentageUsed text => print_amd_gpu_memory_percentage_used lib rank text st
  end.

(** A sequence of client calls from the initial state; each call meets the
    library in the state of health given with it. *)
Definition run (rank : nat) (ops : list (operation * rsmi)) : State :=
  fold_left (fun st o => perform (snd o) rank (fst o) st) ops initial.

(** Decidable readings of the trace. *)
Definition is_query (e : event) : bool :=
  match e with
  | Call rsmi_num_monitor_devices _ => true
  | Call (rsmi_dev_memory_busy_percent_get _) _ => true
  | Call (rsmi_dev_memory_usage_get _ _) _ => true
  | Call (rsmi_dev_memory_total_get _ _) _ => true
  | _ => false
  end.

Definition is_successful_init (e : event) : bool :=
  match e with
  | Call rsmi_init ret => Z.eqb ret RSMI_STATUS_SUCCESS
  | _ => false
  end.

Definition is_shut_down (e : event) : bool :=
  match e with
  | Call rsmi_shut_down _ => true
  | _ => false
  end.

(** No query ahead of the first successful [rsmi_init]. *)
Fixpoint no_query_before_init (tr : list event) : bool :=
  match tr with
  | [] => true
  | e :: tr' =>
      if is_successful_init e then true
      else negb (is_query e) && no_query_before_init tr'
  end.

(** No query behind a [rsmi_shut_down]. *)
Fixpoint no_query_after_shut_down (tr : list event) : bool :=
  match tr with
  | [] => true
  | e :: tr' =>
      if is_shut_down e then forallb (fun e' => negb (is_query e')) tr'
      else no_query_after_shut_down tr'
  end.

(** A per-device query, whose status the print operations test, failed. *)
Definition is_failed_query (e : event) : bool :=
  match e with
  | Call rsmi_init _ | Call rsmi_shut_down _ | Call rsmi_num_monitor_devices _ => false
  | Call _ ret => negb (Z.eqb ret RSMI_STATUS_SUCCESS)
  | Cout _ => false
  end.

Definition is_cout (e : event) : bool :=
  match e with
  | Cout _ => true
  | Call _ _ => false
  end.

(** *** Readings of the trace used by the statements *)

Open Scope list_scope.

(** [clean evs]: no per-device query failed. *)
Definition clean (evs : list event) : bool :=
  forallb (fun e => negb (is_failed_query e)) evs.

(** A failed per-device query, if any, is the last event. *)
Fixpoint failure_only_last (evs : list event) : bool :=
  match evs with
  | [] => true
  | e :: rest =>
      if is_failed_query e then match rest with [] => true | _ :: _ => false end
      else failure_only_last rest
  end.

(** [stopped evs]: [evs] ends with the first failed per-device query. *)
Definition stopped (evs : list event) : Prop :=
  exists pre e, evs = pre ++ [e] /\ clean pre = true /\ is_failed_query e = true.

(** [seg st st' evs]: from [st] to [st'] the flag is kept and [evs] are
    appended to the trace. *)
Definition seg (st st' : State) (evs : list event) : Prop :=
  initialised st' = initialised st /\ trace st' = trace st ++ evs.

(** A loop body that stops exactly when a per-device query fails. *)
Definition body_ok (body : State -> bool * State) : Prop :=
  forall st, exists evs,
    seg st (snd (body st)) evs /\
    (if fst (body st) then clean evs = true else stopped evs).

(** Monitoring libraries for the examples. *)
Module TestLibrary.

(** Two devices, every call succeeds. *)
Definition healthy : rsmi :=
  mkRsmi 0%Z 0%Z 0%Z 2 (fun _ => (0%Z, 10%N)) (fun _ _ => (0%Z, 100%N))
         (fun _ _ => (0%Z, 1000%N)).

(** Two devices; the busy query and the visible-VRAM usage query of
    device 0 fail with status 1, every other call succeeds. *)
Definition device0_fails : rsmi :=
  mkRsmi 0%Z 0%Z 0%Z 2
    (fun i => match i with O => (1%Z, 0%N) | _ => (0%Z, 42%N) end)
    (fun i ty => match i, ty with
                 | O, RSMI_MEM_TYPE_VIS_VRAM => (1%Z, 0%N)
                 | _, _ => (0%Z, 100%N)
                 end)
    (fun _ _ => (0%Z, 1000%N)).

(** [rsmi_init] fails. *)
Definition init_fails : rsmi :=
  mkRsmi 7%Z 0%Z 0%Z 2 (fun _ => (0%Z, 10%N)) (fun _ _ => (0%Z, 100%N))
         (fun _ _ => (0%Z, 1000%N)).

End TestLibrary.

(** The diagnostic line of [print_amd_gpu_memory_busy] for device [i]. *)
Definition busy_line (text : string) (rank i : nat) (percent : N) : list chunk :=
  [Str text; Str " MPI Rank "; Rank rank; Str " GPU "; UInt (N.of_nat i);
   Str " Memory Busy %: "; UInt percent; Str endl].

(** No query and no successful [rsmi_init]. *)
Definition quiet (tr : list event) : bool :=
  forallb (fun e => negb (is_query e || is_successful_init e)) tr.

(** The invariant of the reachable states. *)
Definition consistent (st : State) : Prop :=
  no_query_before_init (trace st) = true /\
  (initialised st = false -> quiet (trace st) = true) /\
  (initialised st = true -> existsb is_successful_init (trace st) = true).

(** The start of a diagnostic line of the three memory reports for device
    [i], and the item of one memory category. *)
Definition memory_header (text : string) (rank i : nat) (label : string) : list chunk :=
  [Str text; Str " MPI Rank "; Rank rank; Str " GPU "; UInt (N.of_nat i); Str label].

Definition memory_item (ty : rsmi_memory_type_t) (value : chunk) : list chunk :=
  [Str " "; Str (kDevMemoryTypeNameMap ty); Str " "; value].

(** The events of one complete line: the header, for each memory category
    its queries [calls] and its item, and the line feed. *)
Definition memory_line (header : list chunk)
    (calls : rsmi_memory_type_t -> list event) (value : rsmi_memory_type_t -> chunk)
    : list event :=
  map Cout header
  ++ flat_map (fun ty => calls ty ++ map Cout (memory_item ty (value ty))) memory_types
  ++ [Cout (Str endl)].

End Telemetry.

(** * Loops as sums *)

Lemma for_loop_ext {S : Type} (n : nat) (body body' : nat -> S -> S) (s : S) :
  (forall i t, (i < n)%nat -> body i t = body' i t) ->
  for_loop n body s = for_loop n body' s.
Proof.
  induction n as [|n IH]; intros H; simpl; [reflexivity|].
  rewrite IH by (intros; apply H; lia). apply H; lia.
Qed.

Lemma for_loop_fold {S : Type} (n : nat) (body : nat -> S -> S) (s : S) :
  for_loop n body s = fold_left (fun t i => body i t) (seq 0 n) s.
Proof.
  induction n as [|n IH]; [reflexivity|].
  rewrite seq_S, fold_left_app, <- IH. reflexivity.
Qed.

Lemma for_loop_invariant {S : Type} (P : S -> Prop) (n : nat)
    (body : nat -> S -> S) (s : S) :
  P s -> (forall i t, (i < n)%nat -> P t -> P (body i t)) -> P (for_loop n body s).
Proof.
  intros Hs Hb. induction n as [|n IH]; simpl; [exact Hs|].
  apply Hb; [lia|]. apply IH. intros; apply Hb; [lia|assumption].
Qed.

Lemma sum_n_S (n : nat) (f : nat -> Qc) : sum_n (S n) f = sum_n n f + f n.
Proof. reflexivity. Qed.

Lemma for_loop_acc (n : nat) (f : nat -> Qc) (a : Qc) :
  for_loop n (fun i a => a + f i) a = a + sum_n n f.
Proof.
  induction n as [|n IH]; simpl.
  - unfold sum_n; simpl. ring.
  - rewrite IH, sum_n_S. ring.
Qed.

Lemma sum_n_ext (n : nat) (f g : nat -> Qc) :
  (forall i, (i < n)%nat -> f i = g i) -> sum_n n f = sum_n n g.
Proof.
  intros H. unfold sum_n. apply for_loop_ext. intros i t Hi. rewrite H by assumption.
  reflexivity.
Qed.

Lemma sum_n_zero (n : nat) : sum_n n (fun _ => 0) = 0.
Proof. induction n as [|n IH]; [reflexivity|]. rewrite sum_n_S, IH. ring. Qed.

Lemma sum_n_plus (n : nat) (f g : nat -> Qc) :
  sum_n n (fun i => f i + g i) = sum_n n f + sum_n n g.
Proof.
  induction n as [|n IH]; [unfold sum_n; simpl; ring|].
  rewrite !sum_n_S, IH. ring.
Qed.

Lemma sum_n_scal (n : nat) (k : Qc) (f : nat -> Qc) :
  sum_n n (fun i => k * f i) = k * sum_n n f.
Proof.
  induction n as [|n IH]; [unfold sum_n; simpl; ring|].
  rewrite !sum_n_S, IH. ring.
Qed.

Lemma sum_n_scal_r (n : nat) (k : Qc) (f : nat -> Qc) :
  sum_n n (fun i => f i * k) = sum_n n f * k.
Proof.
  induction n as [|n IH]; [unfold sum_n; simpl; ring|].
  rewrite !sum_n_S, IH. ring.
Qed.

Lemma sum_n_swap (n m : nat) (f : nat -> nat -> Qc) :
  sum_n n (fun i => sum_n m (fun j => f i j)) =
  sum_n m (fun j => sum_n n (fun i => f i j)).
Proof.
  induction n as [|n IH].
  - symmetry. apply (sum_n_zero m).
  - rewrite sum_n_S, IH.
    rewrite <- sum_n_plus. reflexivity.
Qed.

(** The unique non-zero term of a sum against an indicator. *)
Lemma sum_n_delta (n j : nat) (f : nat -> Qc) :
  (j < n)%nat ->
  sum_n n (fun i => if Nat.eqb j i then f i else 0) = f j.
Proof.
  induction n as [|n IH]; intros Hj; [lia|].
  rewrite sum_n_S. destruct (Nat.eqb_spec j n) as [->|Hne].
  - rewrite (sum_n_ext n _ (fun _ => 0)).
    + rewrite sum_n_zero. ring.
    + intros i Hi. destruct (Nat.eqb_spec n i); [lia|reflexivity].
  - rewrite IH by lia. ring.
Qed.

Lemma sum_n_delta_out (n j : nat) (f : nat -> Qc) :
  (n <= j)%nat ->
  sum_n n (fun i => if Nat.eqb j i then f i else 0) = 0.
Proof.
  intros Hj. rewrite (sum_n_ext n _ (fun _ => 0)); [apply sum_n_zero|].
  intros i Hi. destruct (Nat.eqb_spec j i); [lia|reflexivity].
Qed.

Lemma acc3_sum3 (n : nat) (f : nat -> nat -> nat -> Qc) : acc3 n f = sum3 n f.
Proof.
  unfold acc3, sum3.
  rewrite (for_loop_ext n _ (fun i0 a => a + sum_n n (fun i1 => sum_n n (fun i2 => f i0 i1 i2)))).
  - rewrite for_loop_acc. ring.
  - intros i0 a _.
    rewrite (for_loop_ext n _ (fun i1 a => a + sum_n n (fun i2 => f i0 i1 i2))).
    + apply for_loop_acc.
    + intros i1 b _. apply for_loop_acc.
Qed.

Lemma sum3_ext (n : nat) (f g : nat -> nat -> nat -> Qc) :
  (forall i0 i1 i2, (i0 < n)%nat -> (i1 < n)%nat -> (i2 < n)%nat -> f i0 i1 i2 = g i0 i1 i2) ->
  sum3 n f = sum3 n g.
Proof.
  intros H. unfold sum3.
  apply sum_n_ext; intros i0 H0. apply sum_n_ext; intros i1 H1.
  apply sum_n_ext; intros i2 H2. apply H; assumption.
Qed.

Lemma sum3_zero (n : nat) : sum3 n (fun _ _ _ => 0) = 0.
Proof.
  unfold sum3.
  rewrite (sum_n_ext n _ (fun _ => 0)); [apply sum_n_zero|].
  intros. rewrite (sum_n_ext n _ (fun _ => 0)); [apply sum_n_zero|].
  intros. apply sum_n_zero.
Qed.

Lemma sum3_plus (n : nat) (f g : nat -> nat -> nat -> Qc) :
  sum3 n (fun i0 i1 i2 => f i0 i1 i2 + g i0 i1 i2) = sum3 n f + sum3 n g.
Proof.
  unfold sum3. rewrite <- sum_n_plus. apply sum_n_ext; intros i0 _.
  rewrite <- sum_n_plus. apply sum_n_ext; intros i1 _.
  apply sum_n_plus.
Qed.

Lemma sum3_scal (n : nat) (k : Qc) (f : nat -> nat -> nat -> Qc) :
  sum3 n (fun i0 i1 i2 => k * f i0 i1 i2) = k * sum3 n f.
Proof.
  unfold sum3. rewrite <- sum_n_scal. apply sum_n_ext; intros i0 _.
  rewrite <- sum_n_scal. apply sum_n_ext; intros i1 _.
  apply sum_n_scal.
Qed.

(** Pointwise reading of a loop that adds into an array. *)
Lemma for_loop_at (n : nat) (body : nat -> array -> array) (g : nat -> Qc) (j : nat) :
  (forall i A, (i < n)%nat -> body i A j = A j + g i) ->
  forall A0, for_loop n body A0 j = A0 j + sum_n n g.
Proof.
  intros H A0. induction n as [|n IH]; simpl.
  - unfold sum_n; simpl. ring.
  - rewrite H by lia. rewrite IH by (intros; apply H; lia). rewrite sum_n_S. ring.
Qed.

(** * Sums over lists of events *)

Lemma sum_list_app (l l' : list Qc) : sum_list (l ++ l') = sum_list l + sum_list l'.
Proof. induction l as [|a l IH]; simpl; [ring|]. rewrite IH. ring. Qed.

Lemma sum_list_Permutation (l l' : list Qc) :
  Permutation l l' -> sum_list l = sum_list l'.
Proof.
  induction 1; simpl; try congruence; ring.
Qed.

Lemma sum_n_sum_list (n : nat) (f : nat -> Qc) :
  sum_n n f = sum_list (map f (seq 0 n)).
Proof.
  induction n as [|n IH]; [reflexivity|].
  rewrite sum_n_S, IH, seq_S, map_app, sum_list_app. simpl. ring.
Qed.

Lemma added_at_app (d : nat) (l l' : list (nat * Qc)) :
  added_at d (l ++ l') = added_at d l + added_at d l'.
Proof. unfold added_at. rewrite map_app. apply sum_list_app. Qed.

Lemma added_at_Permutation (d : nat) (l l' : list (nat * Qc)) :
  Permutation l l' -> added_at d l = added_at d l'.
Proof. intros H. apply sum_list_Permutation, Permutation_map, H. Qed.

(** * Memory: what [atomicAdd] leaves alone *)

Lemma same_inputs_refl (m : Memory) : same_inputs m m.
Proof. repeat split. Qed.

Lemma same_inputs_trans (m1 m2 m3 : Memory) :
  same_inputs m1 m2 -> same_inputs m2 m3 -> same_inputs m1 m3.
Proof.
  unfold same_inputs. intros (a1 & a2 & a3 & a4 & a5) (b1 & b2 & b3 & b4 & b5).
  repeat split; congruence.
Qed.

Lemma atomicAdd_same_inputs (m : Memory) (k : nat) (v : Qc) :
  same_inputs m (atomicAdd m k v).
Proof. repeat split. Qed.

Lemma atomicAdd_Aglobal (m : Memory) (k : nat) (v : Qc) (d : nat) :
  Aglobal (atomicAdd m k v) d = Aglobal m d + (if Nat.eqb d k then v else 0).
Proof. simpl. destruct (Nat.eqb d k); ring. Qed.

Lemma play_spec (evs : list (nat * Qc)) (m : Memory) :
  same_inputs m (play evs m) /\
  forall d, Aglobal (play evs m) d = Aglobal m d + added_at d evs.
Proof.
  revert m. induction evs as [|e evs IH]; intros m.
  - split; [apply same_inputs_refl|]. intros d. unfold added_at; simpl. ring.
  - specialize (IH (atomicAdd m (fst e) (snd e))). destruct IH as [IH1 IH2].
    split.
    + eapply same_inputs_trans; [apply atomicAdd_same_inputs|exact IH1].
    + intros d. change (play (e :: evs) m) with (play evs (atomicAdd m (fst e) (snd e))).
      rewrite IH2, atomicAdd_Aglobal. unfold added_at; simpl. ring.
Qed.

(** The scatter loop of lines 322-323 / 668-669. *)
Lemma scatter_spec (n : nat) (tgt : nat -> nat) (A : array) (m : Memory) :
  same_inputs m (for_loop n (fun i m => atomicAdd m (dofmap m (tgt i)) (A i)) m) /\
  forall d, Aglobal (for_loop n (fun i m => atomicAdd m (dofmap m (tgt i)) (A i)) m) d =
            Aglobal m d + sum_n n (fun i => if Nat.eqb d (dofmap m (tgt i)) then A i else 0).
Proof.
  induction n as [|n IH]; cbn [for_loop].
  - split; [apply same_inputs_refl|]. intros d. unfold sum_n; simpl. ring.
  - destruct IH as [IH1 IH2]. split.
    + eapply same_inputs_trans; [exact IH1|apply atomicAdd_same_inputs].
    + intros d. rewrite atomicAdd_Aglobal, IH2, sum_n_S.
      destruct IH1 as (_ & _ & _ & _ & ->). ring.
Qed.

(** * Interleavings are permutations *)

Lemma interleaving_Permutation {E : Type} (ts : list (list E)) (l : list E) :
  interleaving ts l -> Permutation (concat ts) l.
Proof.
  induction 1 as [ts Hall | ts1 e t ts2 l _ IH].
  - induction Hall as [|t ts Ht _ IHl]; simpl; [constructor|].
    subst t. exact IHl.
  - rewrite concat_app in *. simpl in *.
    apply Permutation_sym, Permutation_cons_app, Permutation_sym, IH.
Qed.

(** The sequential merge is one of the interleavings. *)
Lemma interleaving_concat {E : Type} (ts : list (list E)) :
  interleaving ts (concat ts).
Proof.
  assert (G : forall (done : list (list E)) (ts : list (list E)),
             Forall (fun t => t = []) done -> interleaving (done ++ ts) (concat ts)).
  { intros done ts0. revert done. induction ts0 as [|t ts0 IH]; intros done Hd.
    - simpl. constructor. rewrite app_nil_r. exact Hd.
    - simpl. induction t as [|e t IHt].
      + simpl. replace (done ++ [] :: ts0) with ((done ++ [[]]) ++ ts0)
          by (rewrite <- app_assoc; reflexivity).
        apply IH. apply Forall_app; split; [exact Hd|repeat constructor].
      + simpl. constructor. exact IHt. }
  apply (G [] ts). constructor.
Qed.

(** * The flux block *)

Lemma fw_eta (fw : Qc * Qc * Qc) : fw = (fw0 fw, fw1 fw, fw2 fw).
Proof. destruct fw as [[a b] d]. reflexivity. Qed.

Section Flux.

Variables J0 J1 J2 J3 J4 J5 J6 J7 J8 : Qc.
Variables c0 weight : Qc.

Local Notation "'I'" := (intermediates J0 J1 J2 J3 J4 J5 J6 J7 J8).
Local Notation "'k'" := (K J0 J1 J2 J3 J4 J5 J6 J7 J8).
Local Notation "'d'" := (det J0 J1 J2 J3 J4 J5 J6 J7 J8).

Lemma intermediates_closed_form (g0 g1 g2 : Qc) :
  let p a := physical_gradient J0 J1 J2 J3 J4 J5 J6 J7 J8 a g0 g1 g2 in
  I g0 g1 g2 c0 weight =
  (c0 * (p 1%nat * k 1%nat 0%nat + p 0%nat * k 0%nat 0%nat + p 2%nat * k 2%nat 0%nat)
      * fabs d * weight,
   c0 * (p 1%nat * k 1%nat 1%nat + p 0%nat * k 0%nat 1%nat + p 2%nat * k 2%nat 1%nat)
      * fabs d * weight,
   c0 * (p 0%nat * k 0%nat 2%nat + p 1%nat * k 1%nat 2%nat + p 2%nat * k 2%nat 2%nat)
      * fabs d * weight).
Proof. reflexivity. Qed.

Lemma intermediates_linear (a b g0 g1 g2 h0 h1 h2 : Qc) :
  I (a * g0 + b * h0) (a * g1 + b * h1) (a * g2 + b * h2) c0 weight =
  (a * fw0 (I g0 g1 g2 c0 weight) + b * fw0 (I h0 h1 h2 c0 weight),
   a * fw1 (I g0 g1 g2 c0 weight) + b * fw1 (I h0 h1 h2 c0 weight),
   a * fw2 (I g0 g1 g2 c0 weight) + b * fw2 (I h0 h1 h2 c0 weight)).
Proof.
  rewrite (intermediates_closed_form g0 g1 g2), (intermediates_closed_form h0 h1 h2),
    (intermediates_closed_form (a * g0 + b * h0) (a * g1 + b * h1) (a * g2 + b * h2)).
  cbv zeta. unfold fw0, fw1, fw2, physical_gradient; cbn [fst snd].
  f_equal; [f_equal|]; ring.
Qed.

Lemma intermediates_symmetric (g0 g1 g2 h0 h1 h2 : Qc) :
  fw0 (I g0 g1 g2 c0 weight) * h0 + fw1 (I g0 g1 g2 c0 weight) * h1
    + fw2 (I g0 g1 g2 c0 weight) * h2 =
  fw0 (I h0 h1 h2 c0 weight) * g0 + fw1 (I h0 h1 h2 c0 weight) * g1
    + fw2 (I h0 h1 h2 c0 weight) * g2.
Proof.
  rewrite (intermediates_closed_form g0 g1 g2), (intermediates_closed_form h0 h1 h2).
  cbv zeta. unfold fw0, fw1, fw2, physical_gradient; cbn [fst snd].
  ring.
Qed.

End Flux.

(** * The kernel body as sums *)

Lemma store_loop_at (n : nat) (f : nat -> Qc) (a0 : array) (j : nat) :
  for_loop n (fun i a => store a i (f i)) a0 j = if Nat.ltb j n then f j else a0 j.
Proof.
  induction n as [|n IH]; cbn [for_loop]; [reflexivity|].
  unfold store at 1. rewrite IH.
  destruct (Nat.eqb_spec j n) as [->|Hne].
  - rewrite (proj2 (Nat.ltb_lt n (S n))) by lia. reflexivity.
  - destruct (Nat.ltb_spec j n), (Nat.ltb_spec j (S n)); try lia; reflexivity.
Qed.

Lemma gather_coordinates_at (n : nat) (s0 s1 s2 : nat -> Qc) (a0 : array)
    (node k : nat) :
  (node < n)%nat -> (k < 3)%nat ->
  for_loop n (fun i cd =>
    let cd := store cd (i * 3) (s0 i) in
    let cd := store cd (i * 3 + 1) (s1 i) in
    store cd (i * 3 + 2) (s2 i)) a0 (node * 3 + k)%nat =
  match k with O => s0 node | S O => s1 node | _ => s2 node end.
Proof.
  intros Hn Hk. induction n as [|n IH]; [lia|]. cbn [for_loop]. cbv zeta.
  unfold store at 1 2 3.
  destruct (Nat.eq_dec node n) as [->|Hne].
  - destruct k as [|[|[|k]]]; try lia.
    + replace (Nat.eqb (n * 3 + 0) (n * 3 + 2)) with false by (symmetry; apply Nat.eqb_neq; lia).
      replace (Nat.eqb (n * 3 + 0) (n * 3 + 1)) with false by (symmetry; apply Nat.eqb_neq; lia).
      replace (Nat.eqb (n * 3 + 0) (n * 3)) with true by (symmetry; apply Nat.eqb_eq; lia).
      reflexivity.
    + replace (Nat.eqb (n * 3 + 1) (n * 3 + 2)) with false by (symmetry; apply Nat.eqb_neq; lia).
      rewrite Nat.eqb_refl. reflexivity.
    + rewrite Nat.eqb_refl. reflexivity.
  - replace (Nat.eqb (node * 3 + k) (n * 3 + 2)) with false by (symmetry; apply Nat.eqb_neq; lia).
    replace (Nat.eqb (node * 3 + k) (n * 3 + 1)) with false by (symmetry; apply Nat.eqb_neq; lia).
    replace (Nat.eqb (node * 3 + k) (n * 3)) with false by (symmetry; apply Nat.eqb_neq; lia).
    apply IH. lia.
Qed.

Section KernelFacts.

Variables nq nd : nat.
Variable weights : nat -> Qc.
Variables GD GV CD CV : nat -> nat -> Qc.
Variable zero_A : bool.

Local Notation "'sd'" := (space_dim nd).

Lemma idx3_lt (i0 i1 i2 : nat) :
  (i0 < nd)%nat -> (i1 < nd)%nat -> (i2 < nd)%nat -> (idx3 nd i0 i1 i2 < sd)%nat.
Proof. unfold idx3, space_dim. intros. nia. Qed.

Lemma quadrature_point_flux (w coordinate_dofs : array) (geo : nat -> nat -> Qc)
    (c0 : Qc) (iq0 iq1 iq2 : nat) :
  (forall node k, (node < 8)%nat -> (k < 3)%nat ->
     coordinate_dofs (node * 3 + k)%nat = geo node k) ->
  quadrature_point nq nd weights GD GV CD CV w coordinate_dofs c0 iq0 iq1 iq2 =
  flux nq weights GD GV geo c0 iq0 iq1 iq2 (ref_gradient nd CD CV w 0%nat iq0 iq1 iq2)
       (ref_gradient nd CD CV w 1 iq0 iq1 iq2) (ref_gradient nd CD CV w 2 iq0 iq1 iq2).
Proof.
  intros Hgeo. unfold quadrature_point, flux, ref_gradient, jacobian. cbv zeta.
  rewrite !acc3_sum3.
  assert (E : forall k (T : nat -> nat -> nat -> Qc), (k < 3)%nat ->
    sum3 2 (fun ic0 ic1 ic2 => coordinate_dofs ((4 * ic0 + 2 * ic1 + ic2) * 3 + k)%nat * T ic0 ic1 ic2) =
    sum3 2 (fun ic0 ic1 ic2 => geo (4 * ic0 + 2 * ic1 + ic2)%nat k * T ic0 ic1 ic2)).
  { intros k T Hk. apply sum3_ext. intros i0 i1 i2 H0 H1 H2.
    rewrite Hgeo by lia. reflexivity. }
  rewrite !E by lia. reflexivity.
Qed.

(** Agreement of two local fields on the indices the kernel reads. *)
Lemma ref_gradient_ext (w w' : array) (k iq0 iq1 iq2 : nat) :
  (forall i, (i < sd)%nat -> w i = w' i) ->
  ref_gradient nd CD CV w k iq0 iq1 iq2 = ref_gradient nd CD CV w' k iq0 iq1 iq2.
Proof.
  intros H. apply sum3_ext. intros i0 i1 i2 H0 H1 H2.
  rewrite H by (apply idx3_lt; assumption). reflexivity.
Qed.

Lemma ref_gradient_linear (a b : Qc) (u v : array) (k iq0 iq1 iq2 : nat) :
  ref_gradient nd CD CV (fun i => a * u i + b * v i) k iq0 iq1 iq2 =
  a * ref_gradient nd CD CV u k iq0 iq1 iq2 + b * ref_gradient nd CD CV v k iq0 iq1 iq2.
Proof.
  unfold ref_gradient. rewrite <- !sum3_scal, <- sum3_plus.
  apply sum3_ext. intros. ring.
Qed.

Lemma tensor_computation_at (iq0 iq1 iq2 : nat) (fw : Qc * Qc * Qc) (A : array) (j : nat) :
  tensor_computation nd CD CV iq0 iq1 iq2 fw A j =
  A j + point_contribution nd CD CV fw iq0 iq1 iq2 j.
Proof.
  unfold tensor_computation, point_contribution, sum3.
  destruct fw as [[f0 f1] f2]. unfold fw0, fw1, fw2; cbn [fst snd].
  apply for_loop_at. intros i0 A0 _.
  apply for_loop_at. intros i1 A1 _.
  apply for_loop_at. intros i2 A2 _.
  cbv zeta. unfold add_at, idx3, dphi.
  destruct (Nat.eqb j (nd * nd * i0 + nd * i1 + i2)); ring.
Qed.

Lemma quadrature_loop_at (w coordinate_dofs : array) (geo : nat -> nat -> Qc)
    (c0 : Qc) (A : array) (j : nat) :
  (forall node k, (node < 8)%nat -> (k < 3)%nat ->
     coordinate_dofs (node * 3 + k)%nat = geo node k) ->
  quadrature_loop nq nd weights GD GV CD CV w coordinate_dofs c0 A j =
  A j + contribution nq nd weights GD GV CD CV w geo c0 j.
Proof.
  intros Hgeo. unfold quadrature_loop, contribution, sum3.
  apply for_loop_at. intros iq0 A0 _.
  apply for_loop_at. intros iq1 A1 _.
  apply for_loop_at. intros iq2 A2 _.
  rewrite tensor_computation_at, (quadrature_point_flux _ _ geo) by exact Hgeo.
  reflexivity.
Qed.

Lemma contribution_ext (w w' : array) (geo : nat -> nat -> Qc) (c0 : Qc) (j : nat) :
  (forall i, (i < sd)%nat -> w i = w' i) ->
  contribution nq nd weights GD GV CD CV w geo c0 j = contribution nq nd weights GD GV CD CV w' geo c0 j.
Proof.
  intros H. unfold contribution. apply sum3_ext. intros iq0 iq1 iq2 _ _ _.
  rewrite !(ref_gradient_ext w w') by exact H. reflexivity.
Qed.

Lemma point_contribution_linear (a b : Qc) (f h : Qc * Qc * Qc) (iq0 iq1 iq2 j : nat) :
  point_contribution nd CD CV (a * fw0 f + b * fw0 h, a * fw1 f + b * fw1 h, a * fw2 f + b * fw2 h)
                     iq0 iq1 iq2 j =
  a * point_contribution nd CD CV f iq0 iq1 iq2 j + b * point_contribution nd CD CV h iq0 iq1 iq2 j.
Proof.
  unfold point_contribution. rewrite <- !sum3_scal, <- sum3_plus.
  apply sum3_ext. intros i0 i1 i2 _ _ _. unfold fw0, fw1, fw2; cbn [fst snd].
  destruct (Nat.eqb j (idx3 nd i0 i1 i2)); ring.
Qed.

(** The quadrature loop is linear in the local field. *)
Lemma contribution_linear (a b : Qc) (u v : array) (geo : nat -> nat -> Qc)
    (c0 : Qc) (j : nat) :
  contribution nq nd weights GD GV CD CV (fun i => a * u i + b * v i) geo c0 j =
  a * contribution nq nd weights GD GV CD CV u geo c0 j + b * contribution nq nd weights GD GV CD CV v geo c0 j.
Proof.
  unfold contribution. rewrite <- !sum3_scal, <- sum3_plus.
  apply sum3_ext. intros iq0 iq1 iq2 _ _ _.
  rewrite !ref_gradient_linear. unfold flux. cbv zeta.
  rewrite intermediates_linear. apply point_contribution_linear.
Qed.

End KernelFacts.

(** * One thread, one launch *)

Lemma concat_flat_map_map {X Y Z : Type} (g : X -> Y -> list Z) (l1 : list X) (l2 : list Y) :
  concat (flat_map (fun b => map (g b) l2) l1) =
  flat_map (fun b => flat_map (g b) l2) l1.
Proof.
  induction l1 as [|b l1 IH]; simpl; [reflexivity|].
  rewrite concat_app, IH, (flat_map_concat_map (g b) l2). reflexivity.
Qed.

(** A loop of steps each of which only [atomicAdd]s, the added values being
    determined by the read-only part of the memory. *)
Lemma loop_events (n : nat) (step : nat -> Memory -> Memory)
    (ev : nat -> Memory -> list (nat * Qc)) :
  (forall i m, same_inputs m (step i m) /\
               forall d, Aglobal (step i m) d = Aglobal m d + added_at d (ev i m)) ->
  (forall i m m', same_inputs m m' -> ev i m' = ev i m) ->
  forall m, same_inputs m (for_loop n step m) /\
            forall d, Aglobal (for_loop n step m) d =
                      Aglobal m d + added_at d (flat_map (fun i => ev i m) (seq 0 n)).
Proof.
  intros Hstep Hev m. induction n as [|n IH]; cbn [for_loop].
  - split; [apply same_inputs_refl|]. intros d. unfold added_at; simpl. ring.
  - destruct IH as [IH1 IH2].
    destruct (Hstep n (for_loop n step m)) as [S1 S2]. split.
    + eapply same_inputs_trans; eassumption.
    + intros d. rewrite S2, IH2, seq_S, flat_map_app, added_at_app.
      rewrite (Hev n m _ IH1). simpl. rewrite app_nil_r. ring.
Qed.

Section ThreadFacts.

Variables nq nd : nat.
Variable weights : nat -> Qc.
Variables GD GV CD CV : nat -> nat -> Qc.
Variable zero_A : bool.

Local Notation "'sd'" := (space_dim nd).
Local Notation "'thread'" := (kernel_thread nq nd weights GD GV CD CV zero_A).
Local Notation "'events'" := (thread_events nq nd weights GD GV CD CV zero_A).
Local Notation "'tensor'" := (local_tensor nq nd weights GD GV CD CV zero_A).

Lemma A_start_zeroed (stack : Locals) (j : nat) :
  zero_A = true -> (j < sd)%nat -> A_start nd zero_A stack j = 0.
Proof.
  intros Hz Hj. unfold A_start. rewrite Hz, store_loop_at.
  rewrite (proj2 (Nat.ltb_lt j sd)) by exact Hj. reflexivity.
Qed.

Lemma A_start_garbage (stack : Locals) (j : nat) :
  zero_A = false -> A_start nd zero_A stack j = A_uninit stack j.
Proof. intros Hz. unfold A_start. rewrite Hz. reflexivity. Qed.

Lemma local_tensor_at (stack : Locals) (id : nat) (m : Memory) (j : nat) :
  tensor stack id m j =
  A_start nd zero_A stack j
  + contribution nq nd weights GD GV CD CV (gather_w nd m id) (gather_geo m id) (c m 0%nat) j.
Proof.
  unfold local_tensor. cbv zeta.
  rewrite (quadrature_loop_at nq nd weights GD GV CD CV _ _ (gather_geo m id)).
  - unfold A_start.
    rewrite (contribution_ext nq nd weights GD GV CD CV _ (gather_w nd m id)); [reflexivity|].
    intros i Hi. rewrite store_loop_at.
    rewrite (proj2 (Nat.ltb_lt i sd)) by exact Hi. reflexivity.
  - intros node k Hn Hk. rewrite gather_coordinates_at by assumption.
    unfold gather_geo. destruct k as [|[|k]]; try reflexivity.
    + rewrite Nat.add_0_r. reflexivity.
    + destruct k; [reflexivity|lia].
Qed.

Lemma local_tensor_same_inputs (stack : Locals) (id : nat) (m m' : Memory) :
  same_inputs m m' -> tensor stack id m' = tensor stack id m.
Proof.
  intros (H1 & H2 & H3 & H4 & H5). unfold local_tensor.
  rewrite H1, H2, H3, H4, H5. reflexivity.
Qed.

Lemma thread_events_same_inputs (stack : Locals) (b bd t N : nat) (m m' : Memory) :
  same_inputs m m' -> events stack b bd t N m' = events stack b bd t N m.
Proof.
  intros H. unfold thread_events. cbv zeta.
  rewrite (local_tensor_same_inputs stack _ m m' H).
  destruct H as (_ & _ & _ & _ & ->). reflexivity.
Qed.

(** A thread is the sequence of its [atomicAdd]s. *)
Lemma kernel_thread_spec (stack : Locals) (b bd t N : nat) (m : Memory) :
  same_inputs m (thread stack b bd t N m) /\
  forall d, Aglobal (thread stack b bd t N m) d =
            Aglobal m d + added_at d (events stack b bd t N m).
Proof.
  unfold kernel_thread, thread_events. cbv zeta.
  destruct (Nat.ltb (b * bd + t) N).
  - pose proof (scatter_spec sd (fun i => (b * bd + t) * sd + i)%nat
                  (tensor stack (b * bd + t)%nat m) m) as [S1 S2].
    split; [exact S1|]. intros d. rewrite S2. f_equal.
    unfold added_at. rewrite map_map. cbn [fst snd]. apply sum_n_sum_list.
  - split; [apply same_inputs_refl|]. intros d. unfold added_at; simpl. ring.
Qed.

(** A launch under the reference schedule is the sequence of the threads'
    [atomicAdd]s, thread after thread. *)
Lemma launch_spec (grid block : nat) (stacks : nat -> Locals) (N : nat) (m : Memory) :
  same_inputs m (hipLaunchKernelGGL thread grid block stacks N m) /\
  forall d, Aglobal (hipLaunchKernelGGL thread grid block stacks N m) d =
            Aglobal m d
            + added_at d (concat (launch_threads events grid block stacks N m)).
Proof.
  unfold hipLaunchKernelGGL, launch_threads. rewrite concat_flat_map_map.
  apply (loop_events grid
           (fun blockIdx m => for_loop block (fun threadIdx m =>
              thread (stacks (blockIdx * block + threadIdx)%nat) blockIdx block threadIdx N m) m)
           (fun blockIdx m => flat_map (fun threadIdx =>
              events (stacks (blockIdx * block + threadIdx)%nat) blockIdx block threadIdx N m)
              (seq 0 block))).
  - intros blockIdx m0.
    apply (loop_events block
             (fun threadIdx m => thread (stacks (blockIdx * block + threadIdx)%nat)
                                        blockIdx block threadIdx N m)
             (fun threadIdx m => events (stacks (blockIdx * block + threadIdx)%nat)
                                        blockIdx block threadIdx N m)).
    + intros i m1. apply kernel_thread_spec.
    + intros i m1 m2 H. apply thread_events_same_inputs, H.
  - intros blockIdx m1 m2 H. apply flat_map_ext. intros threadIdx.
    apply thread_events_same_inputs, H.
Qed.

End ThreadFacts.

(** * From blocks and threads to cells *)

Lemma sum_n_add (a b : nat) (F : nat -> Qc) :
  sum_n (a + b) F = sum_n a F + sum_n b (fun t => F (a + t)%nat).
Proof.
  induction b as [|b IH].
  - rewrite Nat.add_0_r. unfold sum_n at 3; simpl. ring.
  - rewrite Nat.add_succ_r, !sum_n_S, IH. ring.
Qed.

Lemma sum_n_blocks (g k : nat) (F : nat -> Qc) :
  sum_n g (fun b => sum_n k (fun t => F (b * k + t)%nat)) = sum_n (g * k) F.
Proof.
  induction g as [|g IH]; [reflexivity|].
  rewrite sum_n_S, IH. replace (S g * k)%nat with (g * k + k)%nat by lia.
  rewrite sum_n_add. reflexivity.
Qed.

Lemma sum_n_guard (N M : nat) (G : nat -> Qc) :
  (N <= M)%nat ->
  sum_n M (fun id => if Nat.ltb id N then G id else 0) = sum_n N G.
Proof.
  intros H. replace M with (N + (M - N))%nat by lia. rewrite sum_n_add.
  rewrite (sum_n_ext N _ G).
  - rewrite (sum_n_ext (M - N) _ (fun _ => 0)); [rewrite sum_n_zero; ring|].
    intros t _. destruct (Nat.ltb_spec (N + t) N); [lia|reflexivity].
  - intros i Hi. destruct (Nat.ltb_spec i N); [reflexivity|lia].
Qed.

Lemma grid_covers (N : nat) : (N <= (N + 256 - 1) / 256 * 256)%nat.
Proof.
  pose proof (Nat.div_mod_eq (N + 256 - 1) 256) as E.
  pose proof (Nat.mod_upper_bound (N + 256 - 1) 256 ltac:(lia)) as B.
  lia.
Qed.

Lemma added_at_flat_map (d n : nat) (f : nat -> list (nat * Qc)) :
  added_at d (flat_map f (seq 0 n)) = sum_n n (fun i => added_at d (f i)).
Proof.
  induction n as [|n IH]; [reflexivity|].
  rewrite seq_S, flat_map_app, added_at_app, IH, sum_n_S. simpl.
  rewrite app_nil_r. reflexivity.
Qed.

Lemma sum_n_pick (n K : nat) (v : nat -> Qc) (X : Qc) :
  (K < n)%nat ->
  sum_n n (fun d => v d * (if Nat.eqb d K then X else 0)) = v K * X.
Proof.
  intros HK.
  rewrite (sum_n_ext n _ (fun d => if Nat.eqb K d then v d * X else 0)).
  - apply (sum_n_delta n K (fun d => v d * X)), HK.
  - intros d _. rewrite (Nat.eqb_sym K d). destruct (Nat.eqb d K); ring.
Qed.

Section CellFacts.

Variables nq nd : nat.
Variable weights : nat -> Qc.
Variables GD GV CD CV : nat -> nat -> Qc.
Variable zero_A : bool.

Local Notation "'sd'" := (space_dim nd).
Local Notation "'thread'" := (kernel_thread nq nd weights GD GV CD CV zero_A).
Local Notation "'events'" := (thread_events nq nd weights GD GV CD CV zero_A).
Local Notation "'tensor'" := (local_tensor nq nd weights GD GV CD CV zero_A).
Local Notation "'contrib'" := (contribution nq nd weights GD GV CD CV).

Lemma added_at_thread (stack : Locals) (b bd t N : nat) (m : Memory) (d : nat) :
  added_at d (events stack b bd t N m) =
  if Nat.ltb (b * bd + t) N then cell_add nq nd weights GD GV CD CV zero_A stack (b * bd + t)%nat m d else 0.
Proof.
  unfold thread_events. cbv zeta. destruct (Nat.ltb (b * bd + t) N); [|reflexivity].
  unfold added_at, cell_add. rewrite map_map. cbn [fst snd].
  symmetry. apply sum_n_sum_list.
Qed.

(** A launch whose grid covers the [N] cells adds, at every entry, what
    the cells [0 .. N-1] add there. *)
Lemma launch_cells (grid block : nat) (stacks : nat -> Locals) (N : nat)
    (m : Memory) (d : nat) :
  (N <= grid * block)%nat ->
  Aglobal (hipLaunchKernelGGL thread grid block stacks N m) d =
  Aglobal m d + sum_n N (fun id => cell_add nq nd weights GD GV CD CV zero_A (stacks id) id m d).
Proof.
  intros Hcover.
  destruct (launch_spec nq nd weights GD GV CD CV zero_A grid block stacks N m) as [_ H].
  rewrite H. f_equal. unfold launch_threads. rewrite concat_flat_map_map.
  rewrite added_at_flat_map.
  transitivity (sum_n (grid * block)
    (fun id => if Nat.ltb id N then cell_add nq nd weights GD GV CD CV zero_A (stacks id) id m d else 0));
    [|apply sum_n_guard, Hcover].
  rewrite <- sum_n_blocks. apply sum_n_ext. intros b _.
  rewrite added_at_flat_map. apply sum_n_ext. intros t _.
  apply added_at_thread.
Qed.

(** ** Linearity *)

Lemma cell_add_contribution (stack : Locals) (id : nat) (m : Memory) (d : nat) :
  cell_add nq nd weights GD GV CD CV zero_A stack id m d =
  sum_n sd (fun i =>
    if Nat.eqb d (dofmap m (id * sd + i)%nat)
    then A_start nd zero_A stack i
         + contrib (gather_w nd m id) (gather_geo m id) (c m 0%nat) i
    else 0).
Proof.
  unfold cell_add. apply sum_n_ext. intros i _.
  rewrite local_tensor_at. reflexivity.
Qed.

Lemma cell_add_linear (stack : Locals) (id : nat) (m : Memory) (a b : Qc)
    (u v : array) (d : nat) :
  (forall i, (i < sd)%nat -> A_start nd zero_A stack i = 0) ->
  cell_add nq nd weights GD GV CD CV zero_A stack id (with_input m (fun k => a * u k + b * v k)) d =
  a * cell_add nq nd weights GD GV CD CV zero_A stack id (with_input m u) d + b * cell_add nq nd weights GD GV CD CV zero_A stack id (with_input m v) d.
Proof.
  intros HA. rewrite !cell_add_contribution.
  rewrite <- !sum_n_scal, <- sum_n_plus. apply sum_n_ext. intros i Hi.
  rewrite (HA i Hi). cbn [dofmap with_input c].
  change (gather_w nd (with_input m (fun k => a * u k + b * v k)) id)
    with (fun i => a * gather_w nd (with_input m u) id i
                   + b * gather_w nd (with_input m v) id i).
  change (gather_geo (with_input m (fun k => a * u k + b * v k)) id)
    with (gather_geo m id).
  change (gather_geo (with_input m u) id) with (gather_geo m id).
  change (gather_geo (with_input m v) id) with (gather_geo m id).
  rewrite contribution_linear.
  destruct (Nat.eqb d (dofmap m (id * sd + i)%nat)); ring.
Qed.

(** ** Self-adjointness *)

Lemma pairing_symmetric (geo : nat -> nat -> Qc) (c0 : Qc) (u v : array) :
  pairing nq nd weights GD GV CD CV geo c0 u v = pairing nq nd weights GD GV CD CV geo c0 v u.
Proof.
  unfold pairing. apply sum3_ext. intros iq0 iq1 iq2 _ _ _. cbv zeta.
  unfold flux. cbv zeta. apply intermediates_symmetric.
Qed.

Lemma sum_n_sum3 (n k : nat) (f : nat -> nat -> nat -> nat -> Qc) :
  sum_n n (fun j => sum3 k (f j)) =
  sum3 k (fun i0 i1 i2 => sum_n n (fun j => f j i0 i1 i2)).
Proof.
  unfold sum3. rewrite sum_n_swap. apply sum_n_ext; intros i0 _.
  rewrite sum_n_swap. apply sum_n_ext; intros i1 _.
  apply sum_n_swap.
Qed.

Lemma point_contribution_pairing (f : Qc * Qc * Qc) (iq0 iq1 iq2 : nat) (v : array) :
  sum_n sd (fun j => v j * point_contribution nd CD CV f iq0 iq1 iq2 j) =
  fw0 f * ref_gradient nd CD CV v 0 iq0 iq1 iq2
  + fw1 f * ref_gradient nd CD CV v 1 iq0 iq1 iq2
  + fw2 f * ref_gradient nd CD CV v 2 iq0 iq1 iq2.
Proof.
  unfold point_contribution, ref_gradient.
  rewrite (sum_n_ext sd _ (fun j => sum3 nd (fun i0 i1 i2 =>
    v j * (if Nat.eqb j (idx3 nd i0 i1 i2)
           then fw0 f * dphi CD CV 0 iq0 iq1 iq2 i0 i1 i2
                + fw1 f * dphi CD CV 1 iq0 iq1 iq2 i0 i1 i2
                + fw2 f * dphi CD CV 2 iq0 iq1 iq2 i0 i1 i2
           else 0))))
    by (intros j _; symmetry; apply sum3_scal).
  rewrite sum_n_sum3.
  rewrite <- !sum3_scal, <- !sum3_plus.
  apply sum3_ext. intros i0 i1 i2 H0 H1 H2.
  rewrite sum_n_pick by (apply idx3_lt; assumption). ring.
Qed.

Lemma contribution_pairing (geo : nat -> nat -> Qc) (c0 : Qc) (u v : array) :
  sum_n sd (fun j => v j * contrib u geo c0 j) = pairing nq nd weights GD GV CD CV geo c0 u v.
Proof.
  unfold contribution, pairing.
  rewrite (sum_n_ext sd _ (fun j => sum3 nq (fun iq0 iq1 iq2 =>
    v j * point_contribution nd CD CV
            (flux nq weights GD GV geo c0 iq0 iq1 iq2
               (ref_gradient nd CD CV u 0 iq0 iq1 iq2)
               (ref_gradient nd CD CV u 1 iq0 iq1 iq2)
               (ref_gradient nd CD CV u 2 iq0 iq1 iq2)) iq0 iq1 iq2 j)))
    by (intros j _; symmetry; apply sum3_scal).
  rewrite sum_n_sum3. apply sum3_ext. intros iq0 iq1 iq2 _ _ _.
  apply point_contribution_pairing.
Qed.

(** Testing what a cell adds against [v] over the dofs [0 .. n-1]. *)
Lemma cell_add_tested (stack : Locals) (id : nat) (m : Memory) (n : nat) (v : array) :
  (forall i, (i < sd)%nat -> (dofmap m (id * sd + i)%nat < n)%nat) ->
  (forall i, (i < sd)%nat -> A_start nd zero_A stack i = 0) ->
  sum_n n (fun d => v d * cell_add nq nd weights GD GV CD CV zero_A stack id m d) =
  pairing nq nd weights GD GV CD CV (gather_geo m id) (c m 0%nat) (gather_w nd m id)
          (fun i => v (dofmap m (id * sd + i)%nat)).
Proof.
  intros Hdm HA. rewrite <- contribution_pairing.
  rewrite (sum_n_ext n _ (fun d => sum_n sd (fun i =>
     v d * (if Nat.eqb d (dofmap m (id * sd + i)%nat)
            then contrib (gather_w nd m id) (gather_geo m id) (c m 0%nat) i else 0)))).
  - rewrite sum_n_swap. apply sum_n_ext. intros i Hi.
    apply sum_n_pick, Hdm, Hi.
  - intros d _. rewrite cell_add_contribution, <- sum_n_scal.
    apply sum_n_ext. intros i Hi. rewrite (HA i Hi).
    destruct (Nat.eqb d (dofmap m (id * sd + i)%nat)); ring.
Qed.

End CellFacts.

(** * The operator *)

Lemma apply_launched (op : MatFreeLaplace.t) (f : kernel) (stacks : nat -> Locals)
    (in_ out : array) :
  MatFreeLaplace.tabulate_tensor op = address_of f ->
  MatFreeLaplace.apply op stacks in_ out =
  hipLaunchKernelGGL f (MatFreeLaplace.grid_size op) MatFreeLaplace.block_size stacks
                     (MatFreeLaplace.num_cells op) (MatFreeLaplace.memory op in_ out).
Proof.
  intros E. unfold MatFreeLaplace.apply, MatFreeLaplace.operator_call. rewrite E.
  reflexivity.
Qed.

Lemma apply_Q1_cells (u : kernel_pointer) (N : nat) (cs xs : array) (xdm dm : index_array)
    (stacks : nat -> Locals) (in_ out : array) (d : nat) :
  let op := MatFreeLaplace.new u 1 N cs xs xdm dm in
  Aglobal (MatFreeLaplace.apply op stacks in_ out) d =
  out d + sum_n N (fun id =>
            cell_add_Q1 (stacks id) id (MatFreeLaplace.memory op in_ out) d).
Proof.
  intros op. rewrite (apply_launched op tabulate_tensor_Q1) by reflexivity.
  unfold tabulate_tensor_Q1. rewrite launch_cells; [reflexivity|].
  apply grid_covers.
Qed.

Lemma apply_Q2_cells (u : kernel_pointer) (N : nat) (cs xs : array) (xdm dm : index_array)
    (stacks : nat -> Locals) (in_ out : array) (d : nat) :
  let op := MatFreeLaplace.new u 2 N cs xs xdm dm in
  Aglobal (MatFreeLaplace.apply op stacks in_ out) d =
  out d + sum_n N (fun id =>
            cell_add_Q2 (stacks id) id (MatFreeLaplace.memory op in_ out) d).
Proof.
  intros op. rewrite (apply_launched op tabulate_tensor_Q2) by reflexivity.
  unfold tabulate_tensor_Q2. rewrite launch_cells; [reflexivity|].
  apply grid_covers.
Qed.

Lemma apply_same_inputs (u : kernel_pointer) (degree : Z) (N : nat) (cs xs : array)
    (xdm dm : index_array) (stacks : nat -> Locals) (in_ out : array) :
  degree = 1%Z \/ degree = 2%Z ->
  let op := MatFreeLaplace.new u degree N cs xs xdm dm in
  same_inputs (MatFreeLaplace.memory op in_ out) (MatFreeLaplace.apply op stacks in_ out).
Proof.
  intros [-> | ->] op.
  - rewrite (apply_launched op tabulate_tensor_Q1) by reflexivity. apply launch_spec.
  - rewrite (apply_launched op tabulate_tensor_Q2) by reflexivity. apply launch_spec.
Qed.

Lemma sum_n_all_zero (n : nat) (f : nat -> Qc) :
  (forall i, (i < n)%nat -> f i = 0) -> sum_n n f = 0.
Proof. intros H. rewrite (sum_n_ext n f (fun _ => 0)) by exact H. apply sum_n_zero. Qed.

(** C8.  One call to [apply], degree 1 or 2, changes only the output vector:
    the input vector, the constants, the coordinates and both dofmaps are as
    before when it returns, and an output entry whose index no cell's field
    dofmap lists keeps its value. *)
Theorem apply_mutates_only_touched_output (u : kernel_pointer) (degree : Z) (N : nat)
    (cs xs : array) (xdm dm : index_array) (stacks : nat -> Locals) (in_ out : array) :
  degree = 1%Z \/ degree = 2%Z ->
  let op := MatFreeLaplace.new u degree N cs xs xdm dm in
  let m' := MatFreeLaplace.apply op stacks in_ out in
  wglobal m' = in_ /\ c m' = cs /\ coordinate_dofs_global m' = xs /\
  geom_dofmap m' = xdm /\ dofmap m' = dm /\
  forall d,
    (forall cell i, (cell < N)%nat -> (i < dofs_per_cell degree)%nat ->
                    dm (cell * dofs_per_cell degree + i)%nat <> d) ->
    Aglobal m' d = out d.
Proof.
  intros Hdeg op m'.
  destruct (apply_same_inputs u degree N cs xs xdm dm stacks in_ out Hdeg)
    as (H1 & H2 & H3 & H4 & H5).
  repeat (split; [assumption|]).
  intros d Hd. subst m' op. destruct Hdeg as [-> | ->].
  - rewrite apply_Q1_cells. rewrite sum_n_all_zero; [ring|].
    intros id Hid. apply sum_n_all_zero. intros i Hi.
    cbn [dofmap MatFreeLaplace.memory MatFreeLaplace.dofmap MatFreeLaplace.new].
    destruct (Nat.eqb_spec d (dm (id * space_dim 2 + i)%nat)) as [E|]; [|reflexivity].
    exfalso. apply (Hd id i Hid Hi). symmetry. exact E.
  - rewrite apply_Q2_cells. rewrite sum_n_all_zero; [ring|].
    intros id Hid. apply sum_n_all_zero. intros i Hi.
    cbn [dofmap MatFreeLaplace.memory MatFreeLaplace.dofmap MatFreeLaplace.new].
    destruct (Nat.eqb_spec d (dm (id * space_dim 3 + i)%nat)) as [E|]; [|reflexivity].
    exfalso. apply (Hd id i Hid Hi). symmetry. exact E.
Qed.

(** * Parallel execution *)

Section Parallel.

Variables nq nd : nat.
Variable weights : nat -> Qc.
Variables GD GV CD CV : nat -> nat -> Qc.
Variable zero_A : bool.

Lemma interleaved_launch (grid block : nat) (stacks : nat -> Locals) (N : nat)
    (m : Memory) (evs : list (nat * Qc)) :
  interleaving
    (launch_threads (thread_events nq nd weights GD GV CD CV zero_A)
                    grid block stacks N m) evs ->
  forall d,
    Aglobal (play evs m) d =
    Aglobal (hipLaunchKernelGGL (kernel_thread nq nd weights GD GV CD CV zero_A)
                                grid block stacks N m) d.
Proof.
  intros Hil d.
  destruct (play_spec evs m) as [_ Hp]. rewrite Hp.
  destruct (launch_spec nq nd weights GD GV CD CV zero_A grid block stacks N m) as [_ Hl].
  rewrite Hl. f_equal. symmetry.
  apply added_at_Permutation, interleaving_Permutation, Hil.
Qed.

End Parallel.

(** The threads in the reverse of the launch order: another interleaving. *)
Lemma interleaving_rev {E : Type} (ts : list (list E)) :
  interleaving ts (concat (rev ts)).
Proof.
  assert (G : forall ts done : list (list E),
             Forall (fun t => t = []) done -> interleaving (ts ++ done) (concat (rev ts))).
  { intros ts0. induction ts0 as [|t ts0 IH] using rev_ind; intros done Hd.
    - simpl. constructor. exact Hd.
    - rewrite rev_app_distr. simpl.
      induction t as [|e t IHt].
      + simpl. rewrite <- app_assoc. apply IH. constructor; [reflexivity|exact Hd].
      + simpl. rewrite <- app_assoc. simpl. constructor.
        rewrite <- app_assoc in IHt. exact IHt. }
  rewrite <- (app_nil_r ts) at 1. apply G. constructor.
Qed.

(** The sequential reference entry by entry: the previous value plus, cell
    after cell, the local tensor values the dofmap sends there. *)
Lemma fold_add_at (n : nat) (tgt : nat -> nat) (A : array) (out : array) (d : nat) :
  fold_left (fun out i => fun d => if Nat.eqb d (tgt i) then out d + A i else out d)
            (seq 0 n) out d =
  out d + sum_n n (fun i => if Nat.eqb d (tgt i) then A i else 0).
Proof.
  induction n as [|n IH].
  - cbn [seq fold_left]. unfold sum_n. cbn [for_loop]. ring.
  - rewrite seq_S, fold_left_app. change (0 + n)%nat with n. cbn [fold_left].
    rewrite IH, sum_n_S. destruct (Nat.eqb d (tgt n)); ring.
Qed.

Lemma sequential_accumulation_at (sd N : nat) (dm : index_array) (A : nat -> array)
    (out : array) (d : nat) :
  sequential_accumulation sd N dm A out d =
  out d + sum_n N (fun cell => sum_n sd (fun i =>
            if Nat.eqb d (dm (cell * sd + i)%nat) then A cell i else 0)).
Proof.
  unfold sequential_accumulation. induction N as [|N IH].
  - cbn [seq fold_left]. unfold sum_n. cbn [for_loop]. ring.
  - rewrite seq_S, fold_left_app. change (0 + N)%nat with N. cbn [fold_left].
    unfold accumulate_cell at 1. rewrite fold_add_at, IH, sum_n_S. ring.
Qed.

(** C7.  Whatever the order in which the [atomicAdd]s of the threads of one
    launch interleave (each thread's own in program order), playing them
    leaves in every output entry what the strictly sequential cell-by-cell
    accumulation of the same local tensors leaves there, under exact
    arithmetic and for both degrees; it is also what the reference schedule
    of [apply] leaves. *)
Theorem atomic_scatter_order_independent (u : kernel_pointer) (N : nat) (cs xs : array)
    (xdm dm : index_array) (stacks : nat -> Locals) (in_ out : array)
    (evs : list (nat * Qc)) :
  let op1 := MatFreeLaplace.new u 1 N cs xs xdm dm in
  let op2 := MatFreeLaplace.new u 2 N cs xs xdm dm in
  (interleaving (launch_threads thread_events_Q1 (MatFreeLaplace.grid_size op1)
                   MatFreeLaplace.block_size stacks N (MatFreeLaplace.memory op1 in_ out))
                evs ->
   forall d,
     Aglobal (play evs (MatFreeLaplace.memory op1 in_ out)) d =
     sequential_accumulation 8 N dm
       (fun cell => local_tensor 3 2 Q1.weights_461 Q1.FE_TF0 Q1.FE_TF1 Q1.FE_TF0 Q1.FE_TF1
                      false (stacks cell) cell (MatFreeLaplace.memory op1 in_ out))
       out d /\
     Aglobal (play evs (MatFreeLaplace.memory op1 in_ out)) d =
     Aglobal (MatFreeLaplace.apply op1 stacks in_ out) d) /\
  (interleaving (launch_threads thread_events_Q2 (MatFreeLaplace.grid_size op2)
                   MatFreeLaplace.block_size stacks N (MatFreeLaplace.memory op2 in_ out))
                evs ->
   forall d,
     Aglobal (play evs (MatFreeLaplace.memory op2 in_ out)) d =
     sequential_accumulation 27 N dm
       (fun cell => local_tensor 4 3 Q2.weights_be1 Q2.FE_TF3 Q2.FE_TF2 Q2.FE_TF0 Q2.FE_TF1
                      true (stacks cell) cell (MatFreeLaplace.memory op2 in_ out))
       out d /\
     Aglobal (play evs (MatFreeLaplace.memory op2 in_ out)) d =
     Aglobal (MatFreeLaplace.apply op2 stacks in_ out) d).
Proof.
  intros op1 op2. split; intros Hil d.
  - assert (E : Aglobal (play evs (MatFreeLaplace.memory op1 in_ out)) d =
                Aglobal (MatFreeLaplace.apply op1 stacks in_ out) d).
    { rewrite (apply_launched op1 tabulate_tensor_Q1) by reflexivity.
      apply (interleaved_launch 3 2 Q1.weights_461 Q1.FE_TF0 Q1.FE_TF1 Q1.FE_TF0 Q1.FE_TF1
               false).
      exact Hil. }
    split; [|exact E]. rewrite E, sequential_accumulation_at.
    exact (apply_Q1_cells u N cs xs xdm dm stacks in_ out d).
  - assert (E : Aglobal (play evs (MatFreeLaplace.memory op2 in_ out)) d =
                Aglobal (MatFreeLaplace.apply op2 stacks in_ out) d).
    { rewrite (apply_launched op2 tabulate_tensor_Q2) by reflexivity.
      apply (interleaved_launch 4 3 Q2.weights_be1 Q2.FE_TF3 Q2.FE_TF2 Q2.FE_TF0 Q2.FE_TF1
               true).
      exact Hil. }
    split; [|exact E]. rewrite E, sequential_accumulation_at.
    exact (apply_Q2_cells u N cs xs xdm dm stacks in_ out d).
Qed.

(** * Linearity and self-adjointness of the assembled action *)

Section Assembled.

Variables nq nd : nat.
Variable weights : nat -> Qc.
Variables GD GV CD CV : nat -> nat -> Qc.
Variable zero_A : bool.

Local Notation "'sd'" := (space_dim nd).
Local Notation "'cadd'" := (cell_add nq nd weights GD GV CD CV zero_A).

Lemma assembled_linear (s s1 s2 : nat -> Locals) (N : nat) (m : Memory)
    (a b : Qc) (u v : array) (d : nat) :
  clean_start nd zero_A s N -> clean_start nd zero_A s1 N -> clean_start nd zero_A s2 N ->
  assembled nq nd weights GD GV CD CV zero_A s N (with_input m (fun k => a * u k + b * v k)) d =
  a * assembled nq nd weights GD GV CD CV zero_A s1 N (with_input m u) d + b * assembled nq nd weights GD GV CD CV zero_A s2 N (with_input m v) d.
Proof.
  intros H H1 H2. unfold assembled.
  rewrite <- !sum_n_scal, <- sum_n_plus. apply sum_n_ext. intros id Hid.
  rewrite cell_add_linear by (intros i Hi; apply H; assumption).
  rewrite !cell_add_contribution. f_equal; f_equal; apply sum_n_ext; intros i Hi.
  - rewrite (H id i Hid Hi), (H1 id i Hid Hi). reflexivity.
  - rewrite (H id i Hid Hi), (H2 id i Hid Hi). reflexivity.
Qed.

Lemma assembled_tested (s : nat -> Locals) (N : nat) (m : Memory) (n : nat)
    (v : array) :
  clean_start nd zero_A s N ->
  (forall id i, (id < N)%nat -> (i < sd)%nat -> (dofmap m (id * sd + i)%nat < n)%nat) ->
  sum_n n (fun d => v d * assembled nq nd weights GD GV CD CV zero_A s N m d) =
  sum_n N (fun id =>
    pairing nq nd weights GD GV CD CV (gather_geo m id) (c m 0%nat) (gather_w nd m id)
            (fun i => v (dofmap m (id * sd + i)%nat))).
Proof.
  intros Hs Hdm. unfold assembled.
  rewrite (sum_n_ext n _ (fun d => sum_n N (fun id => v d * cadd (s id) id m d)))
    by (intros d _; symmetry; apply sum_n_scal).
  rewrite sum_n_swap. apply sum_n_ext. intros id Hid.
  apply cell_add_tested.
  - intros i Hi. apply Hdm; assumption.
  - intros i Hi. apply Hs; assumption.
Qed.

Lemma assembled_symmetric (s s' : nat -> Locals) (N : nat) (m : Memory) (n : nat)
    (u v : array) :
  clean_start nd zero_A s N -> clean_start nd zero_A s' N ->
  (forall id i, (id < N)%nat -> (i < sd)%nat -> (dofmap m (id * sd + i)%nat < n)%nat) ->
  sum_n n (fun d => v d * assembled nq nd weights GD GV CD CV zero_A s N (with_input m u) d) =
  sum_n n (fun d => u d * assembled nq nd weights GD GV CD CV zero_A s' N (with_input m v) d).
Proof.
  intros Hs Hs' Hdm.
  rewrite !assembled_tested by assumption.
  apply sum_n_ext. intros id _.
  rewrite pairing_symmetric. reflexivity.
Qed.

End Assembled.

Lemma clean_start_Q2 (stacks : nat -> Locals) (N : nat) : clean_start 3 true stacks N.
Proof. intros id i _ Hi. apply A_start_zeroed; [reflexivity|exact Hi]. Qed.

Lemma clean_start_Q1 (stacks : nat -> Locals) (N : nat) :
  (forall id i, (id < N)%nat -> (i < 8)%nat -> A_uninit (stacks id) i = 0) ->
  clean_start 2 false stacks N.
Proof. intros H id i Hid Hi. rewrite A_start_garbage by reflexivity. apply H; assumption. Qed.

Lemma apply_Q1_assembled (k : kernel_pointer) (N : nat) (cs xs : array) (xdm dm : index_array)
    (stacks : nat -> Locals) (in_ out : array) (d : nat) :
  Aglobal (MatFreeLaplace.apply (MatFreeLaplace.new k 1 N cs xs xdm dm) stacks in_ out) d =
  out d + assembled 3 2 Q1.weights_461 Q1.FE_TF0 Q1.FE_TF1 Q1.FE_TF0 Q1.FE_TF1 false
            stacks N (with_input (mkMemory out zeros cs xs xdm dm) in_) d.
Proof. apply apply_Q1_cells. Qed.

Lemma apply_Q2_assembled (k : kernel_pointer) (N : nat) (cs xs : array) (xdm dm : index_array)
    (stacks : nat -> Locals) (in_ out : array) (d : nat) :
  Aglobal (MatFreeLaplace.apply (MatFreeLaplace.new k 2 N cs xs xdm dm) stacks in_ out) d =
  out d + assembled 4 3 Q2.weights_be1 Q2.FE_TF3 Q2.FE_TF2 Q2.FE_TF0 Q2.FE_TF1 true
            stacks N (with_input (mkMemory out zeros cs xs xdm dm) in_) d.
Proof. apply apply_Q2_cells. Qed.

(** Degree 2: [apply] is linear in the input field, whatever the mesh and
    whatever the threads find on their stacks. *)
Theorem apply_Q2_linear (k : kernel_pointer) (N : nat) (cs xs : array) (xdm dm : index_array)
    (s s1 s2 : nat -> Locals) (a b : Qc) (u1 u2 : array) (d : nat) :
  let op := MatFreeLaplace.new k 2 N cs xs xdm dm in
  Aglobal (MatFreeLaplace.apply op s (fun j => a * u1 j + b * u2 j) zeros) d =
  a * Aglobal (MatFreeLaplace.apply op s1 u1 zeros) d
  + b * Aglobal (MatFreeLaplace.apply op s2 u2 zeros) d.
Proof.
  intros op. unfold op. rewrite !apply_Q2_assembled.
  rewrite (assembled_linear _ _ _ _ _ _ _ _ s s1 s2) by apply clean_start_Q2.
  unfold zeros. ring.
Qed.

(** Degree 1: the same, provided the local array [A] of every cell's thread
    happens to start at zero. *)
Theorem apply_Q1_linear_from_zeroed_stack (k : kernel_pointer) (N : nat) (cs xs : array)
    (xdm dm : index_array) (s s1 s2 : nat -> Locals) (a b : Qc) (u1 u2 : array) (d : nat) :
  (forall id i, (id < N)%nat -> (i < 8)%nat -> A_uninit (s id) i = 0) ->
  (forall id i, (id < N)%nat -> (i < 8)%nat -> A_uninit (s1 id) i = 0) ->
  (forall id i, (id < N)%nat -> (i < 8)%nat -> A_uninit (s2 id) i = 0) ->
  let op := MatFreeLaplace.new k 1 N cs xs xdm dm in
  Aglobal (MatFreeLaplace.apply op s (fun j => a * u1 j + b * u2 j) zeros) d =
  a * Aglobal (MatFreeLaplace.apply op s1 u1 zeros) d
  + b * Aglobal (MatFreeLaplace.apply op s2 u2 zeros) d.
Proof.
  intros H H1 H2 op. unfold op. rewrite !apply_Q1_assembled.
  rewrite (assembled_linear _ _ _ _ _ _ _ _ s s1 s2) by (apply clean_start_Q1; assumption).
  unfold zeros. ring.
Qed.

Lemma dot_zero_plus (n : nat) (v f : array) :
  dot n v (fun d => zeros d + f d) = sum_n n (fun d => v d * f d).
Proof. unfold dot, zeros. apply sum_n_ext. intros. ring. Qed.

(** Degree 2, under exact arithmetic: the assembled action is self-adjoint on
    every mesh of non-degenerate cells whose field dofmap stays below the
    number [n] of dofs. *)
Theorem apply_Q2_self_adjoint (k : kernel_pointer) (N : nat) (cs xs : array) (xdm dm : index_array)
    (s s' : nat -> Locals) (n : nat) (u v : array) :
  (forall cell i, (cell < N)%nat -> (i < 27)%nat -> (dm (cell * 27 + i)%nat < n)%nat) ->
  let op := MatFreeLaplace.new k 2 N cs xs xdm dm in
  dot n v (Aglobal (MatFreeLaplace.apply op s u zeros)) =
  dot n u (Aglobal (MatFreeLaplace.apply op s' v zeros)).
Proof.
  intros Hdm op. unfold op, dot.
  rewrite (sum_n_ext n _ (fun d => v d *
    assembled 4 3 Q2.weights_be1 Q2.FE_TF3 Q2.FE_TF2 Q2.FE_TF0 Q2.FE_TF1 true
      s N (with_input (mkMemory zeros zeros cs xs xdm dm) u) d))
    by (intros d _; rewrite apply_Q2_assembled; unfold zeros; ring).
  rewrite (sum_n_ext n (fun d => u d * _) (fun d => u d *
    assembled 4 3 Q2.weights_be1 Q2.FE_TF3 Q2.FE_TF2 Q2.FE_TF0 Q2.FE_TF1 true
      s' N (with_input (mkMemory zeros zeros cs xs xdm dm) v) d))
    by (intros d _; rewrite apply_Q2_assembled; unfold zeros; ring).
  apply assembled_symmetric; try apply clean_start_Q2.
  exact Hdm.
Qed.

(** Degree 1: the same, provided the local array [A] of every cell's thread
    happens to start at zero. *)
Theorem apply_Q1_self_adjoint_from_zeroed_stack (k : kernel_pointer) (N : nat) (cs xs : array)
    (xdm dm : index_array) (s s' : nat -> Locals) (n : nat) (u v : array) :
  (forall cell i, (cell < N)%nat -> (i < 8)%nat -> (dm (cell * 8 + i)%nat < n)%nat) ->
  (forall id i, (id < N)%nat -> (i < 8)%nat -> A_uninit (s id) i = 0) ->
  (forall id i, (id < N)%nat -> (i < 8)%nat -> A_uninit (s' id) i = 0) ->
  let op := MatFreeLaplace.new k 1 N cs xs xdm dm in
  dot n v (Aglobal (MatFreeLaplace.apply op s u zeros)) =
  dot n u (Aglobal (MatFreeLaplace.apply op s' v zeros)).
Proof.
  intros Hdm Hs Hs' op. unfold op, dot.
  rewrite (sum_n_ext n _ (fun d => v d *
    assembled 3 2 Q1.weights_461 Q1.FE_TF0 Q1.FE_TF1 Q1.FE_TF0 Q1.FE_TF1 false
      s N (with_input (mkMemory zeros zeros cs xs xdm dm) u) d))
    by (intros d _; rewrite apply_Q1_assembled; unfold zeros; ring).
  rewrite (sum_n_ext n (fun d => u d * _) (fun d => u d *
    assembled 3 2 Q1.weights_461 Q1.FE_TF0 Q1.FE_TF1 Q1.FE_TF0 Q1.FE_TF1 false
      s' N (with_input (mkMemory zeros zeros cs xs xdm dm) v) d))
    by (intros d _; rewrite apply_Q1_assembled; unfold zeros; ring).
  apply assembled_symmetric; try (apply clean_start_Q1; assumption).
  exact Hdm.
Qed.

(** * The flux block and the inverse Jacobian *)

Lemma Qc_neq_by_value (p q : Qc) : Qeq_bool (this p) (this q) = false -> p <> q.
Proof.
  intros H E. subst q. rewrite (Qeq_eq_bool (this p) (this p)) in H by reflexivity.
  discriminate.
Qed.

Lemma Qc_eq_by_value (p q : Qc) : Qeq_bool (this p) (this q) = true -> p = q.
Proof. intros H. apply Qc_is_canon, Qeq_bool_eq, H. Qed.

(** C4 (amended).  Where the determinant is not zero, the nine quotients [K]
    are the entries of the inverse Jacobian, and the three weighted fluxes
    are not the physical gradient components scaled, but the physical
    gradient contracted once more with the inverse Jacobian, times [c[0]],
    the absolute determinant and the weight. *)
Theorem weighted_flux_is_pulled_back (J0 J1 J2 J3 J4 J5 J6 J7 J8 : Qc)
    (g0 g1 g2 c0 weight : Qc) :
  det J0 J1 J2 J3 J4 J5 J6 J7 J8 <> 0 ->
  (forall i a, (i < 3)%nat -> (a < 3)%nat ->
     entry J0 J1 J2 J3 J4 J5 J6 J7 J8 i 0 * K J0 J1 J2 J3 J4 J5 J6 J7 J8 a 0
     + entry J0 J1 J2 J3 J4 J5 J6 J7 J8 i 1 * K J0 J1 J2 J3 J4 J5 J6 J7 J8 a 1
     + entry J0 J1 J2 J3 J4 J5 J6 J7 J8 i 2 * K J0 J1 J2 J3 J4 J5 J6 J7 J8 a 2
     = if Nat.eqb i a then 1 else 0) /\
  intermediates J0 J1 J2 J3 J4 J5 J6 J7 J8 g0 g1 g2 c0 weight =
  (pulled_back_flux J0 J1 J2 J3 J4 J5 J6 J7 J8 g0 g1 g2 c0 weight 0,
   pulled_back_flux J0 J1 J2 J3 J4 J5 J6 J7 J8 g0 g1 g2 c0 weight 1,
   pulled_back_flux J0 J1 J2 J3 J4 J5 J6 J7 J8 g0 g1 g2 c0 weight 2).
Proof.
  intros Hdet. split.
  - intros i a Hi Ha.
    destruct i as [|[|[|i]]]; try lia; destruct a as [|[|[|a]]]; try lia;
      cbn [entry K Nat.eqb]; unfold det in *; field; exact Hdet.
  - rewrite (intermediates_closed_form J0 J1 J2 J3 J4 J5 J6 J7 J8 c0 weight g0 g1 g2).
    cbv zeta. unfold pulled_back_flux.
    apply f_equal2; [apply f_equal2|]; ring.
Qed.

Lemma Qcinv_opp (d : Qc) : / - d = - / d.
Proof.
  destruct (Qc_eq_dec d 0) as [->|NZ].
  - apply Qc_is_canon. reflexivity.
  - field. split; [exact NZ|]. intros E. apply NZ.
    rewrite <- (Qcopp_involutive d), E. apply Qc_is_canon. reflexivity.
Qed.

(** The flux block does not see the orientation of the cell: negating the
    Jacobian leaves the three weighted fluxes unchanged. *)
Theorem intermediates_orientation_blind (J0 J1 J2 J3 J4 J5 J6 J7 J8 : Qc)
    (g0 g1 g2 c0 weight : Qc) :
  intermediates (- J0) (- J1) (- J2) (- J3) (- J4) (- J5) (- J6) (- J7) (- J8)
                g0 g1 g2 c0 weight =
  intermediates J0 J1 J2 J3 J4 J5 J6 J7 J8 g0 g1 g2 c0 weight.
Proof.
  rewrite (intermediates_closed_form J0 J1 J2 J3 J4 J5 J6 J7 J8 c0 weight g0 g1 g2),
          (intermediates_closed_form (- J0) (- J1) (- J2) (- J3) (- J4) (- J5) (- J6) (- J7) (- J8)
             c0 weight g0 g1 g2).
  cbv zeta.
  assert (Ed : det (- J0) (- J1) (- J2) (- J3) (- J4) (- J5) (- J6) (- J7) (- J8)
               = - det J0 J1 J2 J3 J4 J5 J6 J7 J8) by (unfold det; ring).
  assert (EK : forall a j,
            K (- J0) (- J1) (- J2) (- J3) (- J4) (- J5) (- J6) (- J7) (- J8) a j
            = - K J0 J1 J2 J3 J4 J5 J6 J7 J8 a j).
  { intros a j. unfold K. cbv zeta. rewrite Ed.
    destruct a as [|[|a]]; destruct j as [|[|j]];
      unfold Qcdiv; rewrite Qcinv_opp; ring. }
  unfold physical_gradient. rewrite !EK, Ed. unfold fabs. rewrite Qcabs_opp.
  apply f_equal2; [apply f_equal2|]; ring.
Qed.

(** A vanishing reference gradient gives vanishing fluxes, whatever the
    Jacobian. *)
Theorem intermediates_zero_gradient (J0 J1 J2 J3 J4 J5 J6 J7 J8 c0 weight : Qc) :
  intermediates J0 J1 J2 J3 J4 J5 J6 J7 J8 0 0 0 c0 weight = (0, 0, 0).
Proof.
  rewrite (intermediates_closed_form J0 J1 J2 J3 J4 J5 J6 J7 J8 c0 weight 0 0 0).
  cbv zeta. unfold physical_gradient.
  apply f_equal2; [apply f_equal2|]; ring.
Qed.

(** * Constant fields under the degree-1 kernel *)

Lemma Q1_FE_TF0_row (iq : nat) :
  (iq < 3)%nat -> Q1.FE_TF0 iq 0 = - (1) /\ Q1.FE_TF0 iq 1 = 1.
Proof.
  intros H. destruct iq as [|[|[|iq]]]; try lia;
    split; apply Qc_is_canon; reflexivity.
Qed.

Lemma Q1_constant_gradient (w : array) (kappa : Qc) (k iq0 iq1 iq2 : nat) :
  (forall i, (i < 8)%nat -> w i = kappa) ->
  (iq0 < 3)%nat -> (iq1 < 3)%nat -> (iq2 < 3)%nat ->
  ref_gradient 2 Q1.FE_TF0 Q1.FE_TF1 w k iq0 iq1 iq2 = 0.
Proof.
  intros Hw H0 H1 H2.
  destruct (Q1_FE_TF0_row iq0 H0) as [A0 B0].
  destruct (Q1_FE_TF0_row iq1 H1) as [A1 B1].
  destruct (Q1_FE_TF0_row iq2 H2) as [A2 B2].
  unfold ref_gradient, sum3, sum_n, idx3. cbn [for_loop Nat.mul Nat.add].
  rewrite !Hw by lia.
  destruct k as [|[|k]]; unfold dphi; rewrite ?A0, ?B0, ?A1, ?B1, ?A2, ?B2; ring.
Qed.

Lemma point_contribution_zero (nd : nat) (CD CV : nat -> nat -> Qc) (iq0 iq1 iq2 j : nat) :
  point_contribution nd CD CV (0, 0, 0) iq0 iq1 iq2 j = 0.
Proof.
  unfold point_contribution, fw0, fw1, fw2; cbn [fst snd].
  rewrite (sum3_ext nd _ (fun _ _ _ => 0)); [apply sum3_zero|].
  intros i0 i1 i2 _ _ _. destruct (Nat.eqb j (idx3 nd i0 i1 i2)); ring.
Qed.

(** Degree 1: on a cell where the field is constant the quadrature loop adds
    nothing to [A]; the reference gradient of the field is zero as a
    rational. *)
Lemma contribution_Q1_constant (w : array) (kappa : Qc)
    (geo : nat -> nat -> Qc) (c0 : Qc) (j : nat) :
  (forall i, (i < 8)%nat -> w i = kappa) ->
  contribution_Q1 w geo c0 j = 0.
Proof.
  intros Hw. unfold contribution_Q1, contribution.
  rewrite (sum3_ext 3 _ (fun _ _ _ => 0)); [apply sum3_zero|].
  intros iq0 iq1 iq2 H0 H1 H2.
  rewrite !(Q1_constant_gradient w kappa) by assumption.
  unfold flux. cbv zeta. rewrite intermediates_zero_gradient.
  apply point_contribution_zero.
Qed.

(** Degree 1 on a single cell with identity dofmap: each output entry below
    [8] receives the start content of [A] plus the cell's contribution. *)
Lemma unit_cube_Q1_output (k : kernel_pointer) (stacks : nat -> Locals) (in_ : array) (d : nat) :
  (d < 8)%nat ->
  Aglobal (MatFreeLaplace.apply (UnitCube.op k 1) stacks in_ zeros) d =
  A_uninit (stacks 0%nat) d
  + contribution_Q1 in_ (gather_geo (MatFreeLaplace.memory (UnitCube.op k 1) in_ zeros) 0)
                    1 d.
Proof.
  intros Hd. unfold UnitCube.op. rewrite apply_Q1_cells. cbv zeta.
  unfold sum_n at 1. cbn [for_loop]. unfold cell_add_Q1. rewrite cell_add_contribution.
  cbn [dofmap MatFreeLaplace.memory MatFreeLaplace.dofmap MatFreeLaplace.new].
  unfold UnitCube.identity at 1. cbn [Nat.mul Nat.add].
  rewrite (sum_n_delta (space_dim 2) d) by exact Hd.
  rewrite A_start_garbage by reflexivity.
  unfold zeros, contribution_Q1.
  rewrite (contribution_ext 3 2 _ _ _ _ _ _ in_) by (intros i _; reflexivity).
  cbn [c MatFreeLaplace.memory MatFreeLaplace.constants MatFreeLaplace.new]. unfold ones.
  ring.
Qed.

(** * Bounding sums without adding them up *)

Lemma below_le (s : positive) (x : Qc) : below s x <= x.
Proof.
  unfold below, Qcle. cbn [this Q2Qc]. rewrite Qred_correct.
  unfold Qle, floor_at. cbn [Qnum Qden].
  rewrite Z.mul_comm. apply Z.mul_div_le. reflexivity.
Qed.

Lemma Qcle_by_value (p q : Qc) : Qle_bool (this p) (this q) = true -> p <= q.
Proof. intros H. unfold Qcle. apply Qle_bool_iff, H. Qed.

Lemma sum_n_le (n : nat) (f g : nat -> Qc) :
  (forall i, (i < n)%nat -> f i <= g i) -> sum_n n f <= sum_n n g.
Proof.
  induction n as [|n IH]; intros H.
  - apply Qcle_refl.
  - rewrite !sum_n_S. apply Qcplus_le_compat; [apply IH; intros; apply H; lia|apply H; lia].
Qed.

Lemma sum3_le (n : nat) (f g : nat -> nat -> nat -> Qc) :
  (forall i0 i1 i2, (i0 < n)%nat -> (i1 < n)%nat -> (i2 < n)%nat -> f i0 i1 i2 <= g i0 i1 i2) ->
  sum3 n f <= sum3 n g.
Proof.
  intros H. unfold sum3.
  apply sum_n_le; intros i0 H0. apply sum_n_le; intros i1 H1.
  apply sum_n_le; intros i2 H2. apply H; assumption.
Qed.

Lemma sum_n_abs (n : nat) (f M : nat -> Qc) :
  (forall i, (i < n)%nat -> Qcabs (f i) <= M i) -> Qcabs (sum_n n f) <= sum_n n M.
Proof.
  induction n as [|n IH]; intros H.
  - apply Qcle_by_value. reflexivity.
  - rewrite !sum_n_S. eapply Qcle_trans; [apply Qcabs_triangle|].
    apply Qcplus_le_compat; [apply IH; intros; apply H; lia|apply H; lia].
Qed.

Lemma sum3_abs (n : nat) (f : nat -> nat -> nat -> Qc) (M : Qc) :
  (forall i0 i1 i2, (i0 < n)%nat -> (i1 < n)%nat -> (i2 < n)%nat ->
     Qcabs (f i0 i1 i2) <= M) ->
  Qcabs (sum3 n f) <= sum3 n (fun _ _ _ => M).
Proof.
  intros H. unfold sum3.
  apply sum_n_abs; intros i0 H0. apply sum_n_abs; intros i1 H1.
  apply sum_n_abs; intros i2 H2. apply H; assumption.
Qed.

Lemma Qcmult_le_compat (a b A B : Qc) :
  0 <= a -> a <= A -> 0 <= b -> b <= B -> a * b <= A * B.
Proof.
  intros Ha HA Hb HB. apply Qcle_trans with (A * b).
  - apply Qcmult_le_compat_r; assumption.
  - rewrite (Qcmult_comm A b), (Qcmult_comm A B).
    apply Qcmult_le_compat_r; [assumption|]. apply Qcle_trans with a; assumption.
Qed.

Lemma Qcabs_mult_le (x y X Y : Qc) :
  Qcabs x <= X -> Qcabs y <= Y -> Qcabs (x * y) <= X * Y.
Proof.
  intros Hx Hy. rewrite Qcabs_Qcmult.
  apply Qcmult_le_compat; try assumption; apply Qcabs_nonneg.
Qed.

(** * Guarded sums *)

Lemma for_loop_None (n : nat) (body : nat -> option Qc -> option Qc) :
  (forall i, body i None = None) -> for_loop n body None = None.
Proof. intros H. induction n as [|n IH]; simpl; [reflexivity|]. rewrite IH. apply H. Qed.

Lemma guarded_loop (n : nat) (body : nat -> option Qc -> option Qc)
    (P : nat -> Prop) (l : nat -> Qc) :
  (forall i, body i None = None) ->
  (forall i a r, (i < n)%nat -> body i (Some a) = Some r -> P i /\ r = a + l i) ->
  forall a r, for_loop n body (Some a) = Some r ->
  (forall i, (i < n)%nat -> P i) /\ r = a + sum_n n l.
Proof.
  intros HN HS a. induction n as [|n IH]; intros r H.
  - simpl in H. injection H as <-. split; [intros; lia|].
    unfold sum_n; simpl. ring.
  - cbn [for_loop] in H.
    destruct (for_loop n body (Some a)) as [a'|] eqn:E.
    + destruct (IH (fun i a r Hi => HS i a r (Nat.lt_lt_succ_r _ _ Hi)) a' eq_refl) as [IP Ia].
      destruct (HS n a' r (Nat.lt_succ_diag_r n) H) as [Pn Hr]. split.
      * intros i Hi. destruct (Nat.eq_dec i n) as [->|]; [exact Pn|apply IP; lia].
      * rewrite Hr, Ia, sum_n_S. ring.
    + rewrite HN in H. discriminate H.
Qed.

Lemma guarded_sum3_spec (n : nat) (g : nat -> nat -> nat -> option Qc) (r : Qc) :
  guarded_sum3 n g = Some r ->
  (forall i0 i1 i2, (i0 < n)%nat -> (i1 < n)%nat -> (i2 < n)%nat -> g i0 i1 i2 <> None) /\
  r = sum3 n (fun i0 i1 i2 => match g i0 i1 i2 with Some v => v | None => 0 end).
Proof.
  unfold guarded_sum3. intros H.
  assert (N2 : forall i0 i1 i2,
            match @None Qc with
            | Some acc => match g i0 i1 i2 with Some v => Some (acc + v) | None => None end
            | None => None
            end = None) by reflexivity.
  apply (guarded_loop n _
           (fun i0 => forall i1 i2, (i1 < n)%nat -> (i2 < n)%nat -> g i0 i1 i2 <> None)
           (fun i0 => sum_n n (fun i1 => sum_n n (fun i2 =>
              match g i0 i1 i2 with Some v => v | None => 0 end)))) in H.
  - destruct H as [HP Hr]. split.
    + intros i0 i1 i2 H0 H1 H2. apply HP; assumption.
    + rewrite Hr. unfold sum3. ring.
  - intros i0. apply for_loop_None. intros i1. apply for_loop_None. intros i2. reflexivity.
  - intros i0 a r0 H0 E0.
    apply (guarded_loop n _
             (fun i1 => forall i2, (i2 < n)%nat -> g i0 i1 i2 <> None)
             (fun i1 => sum_n n (fun i2 =>
                match g i0 i1 i2 with Some v => v | None => 0 end))) in E0.
    + destruct E0 as [HP Hr]. split; [intros i1 i2 H1 H2; apply HP; assumption|exact Hr].
    + intros i1. apply for_loop_None. intros i2. reflexivity.
    + intros i1 a1 r1 H1 E1.
      apply (guarded_loop n _ (fun i2 => g i0 i1 i2 <> None)
               (fun i2 => match g i0 i1 i2 with Some v => v | None => 0 end)) in E1.
      * exact E1.
      * intros i2. reflexivity.
      * intros i2 a2 r2 H2 E2. destruct (g i0 i1 i2) as [v|]; [|discriminate E2].
        injection E2 as <-. split; [discriminate|reflexivity].
Qed.

Lemma small_spec (F : Qc) (f : Qc * Qc * Qc) :
  small F f = true ->
  Qcabs (fw0 f) <= F /\ Qcabs (fw1 f) <= F /\ Qcabs (fw2 f) <= F.
Proof.
  unfold small. intros H. apply andb_prop in H. destruct H as [H H2].
  apply andb_prop in H. destruct H as [H0 H1].
  repeat split; apply Qcle_by_value; assumption.
Qed.

Lemma table_within_spec (n k : nat) (T : nat -> nat -> Qc) (B : Qc) :
  table_within n k T B = true ->
  forall iq i, (iq < n)%nat -> (i < k)%nat -> Qcabs (T iq i) <= B.
Proof.
  unfold table_within. intros H iq i Hq Hi.
  rewrite forallb_forall in H. specialize (H iq). rewrite in_seq in H.
  specialize (H ltac:(lia)). rewrite forallb_forall in H. specialize (H i).
  rewrite in_seq in H. apply Qcle_by_value, H. lia.
Qed.

(** * Constant fields and row sums *)

Lemma sum3_product (n : nat) (a b c : nat -> Qc) :
  sum3 n (fun i0 i1 i2 => a i0 * b i1 * c i2) = sum_n n a * sum_n n b * sum_n n c.
Proof.
  unfold sum3.
  rewrite (sum_n_ext n _ (fun i0 => a i0 * (sum_n n b * sum_n n c))).
  - rewrite sum_n_scal_r. ring.
  - intros i0 _.
    rewrite (sum_n_ext n _ (fun i1 => b i1 * (a i0 * sum_n n c))).
    + rewrite sum_n_scal_r. ring.
    + intros i1 _. rewrite sum_n_scal. ring.
Qed.

Lemma ref_gradient_constant (nd : nat) (CD CV : nat -> nat -> Qc) (kappa : Qc)
    (k iq0 iq1 iq2 : nat) :
  ref_gradient nd CD CV (fun _ => kappa) k iq0 iq1 iq2 =
  kappa * dphi (row_sums nd CD) (row_sums nd CV) k iq0 iq1 iq2 0 0 0.
Proof.
  unfold ref_gradient. rewrite sum3_scal. apply f_equal.
  destruct k as [|[|k]]; unfold dphi, row_sums; apply sum3_product.
Qed.

(** * One entry of the local tensor *)

Lemma idx3_eqb (nd i0 i1 i2 j0 j1 j2 : nat) :
  (i0 < nd)%nat -> (i1 < nd)%nat -> (i2 < nd)%nat ->
  (j0 < nd)%nat -> (j1 < nd)%nat -> (j2 < nd)%nat ->
  Nat.eqb (idx3 nd i0 i1 i2) (idx3 nd j0 j1 j2) =
  Nat.eqb i0 j0 && Nat.eqb i1 j1 && Nat.eqb i2 j2.
Proof.
  intros. unfold idx3.
  destruct (Nat.eqb_spec i0 j0) as [->|N0]; cbn [andb].
  - destruct (Nat.eqb_spec i1 j1) as [->|N1]; cbn [andb].
    + destruct (Nat.eqb_spec i2 j2) as [->|N2].
      * apply Nat.eqb_refl.
      * apply Nat.eqb_neq. lia.
    + apply Nat.eqb_neq. nia.
  - apply Nat.eqb_neq. nia.
Qed.

Lemma point_contribution_at (nd : nat) (CD CV : nat -> nat -> Qc) (fw : Qc * Qc * Qc)
    (iq0 iq1 iq2 i0 i1 i2 : nat) :
  (i0 < nd)%nat -> (i1 < nd)%nat -> (i2 < nd)%nat ->
  point_contribution nd CD CV fw iq0 iq1 iq2 (idx3 nd i0 i1 i2) =
  fw0 fw * dphi CD CV 0 iq0 iq1 iq2 i0 i1 i2
  + fw1 fw * dphi CD CV 1 iq0 iq1 iq2 i0 i1 i2
  + fw2 fw * dphi CD CV 2 iq0 iq1 iq2 i0 i1 i2.
Proof.
  intros H0 H1 H2. unfold point_contribution, sum3.
  set (X := fun j0 j1 j2 =>
              fw0 fw * dphi CD CV 0 iq0 iq1 iq2 j0 j1 j2
              + fw1 fw * dphi CD CV 1 iq0 iq1 iq2 j0 j1 j2
              + fw2 fw * dphi CD CV 2 iq0 iq1 iq2 j0 j1 j2).
  change (sum_n nd (fun j0 => sum_n nd (fun j1 => sum_n nd (fun j2 =>
            if Nat.eqb (idx3 nd i0 i1 i2) (idx3 nd j0 j1 j2) then X j0 j1 j2 else 0)))
          = X i0 i1 i2).
  rewrite (sum_n_ext nd _ (fun j0 => if Nat.eqb i0 j0
             then sum_n nd (fun j1 => sum_n nd (fun j2 =>
                    if Nat.eqb (idx3 nd i0 i1 i2) (idx3 nd j0 j1 j2) then X j0 j1 j2 else 0))
             else 0)).
  - rewrite (sum_n_delta nd i0) by exact H0.
    rewrite (sum_n_ext nd _ (fun j1 => if Nat.eqb i1 j1
               then sum_n nd (fun j2 =>
                      if Nat.eqb (idx3 nd i0 i1 i2) (idx3 nd i0 j1 j2) then X i0 j1 j2 else 0)
               else 0)).
    + rewrite (sum_n_delta nd i1) by exact H1.
      rewrite (sum_n_ext nd _ (fun j2 => if Nat.eqb i2 j2 then X i0 i1 j2 else 0)).
      * apply (sum_n_delta nd i2 (fun j2 => X i0 i1 j2)), H2.
      * intros j2 Hj2. rewrite idx3_eqb by assumption. rewrite !Nat.eqb_refl. reflexivity.
    + intros j1 Hj1. destruct (Nat.eqb_spec i1 j1) as [->|N1]; [reflexivity|].
      apply sum_n_all_zero. intros j2 Hj2. rewrite idx3_eqb by assumption.
      rewrite (proj2 (Nat.eqb_neq i1 j1) N1), andb_false_r. reflexivity.
  - intros j0 Hj0. destruct (Nat.eqb_spec i0 j0) as [->|N0]; [reflexivity|].
    apply sum_n_all_zero. intros j1 Hj1. apply sum_n_all_zero. intros j2 Hj2.
    rewrite idx3_eqb by assumption.
    rewrite (proj2 (Nat.eqb_neq i0 j0) N0). reflexivity.
Qed.

(** * The degree-2 kernel on a constant field *)

Lemma dphi_bound (nq nd : nat) (CD CV : nat -> nat -> Qc) (BD BV : Qc)
    (k iq0 iq1 iq2 i0 i1 i2 : nat) :
  (forall iq i, (iq < nq)%nat -> (i < nd)%nat -> Qcabs (CD iq i) <= BD) ->
  (forall iq i, (iq < nq)%nat -> (i < nd)%nat -> Qcabs (CV iq i) <= BV) ->
  (iq0 < nq)%nat -> (iq1 < nq)%nat -> (iq2 < nq)%nat ->
  (i0 < nd)%nat -> (i1 < nd)%nat -> (i2 < nd)%nat ->
  Qcabs (dphi CD CV k iq0 iq1 iq2 i0 i1 i2) <= BD * BV * BV.
Proof.
  intros HD HV Q0 Q1 Q2 I0 I1 I2. destruct k as [|[|k]]; unfold dphi.
  - apply Qcabs_mult_le; [apply Qcabs_mult_le|]; auto.
  - replace (BD * BV * BV) with (BV * BD * BV) by ring.
    apply Qcabs_mult_le; [apply Qcabs_mult_le|]; auto.
  - replace (BD * BV * BV) with (BV * BV * BD) by ring.
    apply Qcabs_mult_le; [apply Qcabs_mult_le|]; auto.
Qed.

Lemma below_27 (j : nat) :
  (j < 27)%nat -> j = idx3 3 (j / 9) ((j / 3) mod 3) (j mod 3).
Proof.
  intros H. unfold idx3.
  do 27 (destruct j as [|j]; [reflexivity|]). lia.
Qed.

Lemma point_contribution_bound (nq nd : nat) (CD CV : nat -> nat -> Qc) (BD BV F : Qc)
    (f : Qc * Qc * Qc) (iq0 iq1 iq2 i0 i1 i2 : nat) :
  (forall iq i, (iq < nq)%nat -> (i < nd)%nat -> Qcabs (CD iq i) <= BD) ->
  (forall iq i, (iq < nq)%nat -> (i < nd)%nat -> Qcabs (CV iq i) <= BV) ->
  small F f = true ->
  (iq0 < nq)%nat -> (iq1 < nq)%nat -> (iq2 < nq)%nat ->
  (i0 < nd)%nat -> (i1 < nd)%nat -> (i2 < nd)%nat ->
  Qcabs (point_contribution nd CD CV f iq0 iq1 iq2 (idx3 nd i0 i1 i2))
  <= F * (BD * BV * BV) + F * (BD * BV * BV) + F * (BD * BV * BV).
Proof.
  intros HD HV Hs Q0 Q1 Q2 I0 I1 I2.
  destruct (small_spec F f Hs) as (S0 & S1 & S2).
  rewrite point_contribution_at by assumption.
  eapply Qcle_trans; [apply Qcabs_triangle|]. apply Qcplus_le_compat.
  - eapply Qcle_trans; [apply Qcabs_triangle|]. apply Qcplus_le_compat.
    + apply Qcabs_mult_le; [exact S0|]. apply (dphi_bound nq nd); assumption.
    + apply Qcabs_mult_le; [exact S1|]. apply (dphi_bound nq nd); assumption.
  - apply Qcabs_mult_le; [exact S2|]. apply (dphi_bound nq nd); assumption.
Qed.

(** On a constant field the quadrature loop sees the tables through their
    row sums only. *)
Lemma contribution_Q2_constant (geo : nat -> nat -> Qc) (c0 : Qc) (j : nat) :
  contribution_Q2 (fun _ => 1) geo c0 j =
  sum3 4 (fun iq0 iq1 iq2 =>
    point_contribution 3 Q2.FE_TF0 Q2.FE_TF1 (Q2_constant_flux geo c0 iq0 iq1 iq2)
                       iq0 iq1 iq2 j).
Proof.
  unfold contribution_Q2, contribution. apply sum3_ext. intros iq0 iq1 iq2 _ _ _.
  rewrite !ref_gradient_constant, !Qcmult_1_l. reflexivity.
Qed.

Lemma contribution_Q2_first_entry (geo : nat -> nat -> Qc) (c0 : Qc) :
  contribution_Q2 (fun _ => 1) geo c0 0 =
  sum3 4 (fun iq0 iq1 iq2 =>
    Q2_first_entry_term (Q2_constant_flux geo c0 iq0 iq1 iq2) iq0 iq1 iq2).
Proof.
  rewrite contribution_Q2_constant. apply sum3_ext. intros iq0 iq1 iq2 _ _ _.
  apply (point_contribution_at 3 Q2.FE_TF0 Q2.FE_TF1 _ iq0 iq1 iq2 0 0 0); lia.
Qed.

Lemma Q2_tables_within :
  table_within 4 3 Q2.FE_TF0 FE_TF0_bound = true /\
  table_within 4 3 Q2.FE_TF1 FE_TF1_bound = true.
Proof. split; vm_compute; reflexivity. Qed.

Lemma contribution_Q2_constant_bound (geo : nat -> nat -> Qc) (c0 F : Qc) (j : nat) :
  (forall iq0 iq1 iq2, (iq0 < 4)%nat -> (iq1 < 4)%nat -> (iq2 < 4)%nat ->
     small F (Q2_constant_flux geo c0 iq0 iq1 iq2) = true) ->
  (j < 27)%nat ->
  Qcabs (contribution_Q2 (fun _ => 1) geo c0 j) <= Q2_entry_bound F.
Proof.
  intros Hs Hj. rewrite contribution_Q2_constant. apply sum3_abs.
  intros iq0 iq1 iq2 Q0 Q1 Q2. rewrite (below_27 j Hj) at 1.
  destruct Q2_tables_within as [TD TV].
  apply (point_contribution_bound 4 3); try assumption.
  - apply table_within_spec, TD.
  - apply table_within_spec, TV.
  - apply Hs; assumption.
  - apply Nat.Div0.div_lt_upper_bound. lia.
  - apply Nat.mod_upper_bound. lia.
  - apply Nat.mod_upper_bound. lia.
Qed.

Lemma at_least_spec (t : Qc) (o : option Qc) :
  at_least t o = true -> exists r, o = Some r /\ t <= r.
Proof.
  destruct o as [r|]; [|discriminate]. intros H. exists r.
  split; [reflexivity|apply Qcle_by_value, H].
Qed.

Lemma Q2_constant_step_spec (geo : nat -> nat -> Qc) (c0 F : Qc) (s : positive)
    (iq0 iq1 iq2 : nat) :
  Q2_constant_step geo c0 F s iq0 iq1 iq2 <> None ->
  small F (Q2_constant_flux geo c0 iq0 iq1 iq2) = true /\
  match Q2_constant_step geo c0 F s iq0 iq1 iq2 with Some v => v | None => 0 end
  <= Q2_first_entry_term (Q2_constant_flux geo c0 iq0 iq1 iq2) iq0 iq1 iq2.
Proof.
  unfold Q2_constant_step. cbv zeta.
  destruct (small F (Q2_constant_flux geo c0 iq0 iq1 iq2)).
  - intros _. split; [reflexivity|apply below_le].
  - intros H. contradiction H. reflexivity.
Qed.

(** What a successful pass tells about the cell: the entry 0 of its local
    tensor is at least [t], and every entry is within [Q2_entry_bound F]. *)
Lemma Q2_constant_pass (geo : nat -> nat -> Qc) (c0 F t : Qc) (s : positive) :
  at_least t (guarded_sum3 4 (Q2_constant_step geo c0 F s)) = true ->
  t <= contribution_Q2 (fun _ => 1) geo c0 0 /\
  forall j, (j < 27)%nat -> Qcabs (contribution_Q2 (fun _ => 1) geo c0 j) <= Q2_entry_bound F.
Proof.
  intros H. destruct (at_least_spec _ _ H) as (r & R & Hr).
  destruct (guarded_sum3_spec 4 _ r R) as [HP E]. split.
  - rewrite contribution_Q2_first_entry. eapply Qcle_trans; [exact Hr|].
    rewrite E. apply sum3_le. intros iq0 iq1 iq2 H0 H1 H2.
    apply Q2_constant_step_spec, HP; assumption.
  - intros j Hj. apply contribution_Q2_constant_bound; [|exact Hj].
    intros iq0 iq1 iq2 H0 H1 H2. apply (Q2_constant_step_spec geo c0 F s), HP; assumption.
Qed.

(** The 64 quadrature points of the unit cube, evaluated. *)
Lemma Q2_unit_cube_evaluated :
  at_least first_entry_bound
    (guarded_sum3 4
       (Q2_constant_step
          (gather_geo (MatFreeLaplace.memory (UnitCube.op tabulate_tensor_Q2 2) ones zeros) 0)
          (c (MatFreeLaplace.memory (UnitCube.op tabulate_tensor_Q2 2) ones zeros) 0%nat)
          flux_bound scale)) = true.
Proof. vm_compute. reflexivity. Qed.

Lemma Q2_entry_bound_within : 0 < first_entry_bound /\ Q2_entry_bound flux_bound <= tolerance.
Proof. split; [reflexivity|apply Qcle_by_value; vm_compute; reflexivity]. Qed.

(** * The kernels on concrete cells *)

Lemma unit_cube_Q1_untouched (k : kernel_pointer) (stacks : nat -> Locals) (in_ : array) (d : nat) :
  (8 <= d)%nat ->
  Aglobal (MatFreeLaplace.apply (UnitCube.op k 1) stacks in_ zeros) d = 0.
Proof.
  intros Hd. unfold UnitCube.op. rewrite apply_Q1_cells. cbv zeta.
  unfold sum_n at 1. cbn [for_loop]. unfold cell_add_Q1, cell_add.
  cbn [dofmap MatFreeLaplace.memory MatFreeLaplace.dofmap MatFreeLaplace.new].
  unfold UnitCube.identity. cbn [Nat.mul Nat.add].
  rewrite (sum_n_delta_out (space_dim 2) d) by exact Hd.
  unfold zeros. ring.
Qed.

Lemma unit_cube_Q2_cell (k : kernel_pointer) (stacks : nat -> Locals) (in_ : array) (d : nat) :
  Aglobal (MatFreeLaplace.apply (UnitCube.op k 2) stacks in_ zeros) d =
  sum_n 27 (fun i =>
    if Nat.eqb d i
    then local_tensor_Q2 (stacks 0%nat) 0
           (MatFreeLaplace.memory (UnitCube.op tabulate_tensor_Q2 2) in_ zeros) i
    else 0).
Proof.
  unfold UnitCube.op at 1. rewrite apply_Q2_cells. cbv zeta.
  change (MatFreeLaplace.memory
            (MatFreeLaplace.new k 2 1 ones UnitCube.x UnitCube.identity UnitCube.identity)
            in_ zeros)
    with (MatFreeLaplace.memory (UnitCube.op tabulate_tensor_Q2 2) in_ zeros).
  unfold sum_n at 1. cbn [for_loop]. unfold cell_add_Q2, cell_add.
  change (dofmap (MatFreeLaplace.memory (UnitCube.op tabulate_tensor_Q2 2) in_ zeros))
    with (fun i : nat => i). cbn [Nat.mul Nat.add].
  unfold zeros, local_tensor_Q2. change (space_dim 3) with 27%nat. ring.
Qed.

Lemma unit_cube_Q2_output (k : kernel_pointer) (stacks : nat -> Locals) (in_ : array) (d : nat) :
  (d < 27)%nat ->
  Aglobal (MatFreeLaplace.apply (UnitCube.op k 2) stacks in_ zeros) d =
  local_tensor_Q2 (UnitCube.stacks 0 0%nat) 0
    (MatFreeLaplace.memory (UnitCube.op tabulate_tensor_Q2 2) in_ zeros) d.
Proof.
  intros Hd. rewrite unit_cube_Q2_cell, (sum_n_delta 27 d) by exact Hd.
  unfold local_tensor_Q2. rewrite !local_tensor_at.
  rewrite !A_start_zeroed by (reflexivity || exact Hd). reflexivity.
Qed.

Lemma unit_cube_Q2_untouched (k : kernel_pointer) (stacks : nat -> Locals) (in_ : array) (d : nat) :
  (27 <= d)%nat ->
  Aglobal (MatFreeLaplace.apply (UnitCube.op k 2) stacks in_ zeros) d = 0.
Proof.
  intros Hd. rewrite unit_cube_Q2_cell. apply sum_n_delta_out, Hd.
Qed.

Lemma tolerance_nonneg : 0 <= tolerance.
Proof. apply Qcle_by_value. reflexivity. Qed.

Lemma Qc_pos_not_zero (t x : Qc) : 0 < t -> t <= x -> x <> 0.
Proof. intros P H Z. subst x. exact (Qclt_not_le _ _ P H). Qed.

(** Degree 2 on the unit cube, constant field 1: the local tensor is the
    contribution of the quadrature loop. *)
Lemma unit_cube_Q2_tensor (d : nat) :
  (d < 27)%nat ->
  local_tensor_Q2 (UnitCube.stacks 0 0%nat) 0
    (MatFreeLaplace.memory (UnitCube.op tabulate_tensor_Q2 2) ones zeros) d =
  contribution_Q2 (fun _ => 1)
    (gather_geo (MatFreeLaplace.memory (UnitCube.op tabulate_tensor_Q2 2) ones zeros) 0)
    (c (MatFreeLaplace.memory (UnitCube.op tabulate_tensor_Q2 2) ones zeros) 0%nat) d.
Proof.
  intros Hd. unfold local_tensor_Q2, contribution_Q2.
  rewrite local_tensor_at, A_start_zeroed by (reflexivity || exact Hd).
  rewrite (contribution_ext 4 3 _ _ _ _ _ _ (fun _ => 1)) by (intros i _; reflexivity).
  apply Qcplus_0_l.
Qed.

Lemma unit_cube_Q2_first_entry (k : kernel_pointer) (stacks : nat -> Locals) :
  Aglobal (MatFreeLaplace.apply (UnitCube.op k 2) stacks ones zeros) 0%nat <> 0.
Proof.
  rewrite unit_cube_Q2_output by lia. rewrite unit_cube_Q2_tensor by lia.
  exact (Qc_pos_not_zero _ _ (proj1 Q2_entry_bound_within)
           (proj1 (Q2_constant_pass _ _ _ _ _ Q2_unit_cube_evaluated))).
Qed.

Lemma unit_cube_Q2_small (k : kernel_pointer) (stacks : nat -> Locals) (d : nat) :
  Qcabs (Aglobal (MatFreeLaplace.apply (UnitCube.op k 2) stacks ones zeros) d) <= tolerance.
Proof.
  destruct (Nat.lt_ge_cases d 27) as [Hd|Hd].
  - rewrite unit_cube_Q2_output by exact Hd. rewrite unit_cube_Q2_tensor by exact Hd.
    exact (Qcle_trans _ _ _
             (proj2 (Q2_constant_pass _ _ _ _ _ Q2_unit_cube_evaluated) d Hd)
             (proj2 Q2_entry_bound_within)).
  - rewrite unit_cube_Q2_untouched by exact Hd.
    rewrite Qcabs_pos by (apply Qcle_by_value; reflexivity).
    apply tolerance_nonneg.
Qed.

(** Degree 1 on the unit cube with the constant field 1. *)
Lemma unit_cube_Q1_constant (k : kernel_pointer) (stacks : nat -> Locals) (d : nat) :
  Aglobal (MatFreeLaplace.apply (UnitCube.op k 1) stacks ones zeros) d =
  if Nat.ltb d 8 then A_uninit (stacks 0%nat) d else 0.
Proof.
  destruct (Nat.ltb_spec d 8) as [Hd|Hd].
  - rewrite unit_cube_Q1_output by exact Hd.
    rewrite (contribution_Q1_constant ones 1) by reflexivity. ring.
  - apply unit_cube_Q1_untouched, Hd.
Qed.

Lemma unit_cube_Q1_zero_field (k : kernel_pointer) (stacks : nat -> Locals) (d : nat) :
  Aglobal (MatFreeLaplace.apply (UnitCube.op k 1) stacks zeros zeros) d =
  if Nat.ltb d 8 then A_uninit (stacks 0%nat) d else 0.
Proof.
  destruct (Nat.ltb_spec d 8) as [Hd|Hd].
  - rewrite unit_cube_Q1_output by exact Hd.
    rewrite (contribution_Q1_constant zeros 0) by reflexivity. ring.
  - apply unit_cube_Q1_untouched, Hd.
Qed.

(** C2.  The degree-1 kernel does not start from a zeroed [A].  Unit cube,
    constant field 1, leftover stack content 1: the quadrature loop
    contributes 0 to [A[0]], and yet the output entry 0 receives 1. *)
Theorem Q1_scatters_uninitialised_buffer :
  let op := UnitCube.op tabulate_tensor_Q1 1 in
  let m := MatFreeLaplace.memory op ones zeros in
  contribution_Q1 ones (gather_geo m 0) 1 0%nat = 0 /\
  Aglobal (MatFreeLaplace.apply op (UnitCube.stacks 1) ones zeros) 0%nat = 1.
Proof.
  cbv zeta. split.
  - apply (contribution_Q1_constant ones 1). reflexivity.
  - rewrite unit_cube_Q1_constant. reflexivity.
Qed.

(** C5.  Degree 1, unit cube, leftover stack content 1, zeroed output:
    [apply] of the field [1 * 0 + 1 * 0] differs at entry 0 from
    [1 * apply 0 + 1 * apply 0]; linearity fails for the degree-1 kernel. *)
Theorem Q1_not_linear_on_dirty_stack :
  let op := UnitCube.op tabulate_tensor_Q1 1 in
  let s := UnitCube.stacks 1 in
  Aglobal (MatFreeLaplace.apply op s (fun j => 1 * zeros j + 1 * zeros j) zeros) 0%nat
  <> 1 * Aglobal (MatFreeLaplace.apply op s zeros zeros) 0%nat
     + 1 * Aglobal (MatFreeLaplace.apply op s zeros zeros) 0%nat.
Proof.
  cbv zeta. rewrite unit_cube_Q1_output by lia.
  rewrite (contribution_Q1_constant (fun j => 1 * zeros j + 1 * zeros j) 0)
    by (intros; unfold zeros; ring).
  rewrite unit_cube_Q1_zero_field. cbn [Nat.ltb Nat.leb UnitCube.stacks A_uninit].
  apply Qc_neq_by_value. reflexivity.
Qed.

(** C6.  Degree 1, unit cube, leftover stack content 1: the global sum of
    [1 . apply 0] differs from the global sum of [0 . apply 1]; the
    degree-1 action is not self-adjoint. *)
Theorem Q1_not_self_adjoint_on_dirty_stack :
  let op := UnitCube.op tabulate_tensor_Q1 1 in
  let s := UnitCube.stacks 1 in
  dot 8 ones (Aglobal (MatFreeLaplace.apply op s zeros zeros))
  <> dot 8 zeros (Aglobal (MatFreeLaplace.apply op s ones zeros)).
Proof.
  cbv zeta. unfold dot.
  rewrite (sum_n_ext 8 _ (fun _ => 1)).
  - rewrite (sum_n_ext 8 (fun d => zeros d * _) (fun _ => 0))
      by (intros; unfold zeros; ring).
    apply Qc_neq_by_value. reflexivity.
  - intros d Hd. rewrite unit_cube_Q1_zero_field.
    rewrite (proj2 (Nat.ltb_lt d 8)) by exact Hd.
    cbn [UnitCube.stacks A_uninit]. unfold ones. ring.
Qed.

(** Degree 3 with the pointer's storage holding the address of the degree-1
    kernel: [apply] changes the entry 0 of a zeroed output vector. *)
Lemma stale_Q1_pointer_writes :
  Aglobal (MatFreeLaplace.apply (UnitCube.op tabulate_tensor_Q1 3) (UnitCube.stacks 0)
                                e0 zeros) 0%nat
  <> zeros 0%nat.
Proof.
  change (UnitCube.op tabulate_tensor_Q1 3) with (UnitCube.op tabulate_tensor_Q1 1).
  rewrite unit_cube_Q1_output by lia.
  apply Qc_neq_by_value. vm_compute. reflexivity.
Qed.

(** C3.  The operator built with degree 3 on the unit cube is no silent
    no-op: the constructor assigns nothing to the kernel pointer, and the
    call launches whatever the pointer's storage held.  Where that is the
    address of no kernel the call fails with the error of the launch; where
    it is the address of the degree-1 kernel, left by an earlier operator,
    the call fails with nothing and the entry 0 of a zeroed output vector is
    written. *)
Theorem unsupported_degree_launches_leftover_pointer :
  MatFreeLaplace.tabulate_tensor (UnitCube.op no_kernel 3) = no_kernel /\
  MatFreeLaplace.fails (UnitCube.op no_kernel 3) (UnitCube.stacks 0) e0 zeros = true /\
  MatFreeLaplace.tabulate_tensor (UnitCube.op tabulate_tensor_Q1 3)
  = address_of tabulate_tensor_Q1 /\
  MatFreeLaplace.fails (UnitCube.op tabulate_tensor_Q1 3) (UnitCube.stacks 0) e0 zeros
  = false /\
  Aglobal (MatFreeLaplace.apply (UnitCube.op tabulate_tensor_Q1 3) (UnitCube.stacks 0)
                                e0 zeros) 0%nat
  <> zeros 0%nat.
Proof.
  repeat split; try reflexivity. exact stale_Q1_pointer_writes.
Qed.

(** C4, counterexample.  On the cell stretched to twice its length, at the
    middle quadrature point, the first weighted flux of the degree-1 kernel
    is not the first physical gradient component times [c[0]], the absolute
    determinant and the weight. *)
Lemma flux_is_not_scaled_gradient :
  let geo := fun node k => StretchedCell.x (node * 3 + k)%nat in
  let J := jacobian Q1.FE_TF0 Q1.FE_TF1 geo 1 1 1 in
  let g := fun k => ref_gradient 2 Q1.FE_TF0 Q1.FE_TF1 StretchedCell.w k 1 1 1 in
  fw0 (quadrature_point 3 2 Q1.weights_461 Q1.FE_TF0 Q1.FE_TF1 Q1.FE_TF0 Q1.FE_TF1
         StretchedCell.w StretchedCell.x 1 1 1 1)
  <> claimed_flux (J 0 0)%nat (J 0 1)%nat (J 0 2)%nat (J 1 0)%nat (J 1 1)%nat (J 1 2)%nat
                  (J 2 0)%nat (J 2 1)%nat (J 2 2)%nat
                  (g 0%nat) (g 1%nat) (g 2%nat) 1 (Q1.weights_461 13) 0.
Proof. cbv zeta. apply Qc_neq_by_value. vm_compute. reflexivity. Qed.

(** C4, at the Jacobian diag(2, 1, 1). *)
Lemma weighted_flux_is_pulled_back_witness :
  intermediates (1 + 1) 0 0 0 1 0 0 0 1 1 0 0 1 1 =
  (pulled_back_flux (1 + 1) 0 0 0 1 0 0 0 1 1 0 0 1 1 0,
   pulled_back_flux (1 + 1) 0 0 0 1 0 0 0 1 1 0 0 1 1 1,
   pulled_back_flux (1 + 1) 0 0 0 1 0 0 0 1 1 0 0 1 1 2).
Proof.
  apply (weighted_flux_is_pulled_back (1 + 1) 0 0 0 1 0 0 0 1 1 0 0 1 1).
  apply Qc_neq_by_value. vm_compute. reflexivity.
Defined.

(** C1, counterexample.  Degree 2 on the unit cube, constant field 1,
    material constant 1, zeroed output vector and zeroed stacks: under exact
    arithmetic the output entry 0 is not zero. *)
Lemma unit_cube_Q2_output_not_zero :
  Aglobal (MatFreeLaplace.apply (UnitCube.op tabulate_tensor_Q2 2) (UnitCube.stacks 0)
                                ones zeros) 0%nat <> 0.
Proof. apply unit_cube_Q2_first_entry. Qed.

(** C1 (amended).  Unit cube, constant field 1, material constant 1, zeroed
    output vector.  Degree 1: every output entry is zero provided the local
    array [A] of the cell's thread starts at zero.  Degree 2: every output
    entry lies within [tolerance] of zero, and the entry 0 is not zero. *)
Theorem unit_cube_constant_field (k : kernel_pointer) (stacks : nat -> Locals) :
  ((forall i, (i < 8)%nat -> A_uninit (stacks 0%nat) i = 0) ->
   forall d, Aglobal (MatFreeLaplace.apply (UnitCube.op k 1) stacks ones zeros) d = 0) /\
  (forall d,
     Qcabs (Aglobal (MatFreeLaplace.apply (UnitCube.op k 2) stacks ones zeros) d)
     <= tolerance) /\
  Aglobal (MatFreeLaplace.apply (UnitCube.op k 2) stacks ones zeros) 0%nat <> 0.
Proof.
  split; [|split].
  - intros HA d. rewrite unit_cube_Q1_constant.
    destruct (Nat.ltb_spec d 8) as [Hd|Hd]; [apply HA, Hd|reflexivity].
  - intros d. apply unit_cube_Q2_small.
  - apply unit_cube_Q2_first_entry.
Qed.

(** C1, at zeroed stacks: the degree-1 output entry 3 is zero. *)
Lemma unit_cube_constant_field_witness :
  Aglobal (MatFreeLaplace.apply (UnitCube.op tabulate_tensor_Q1 1)
             (UnitCube.stacks 0) ones zeros) 3%nat = 0.
Proof.
  apply (proj1 (unit_cube_constant_field tabulate_tensor_Q1 (UnitCube.stacks 0))).
  intros i Hi. reflexivity.
Defined.

(** C7, on two cells sharing a face, the threads taken in reverse order. *)
Lemma atomic_scatter_order_independent_witness :
  let op1 := MatFreeLaplace.new tabulate_tensor_Q1 1 2 ones TwoCells.x
               TwoCells.x_dofmap TwoCells.x_dofmap in
  let op2 := MatFreeLaplace.new tabulate_tensor_Q1 2 2 ones TwoCells.x
               TwoCells.x_dofmap TwoCells.dofmap_Q2 in
  let m1 := MatFreeLaplace.memory op1 ones zeros in
  let m2 := MatFreeLaplace.memory op2 ones zeros in
  let s := UnitCube.stacks 1 in
  (forall d,
     Aglobal (play (concat (rev (launch_threads thread_events_Q1 1 256 s 2 m1))) m1) d =
     sequential_accumulation 8 2 TwoCells.x_dofmap
       (fun cell => local_tensor 3 2 Q1.weights_461 Q1.FE_TF0 Q1.FE_TF1 Q1.FE_TF0 Q1.FE_TF1
                      false (s cell) cell m1)
       zeros d /\
     Aglobal (play (concat (rev (launch_threads thread_events_Q1 1 256 s 2 m1))) m1) d =
     Aglobal (MatFreeLaplace.apply op1 s ones zeros) d) /\
  (forall d,
     Aglobal (play (concat (rev (launch_threads thread_events_Q2 1 256 s 2 m2))) m2) d =
     sequential_accumulation 27 2 TwoCells.dofmap_Q2
       (fun cell => local_tensor 4 3 Q2.weights_be1 Q2.FE_TF3 Q2.FE_TF2 Q2.FE_TF0 Q2.FE_TF1
                      true (s cell) cell m2)
       zeros d /\
     Aglobal (play (concat (rev (launch_threads thread_events_Q2 1 256 s 2 m2))) m2) d =
     Aglobal (MatFreeLaplace.apply op2 s ones zeros) d).
Proof.
  cbv zeta. split.
  - apply (proj1 (atomic_scatter_order_independent tabulate_tensor_Q1 2 ones TwoCells.x
                    TwoCells.x_dofmap TwoCells.x_dofmap (UnitCube.stacks 1) ones zeros _)).
    apply (interleaving_rev
             (launch_threads thread_events_Q1 1 256 (UnitCube.stacks 1) 2
                (MatFreeLaplace.memory
                   (MatFreeLaplace.new tabulate_tensor_Q1 1 2 ones TwoCells.x
                      TwoCells.x_dofmap TwoCells.x_dofmap) ones zeros))).
  - apply (proj2 (atomic_scatter_order_independent tabulate_tensor_Q1 2 ones TwoCells.x
                    TwoCells.x_dofmap TwoCells.dofmap_Q2 (UnitCube.stacks 1) ones zeros _)).
    apply (interleaving_rev
             (launch_threads thread_events_Q2 1 256 (UnitCube.stacks 1) 2
                (MatFreeLaplace.memory
                   (MatFreeLaplace.new tabulate_tensor_Q1 2 2 ones TwoCells.x
                      TwoCells.x_dofmap TwoCells.dofmap_Q2) ones zeros))).
Defined.

(** C8, on the unit cube: the entry 8 is listed by no cell. *)
Lemma apply_mutates_only_touched_output_witness :
  Aglobal (MatFreeLaplace.apply (UnitCube.op tabulate_tensor_Q1 1) (UnitCube.stacks 1)
                                ones zeros) 8%nat = zeros 8%nat.
Proof.
  refine (proj2 (proj2 (proj2 (proj2 (proj2
    (apply_mutates_only_touched_output tabulate_tensor_Q1 1 1 ones UnitCube.x
       UnitCube.identity UnitCube.identity (UnitCube.stacks 1) ones zeros
       (or_introl eq_refl)))))) 8%nat _).
  intros cell i Hc Hi. unfold UnitCube.identity. simpl in Hi. lia.
Defined.

(** * Further properties of the operator *)

Lemma cell_add_same_inputs (nq nd : nat) (weights : nat -> Qc)
    (GD GV CD CV : nat -> nat -> Qc) (zero_A : bool) (stack : Locals) (id : nat)
    (m m' : Memory) (d : nat) :
  same_inputs m m' ->
  cell_add nq nd weights GD GV CD CV zero_A stack id m' d =
  cell_add nq nd weights GD GV CD CV zero_A stack id m d.
Proof.
  intros H. unfold cell_add.
  rewrite (local_tensor_same_inputs nq nd weights GD GV CD CV zero_A stack id m m' H).
  destruct H as (_ & _ & _ & _ & ->). reflexivity.
Qed.

(** Under exact arithmetic [apply] accumulates: what it leaves in the output
    vector is what the vector held plus what it would have left in a zeroed
    vector. *)
Theorem apply_accumulates (k : kernel_pointer) (degree : Z) (N : nat) (cs xs : array)
    (xdm dm : index_array) (stacks : nat -> Locals) (in_ out : array) (d : nat) :
  degree = 1%Z \/ degree = 2%Z ->
  let op := MatFreeLaplace.new k degree N cs xs xdm dm in
  Aglobal (MatFreeLaplace.apply op stacks in_ out) d =
  out d + Aglobal (MatFreeLaplace.apply op stacks in_ zeros) d.
Proof.
  intros [-> | ->] op; unfold op.
  - rewrite !apply_Q1_cells. cbv zeta. unfold zeros.
    rewrite (sum_n_ext N _ (fun id =>
      cell_add_Q1 (stacks id) id
        (MatFreeLaplace.memory (MatFreeLaplace.new k 1 N cs xs xdm dm) in_ (fun _ => 0)) d))
      by (intros; apply cell_add_same_inputs; repeat split).
    ring.
  - rewrite !apply_Q2_cells. cbv zeta. unfold zeros.
    rewrite (sum_n_ext N _ (fun id =>
      cell_add_Q2 (stacks id) id
        (MatFreeLaplace.memory (MatFreeLaplace.new k 2 N cs xs xdm dm) in_ (fun _ => 0)) d))
      by (intros; apply cell_add_same_inputs; repeat split).
    ring.
Qed.

(** On the unit cube, degree 2, into a vector of ones. *)
Lemma apply_accumulates_witness :
  Aglobal (MatFreeLaplace.apply (UnitCube.op tabulate_tensor_Q1 2) (UnitCube.stacks 1)
                                e0 ones) 3%nat =
  ones 3%nat
  + Aglobal (MatFreeLaplace.apply (UnitCube.op tabulate_tensor_Q1 2) (UnitCube.stacks 1)
                                  e0 zeros) 3%nat.
Proof.
  apply (apply_accumulates tabulate_tensor_Q1 2 1 ones UnitCube.x UnitCube.identity
           UnitCube.identity (UnitCube.stacks 1) e0 ones 3).
  right. reflexivity.
Defined.

(** Degree 2: nothing a thread finds on its stack reaches the output. *)
Theorem apply_Q2_ignores_stacks (k : kernel_pointer) (N : nat) (cs xs : array)
    (xdm dm : index_array) (s s' : nat -> Locals) (in_ out : array) (d : nat) :
  let op := MatFreeLaplace.new k 2 N cs xs xdm dm in
  Aglobal (MatFreeLaplace.apply op s in_ out) d =
  Aglobal (MatFreeLaplace.apply op s' in_ out) d.
Proof.
  intros op. unfold op. rewrite !apply_Q2_cells. cbv zeta. apply (f_equal (Qcplus (out d))).
  apply sum_n_ext. intros id _. unfold cell_add_Q2.
  rewrite !cell_add_contribution. apply sum_n_ext. intros i Hi.
  rewrite !A_start_zeroed by (reflexivity || exact Hi). reflexivity.
Qed.

(** Degree 1: of the three local arrays only [A] lets its leftover content
    through; [w] and [coordinate_dofs] are assigned before they are read. *)
Theorem apply_Q1_sees_only_leftover_A (k : kernel_pointer) (N : nat) (cs xs : array)
    (xdm dm : index_array) (s s' : nat -> Locals) (in_ out : array) (d : nat) :
  (forall id i, (id < N)%nat -> (i < 8)%nat -> A_uninit (s id) i = A_uninit (s' id) i) ->
  let op := MatFreeLaplace.new k 1 N cs xs xdm dm in
  Aglobal (MatFreeLaplace.apply op s in_ out) d =
  Aglobal (MatFreeLaplace.apply op s' in_ out) d.
Proof.
  intros HA op. unfold op. rewrite !apply_Q1_cells. cbv zeta. apply (f_equal (Qcplus (out d))).
  apply sum_n_ext. intros id Hid. unfold cell_add_Q1.
  rewrite !cell_add_contribution. apply sum_n_ext. intros i Hi.
  rewrite !A_start_garbage by reflexivity. rewrite (HA id i Hid Hi). reflexivity.
Qed.

(** On the unit cube: leftover ones in [w] and [coordinate_dofs] change nothing. *)
Lemma apply_Q1_sees_only_leftover_A_witness :
  Aglobal (MatFreeLaplace.apply (UnitCube.op tabulate_tensor_Q1 1)
             (fun _ => mkLocals ones ones zeros) e0 zeros) 0%nat =
  Aglobal (MatFreeLaplace.apply (UnitCube.op tabulate_tensor_Q1 1)
             (fun _ => mkLocals zeros zeros zeros) e0 zeros) 0%nat.
Proof.
  apply (apply_Q1_sees_only_leftover_A tabulate_tensor_Q1 1 ones UnitCube.x
           UnitCube.identity UnitCube.identity
           (fun _ => mkLocals ones ones zeros) (fun _ => mkLocals zeros zeros zeros)
           e0 zeros 0).
  intros id i Hid Hi. reflexivity.
Defined.

(** Degree 1, under exact arithmetic, on any mesh of non-degenerate cells:
    applied to a constant field, the kernel scatters the leftover content of
    [A] and nothing else; from zeroed stacks the output vector is left as it
    was. *)
Theorem apply_Q1_constant_field (k : kernel_pointer) (N : nat) (cs xs : array)
    (xdm dm : index_array) (s : nat -> Locals) (kappa : Qc) (out : array) (d : nat) :
  (forall id i, (id < N)%nat -> (i < 8)%nat -> A_uninit (s id) i = 0) ->
  let op := MatFreeLaplace.new k 1 N cs xs xdm dm in
  Aglobal (MatFreeLaplace.apply op s (fun _ => kappa) out) d = out d.
Proof.
  intros HA op. unfold op. rewrite apply_Q1_cells. cbv zeta.
  rewrite sum_n_all_zero; [ring|]. intros id Hid. unfold cell_add_Q1.
  rewrite cell_add_contribution. apply sum_n_all_zero. intros i Hi.
  rewrite A_start_garbage by reflexivity. rewrite (HA id i Hid Hi).
  pose proof (contribution_Q1_constant
                (gather_w 2 (MatFreeLaplace.memory (MatFreeLaplace.new k 1 N cs xs xdm dm)
                               (fun _ => kappa) out) id) kappa
                (gather_geo (MatFreeLaplace.memory (MatFreeLaplace.new k 1 N cs xs xdm dm)
                               (fun _ => kappa) out) id)
                (c (MatFreeLaplace.memory (MatFreeLaplace.new k 1 N cs xs xdm dm)
                      (fun _ => kappa) out) 0%nat) i) as E.
  unfold contribution_Q1 in E. rewrite E by (intros; reflexivity).
  destruct (Nat.eqb d _); ring.
Qed.

(** On two cells, the constant field 2, into a vector of ones. *)
Lemma apply_Q1_constant_field_witness :
  Aglobal (MatFreeLaplace.apply
             (MatFreeLaplace.new tabulate_tensor_Q1 1 2 ones TwoCells.x TwoCells.x_dofmap
                TwoCells.x_dofmap)
             (UnitCube.stacks 0) (fun _ => 1 + 1) ones) 5%nat = ones 5%nat.
Proof.
  apply (apply_Q1_constant_field tabulate_tensor_Q1 2 ones TwoCells.x TwoCells.x_dofmap
           TwoCells.x_dofmap (UnitCube.stacks 0) (1 + 1) ones 5).
  intros id i Hid Hi. reflexivity.
Defined.

(** On the unit cube, for [2 * e0 + 1 * ones]. *)
Lemma apply_Q1_linear_from_zeroed_stack_witness :
  Aglobal (MatFreeLaplace.apply (UnitCube.op tabulate_tensor_Q1 1) (UnitCube.stacks 0)
             (fun j => (1 + 1) * e0 j + 1 * ones j) zeros) 0%nat =
  (1 + 1) * Aglobal (MatFreeLaplace.apply (UnitCube.op tabulate_tensor_Q1 1)
                       (UnitCube.stacks 0) e0 zeros) 0%nat
  + 1 * Aglobal (MatFreeLaplace.apply (UnitCube.op tabulate_tensor_Q1 1)
                   (UnitCube.stacks 0) ones zeros) 0%nat.
Proof.
  apply (apply_Q1_linear_from_zeroed_stack tabulate_tensor_Q1 1 ones UnitCube.x
           UnitCube.identity UnitCube.identity (UnitCube.stacks 0) (UnitCube.stacks 0)
           (UnitCube.stacks 0) (1 + 1) 1 e0 ones 0);
    intros id i Hid Hi; reflexivity.
Defined.

(** On two cells sharing nine dofs, with different stacks on the two sides. *)
Lemma apply_Q2_self_adjoint_witness :
  dot 45 e0 (Aglobal (MatFreeLaplace.apply
                        (MatFreeLaplace.new tabulate_tensor_Q1 2 2 ones TwoCells.x
                           TwoCells.x_dofmap TwoCells.dofmap_Q2)
                        (UnitCube.stacks 1) ones zeros)) =
  dot 45 ones (Aglobal (MatFreeLaplace.apply
                          (MatFreeLaplace.new tabulate_tensor_Q1 2 2 ones TwoCells.x
                             TwoCells.x_dofmap TwoCells.dofmap_Q2)
                          (UnitCube.stacks 0) e0 zeros)).
Proof.
  apply (apply_Q2_self_adjoint tabulate_tensor_Q1 2 ones TwoCells.x TwoCells.x_dofmap
           TwoCells.dofmap_Q2 (UnitCube.stacks 1) (UnitCube.stacks 0) 45 ones e0).
  intros cell i Hc Hi. unfold TwoCells.dofmap_Q2.
  destruct (Nat.ltb_spec (cell * 27 + i) 27); lia.
Defined.

(** On two cells sharing a face, from zeroed stacks. *)
Lemma apply_Q1_self_adjoint_from_zeroed_stack_witness :
  dot 12 e0 (Aglobal (MatFreeLaplace.apply
                        (MatFreeLaplace.new tabulate_tensor_Q1 1 2 ones TwoCells.x
                           TwoCells.x_dofmap TwoCells.x_dofmap)
                        (UnitCube.stacks 0) ones zeros)) =
  dot 12 ones (Aglobal (MatFreeLaplace.apply
                          (MatFreeLaplace.new tabulate_tensor_Q1 1 2 ones TwoCells.x
                             TwoCells.x_dofmap TwoCells.x_dofmap)
                          (UnitCube.stacks 0) e0 zeros)).
Proof.
  apply (apply_Q1_self_adjoint_from_zeroed_stack tabulate_tensor_Q1 2 ones TwoCells.x
           TwoCells.x_dofmap TwoCells.x_dofmap (UnitCube.stacks 0) (UnitCube.stacks 0)
           12 ones e0).
  - intros cell i Hc Hi. unfold TwoCells.x_dofmap.
    destruct (Nat.ltb_spec (cell * 8 + i) 8); lia.
  - intros id i Hid Hi. reflexivity.
  - intros id i Hid Hi. reflexivity.
Defined.

(** Degree 1, under exact arithmetic: on a non-degenerate cell whose gathered
    field is constant, the quadrature loop adds nothing to the local tensor
    [A], and what the thread scatters is what it found on its stack. *)
Theorem Q1_constant_field_adds_nothing (stack : Locals) (id : nat) (m : Memory)
    (kappa : Qc) (j : nat) :
  (forall i, (i < 8)%nat -> wglobal m (dofmap m (id * 8 + i)%nat) = kappa) ->
  local_tensor 3 2 Q1.weights_461 Q1.FE_TF0 Q1.FE_TF1 Q1.FE_TF0 Q1.FE_TF1 false stack id m j =
  A_uninit stack j.
Proof.
  intros Hw. rewrite local_tensor_at, A_start_garbage by reflexivity.
  pose proof (contribution_Q1_constant (gather_w 2 m id) kappa (gather_geo m id)
                (c m 0%nat) j) as E.
  unfold contribution_Q1 in E. rewrite E by (intros i Hi; apply Hw, Hi). ring.
Qed.

(** On the unit cube with leftover ones on the stack. *)
Lemma Q1_constant_field_adds_nothing_witness :
  local_tensor 3 2 Q1.weights_461 Q1.FE_TF0 Q1.FE_TF1 Q1.FE_TF0 Q1.FE_TF1 false
    (UnitCube.stacks 1 0%nat) 0
    (MatFreeLaplace.memory (UnitCube.op tabulate_tensor_Q1 1) ones zeros) 0%nat =
  A_uninit (UnitCube.stacks 1 0%nat) 0%nat.
Proof.
  apply (Q1_constant_field_adds_nothing (UnitCube.stacks 1 0%nat) 0
           (MatFreeLaplace.memory (UnitCube.op tabulate_tensor_Q1 1) ones zeros) 1 0).
  intros i Hi. reflexivity.
Defined.


(** * Translation of the mesh *)

Lemma jacobian_translate (GD GV : nat -> nat -> Qc) (geo geo' : nat -> nat -> Qc) (t : Qc)
    (iq0 iq1 iq2 comp dir : nat) :
  sum_n 2 (GD iq0) = 0 -> sum_n 2 (GD iq1) = 0 -> sum_n 2 (GD iq2) = 0 ->
  (forall node, geo' node comp = geo node comp + t) ->
  jacobian GD GV geo' iq0 iq1 iq2 comp dir = jacobian GD GV geo iq0 iq1 iq2 comp dir.
Proof.
  intros H0 H1 H2 Hg. unfold jacobian.
  set (D := fun ic0 ic1 ic2 : nat =>
              match dir with
              | O => GD iq0 ic0 * GV iq1 ic1 * GV iq2 ic2
              | S O => GV iq0 ic0 * GD iq1 ic1 * GV iq2 ic2
              | S (S _) => GV iq0 ic0 * GV iq1 ic1 * GD iq2 ic2
              end).
  rewrite (sum3_ext 2 _ (fun ic0 ic1 ic2 =>
             geo (4 * ic0 + 2 * ic1 + ic2)%nat comp * D ic0 ic1 ic2 + t * D ic0 ic1 ic2))
    by (intros; rewrite Hg; unfold D; ring).
  rewrite sum3_plus, sum3_scal.
  assert (Z : sum3 2 D = 0).
  { unfold D. destruct dir as [|[|dir]]; rewrite sum3_product.
    - rewrite H0. ring.
    - rewrite H1. ring.
    - rewrite H2. ring. }
  rewrite Z. unfold D. cbv beta. ring.
Qed.

Lemma contribution_translate (nq nd : nat) (weights : nat -> Qc)
    (GD GV CD CV : nat -> nat -> Qc) (w : array) (geo geo' : nat -> nat -> Qc)
    (t : nat -> Qc) (c0 : Qc) (j : nat) :
  (forall iq, (iq < nq)%nat -> sum_n 2 (GD iq) = 0) ->
  (forall node comp, (comp < 3)%nat -> geo' node comp = geo node comp + t comp) ->
  contribution nq nd weights GD GV CD CV w geo' c0 j =
  contribution nq nd weights GD GV CD CV w geo c0 j.
Proof.
  intros HD Hg. unfold contribution. apply sum3_ext. intros iq0 iq1 iq2 Q0 Q1 Q2.
  unfold flux. cbv zeta.
  rewrite !(jacobian_translate GD GV geo geo' (t 0%nat)), !(jacobian_translate GD GV geo geo' (t 1%nat)),
          !(jacobian_translate GD GV geo geo' (t 2%nat))
    by (first [apply HD; assumption | intros; apply Hg; lia]).
  reflexivity.
Qed.

Lemma Q2_FE_TF3_row (iq : nat) : (iq < 4)%nat -> sum_n 2 (Q2.FE_TF3 iq) = 0.
Proof.
  intros H. destruct iq as [|[|[|[|iq]]]]; try lia; apply Qc_is_canon; reflexivity.
Qed.

Lemma Q1_FE_TF0_row_sum (iq : nat) : (iq < 3)%nat -> sum_n 2 (Q1.FE_TF0 iq) = 0.
Proof.
  intros H. destruct iq as [|[|[|iq]]]; try lia; apply Qc_is_canon; reflexivity.
Qed.

(** Under exact arithmetic, moving the whole mesh by a vector [t] changes
    nothing of what [apply] computes: the rows of the geometry derivative
    tables sum to zero as rationals, so the Jacobians are the same. *)
Theorem apply_translation_invariant (k : kernel_pointer) (degree : Z) (N : nat)
    (cs xs xs' : array) (xdm dm : index_array) (stacks : nat -> Locals)
    (in_ out : array) (t : nat -> Qc) (d : nat) :
  degree = 1%Z \/ degree = 2%Z ->
  (forall node comp, (comp < 3)%nat -> xs' (node * 3 + comp)%nat = xs (node * 3 + comp)%nat + t comp) ->
  Aglobal (MatFreeLaplace.apply (MatFreeLaplace.new k degree N cs xs' xdm dm) stacks in_ out) d =
  Aglobal (MatFreeLaplace.apply (MatFreeLaplace.new k degree N cs xs xdm dm) stacks in_ out) d.
Proof.
  intros [-> | ->] Hx.
  - rewrite !apply_Q1_cells. cbv zeta. apply (f_equal (Qcplus (out d))).
    apply sum_n_ext. intros id _. unfold cell_add_Q1.
    rewrite !cell_add_contribution. apply sum_n_ext. intros i _.
    cbn [dofmap c MatFreeLaplace.memory MatFreeLaplace.dofmap MatFreeLaplace.constants
         MatFreeLaplace.new].
    rewrite (contribution_translate 3 2 _ _ _ _ _ _
               (gather_geo (MatFreeLaplace.memory (MatFreeLaplace.new k 1 N cs xs xdm dm) in_ out) id)
               (gather_geo (MatFreeLaplace.memory (MatFreeLaplace.new k 1 N cs xs' xdm dm) in_ out) id)
               t).
    + reflexivity.
    + apply Q1_FE_TF0_row_sum.
    + intros node comp Hc. apply Hx, Hc.
  - rewrite !apply_Q2_cells. cbv zeta. apply (f_equal (Qcplus (out d))).
    apply sum_n_ext. intros id _. unfold cell_add_Q2.
    rewrite !cell_add_contribution. apply sum_n_ext. intros i _.
    cbn [dofmap c MatFreeLaplace.memory MatFreeLaplace.dofmap MatFreeLaplace.constants
         MatFreeLaplace.new].
    rewrite (contribution_translate 4 3 _ _ _ _ _ _
               (gather_geo (MatFreeLaplace.memory (MatFreeLaplace.new k 2 N cs xs xdm dm) in_ out) id)
               (gather_geo (MatFreeLaplace.memory (MatFreeLaplace.new k 2 N cs xs' xdm dm) in_ out) id)
               t).
    + reflexivity.
    + apply Q2_FE_TF3_row.
    + intros node comp Hc. apply Hx, Hc.
Qed.

Lemma apply_translation_invariant_witness :
  Aglobal (MatFreeLaplace.apply
             (MatFreeLaplace.new tabulate_tensor_Q1 2 1 ones (fun i => UnitCube.x i + 1)
                UnitCube.identity UnitCube.identity)
             (UnitCube.stacks 0) e0 zeros) 0%nat =
  Aglobal (MatFreeLaplace.apply
             (MatFreeLaplace.new tabulate_tensor_Q1 2 1 ones UnitCube.x
                UnitCube.identity UnitCube.identity)
             (UnitCube.stacks 0) e0 zeros) 0%nat.
Proof.
  apply (apply_translation_invariant tabulate_tensor_Q1 2 1 ones UnitCube.x
           (fun i => UnitCube.x i + 1) UnitCube.identity UnitCube.identity
           (UnitCube.stacks 0) e0 zeros (fun _ => 1) 0).
  - right. reflexivity.
  - intros node comp Hc. reflexivity.
Defined.

(** * The energy *)

Lemma Qcmult_nonneg (a b : Qc) : 0 <= a -> 0 <= b -> 0 <= a * b.
Proof.
  intros Ha Hb. rewrite <- (Qcmult_0_l b). apply Qcmult_le_compat_r; assumption.
Qed.

Lemma Qcplus_nonneg (a b : Qc) : 0 <= a -> 0 <= b -> 0 <= a + b.
Proof.
  intros Ha Hb. rewrite <- (Qcplus_0_l 0). apply Qcplus_le_compat; assumption.
Qed.

Lemma Qcsquare_nonneg (x : Qc) : 0 <= x * x.
Proof.
  destruct (Qclt_le_dec x 0) as [H|H].
  - replace (x * x) with ((- x) * (- x)) by ring.
    assert (N : 0 <= - x).
    { apply Qclt_le_weak in H. apply Qcle_minus_iff in H.
      rewrite Qcplus_0_l in H. exact H. }
    apply Qcmult_nonneg; exact N.
  - apply Qcmult_nonneg; exact H.
Qed.

Lemma sum_n_nonneg (n : nat) (f : nat -> Qc) :
  (forall i, (i < n)%nat -> 0 <= f i) -> 0 <= sum_n n f.
Proof.
  intros H. rewrite <- (sum_n_zero n). apply sum_n_le. exact H.
Qed.

Lemma sum3_nonneg (n : nat) (f : nat -> nat -> nat -> Qc) :
  (forall i0 i1 i2, (i0 < n)%nat -> (i1 < n)%nat -> (i2 < n)%nat -> 0 <= f i0 i1 i2) ->
  0 <= sum3 n f.
Proof.
  intros H. unfold sum3. apply sum_n_nonneg; intros i0 H0.
  apply sum_n_nonneg; intros i1 H1. apply sum_n_nonneg; intros i2 H2. apply H; assumption.
Qed.

(** The fluxes of a reference gradient, tested against the same gradient:
    the squared physical gradient, times the constant, the absolute
    determinant and the weight. *)
Lemma intermediates_energy (J0 J1 J2 J3 J4 J5 J6 J7 J8 g0 g1 g2 c0 weight : Qc) :
  let f := intermediates J0 J1 J2 J3 J4 J5 J6 J7 J8 g0 g1 g2 c0 weight in
  let p a := physical_gradient J0 J1 J2 J3 J4 J5 J6 J7 J8 a g0 g1 g2 in
  fw0 f * g0 + fw1 f * g1 + fw2 f * g2 =
  c0 * fabs (det J0 J1 J2 J3 J4 J5 J6 J7 J8) * weight
  * (p 0%nat * p 0%nat + p 1%nat * p 1%nat + p 2%nat * p 2%nat).
Proof.
  cbv zeta.
  rewrite (intermediates_closed_form J0 J1 J2 J3 J4 J5 J6 J7 J8 c0 weight g0 g1 g2).
  cbv zeta. unfold fw0, fw1, fw2, physical_gradient; cbn [fst snd]. ring.
Qed.

Lemma flux_energy_nonneg (nq : nat) (weights : nat -> Qc) (GD GV : nat -> nat -> Qc)
    (geo : nat -> nat -> Qc) (c0 : Qc) (iq0 iq1 iq2 : nat) (g0 g1 g2 : Qc) :
  (forall i, 0 <= weights i) -> 0 <= c0 ->
  0 <= fw0 (flux nq weights GD GV geo c0 iq0 iq1 iq2 g0 g1 g2) * g0
       + fw1 (flux nq weights GD GV geo c0 iq0 iq1 iq2 g0 g1 g2) * g1
       + fw2 (flux nq weights GD GV geo c0 iq0 iq1 iq2 g0 g1 g2) * g2.
Proof.
  intros Hw Hc. unfold flux. cbv zeta.
  rewrite (intermediates_energy
             (jacobian GD GV geo iq0 iq1 iq2 0 0) (jacobian GD GV geo iq0 iq1 iq2 0 1)
             (jacobian GD GV geo iq0 iq1 iq2 0 2) (jacobian GD GV geo iq0 iq1 iq2 1 0)
             (jacobian GD GV geo iq0 iq1 iq2 1 1) (jacobian GD GV geo iq0 iq1 iq2 1 2)
             (jacobian GD GV geo iq0 iq1 iq2 2 0) (jacobian GD GV geo iq0 iq1 iq2 2 1)
             (jacobian GD GV geo iq0 iq1 iq2 2 2)
             g0 g1 g2 c0 (weights (nq * nq * iq0 + nq * iq1 + iq2)%nat)).
  apply Qcmult_nonneg; [apply Qcmult_nonneg; [apply Qcmult_nonneg|]|].
  - exact Hc.
  - apply Qcabs_nonneg.
  - apply Hw.
  - apply Qcplus_nonneg; [apply Qcplus_nonneg|]; apply Qcsquare_nonneg.
Qed.

Lemma pairing_nonneg (nq nd : nat) (weights : nat -> Qc) (GD GV CD CV : nat -> nat -> Qc)
    (geo : nat -> nat -> Qc) (c0 : Qc) (u : array) :
  (forall i, 0 <= weights i) -> 0 <= c0 ->
  0 <= pairing nq nd weights GD GV CD CV geo c0 u u.
Proof.
  intros Hw Hc. unfold pairing. apply sum3_nonneg. intros iq0 iq1 iq2 _ _ _.
  cbv zeta. apply (flux_energy_nonneg nq weights GD GV geo c0 iq0 iq1 iq2); assumption.
Qed.

Lemma arr_nonneg (l : list Qc) :
  forallb (fun x => Qle_bool 0 (this x)) l = true -> forall k, 0 <= arr l k.
Proof.
  intros H k. unfold arr. destruct (nth_in_or_default k l 0) as [I|E].
  - rewrite forallb_forall in H. apply Qcle_by_value, H, I.
  - rewrite E. apply Qcle_refl.
Qed.

Lemma Q2_weights_nonneg (i : nat) : 0 <= Q2.weights_be1 i.
Proof. apply arr_nonneg. vm_compute. reflexivity. Qed.

Lemma Q1_weights_nonneg (i : nat) : 0 <= Q1.weights_461 i.
Proof. apply arr_nonneg. vm_compute. reflexivity. Qed.

Lemma assembled_energy_nonneg (nq nd : nat) (weights : nat -> Qc)
    (GD GV CD CV : nat -> nat -> Qc) (zero_A : bool) (s : nat -> Locals) (N : nat)
    (m : Memory) (n : nat) (u : array) :
  (forall i, 0 <= weights i) -> 0 <= c m 0%nat ->
  clean_start nd zero_A s N ->
  (forall id i, (id < N)%nat -> (i < space_dim nd)%nat ->
     (dofmap m (id * space_dim nd + i)%nat < n)%nat) ->
  0 <= sum_n n (fun d => u d * assembled nq nd weights GD GV CD CV zero_A s N
                                 (with_input m u) d).
Proof.
  intros Hw Hc Hs Hdm. rewrite assembled_tested by assumption.
  apply sum_n_nonneg. intros id _. apply pairing_nonneg; assumption.
Qed.

(** Degree 2, under exact arithmetic: with a material constant that is not
    negative, the energy [u . apply u] is not negative, on every mesh of
    non-degenerate cells whose field dofmap stays below the number [n] of
    dofs. *)
Theorem apply_Q2_positive_semidefinite (k : kernel_pointer) (N : nat) (cs xs : array)
    (xdm dm : index_array) (s : nat -> Locals) (n : nat) (u : array) :
  (forall cell i, (cell < N)%nat -> (i < 27)%nat -> (dm (cell * 27 + i)%nat < n)%nat) ->
  0 <= cs 0%nat ->
  0 <= dot n u (Aglobal (MatFreeLaplace.apply (MatFreeLaplace.new k 2 N cs xs xdm dm)
                           s u zeros)).
Proof.
  intros Hdm Hc. unfold dot.
  rewrite (sum_n_ext n _ (fun d => u d *
    assembled 4 3 Q2.weights_be1 Q2.FE_TF3 Q2.FE_TF2 Q2.FE_TF0 Q2.FE_TF1 true
      s N (with_input (mkMemory zeros zeros cs xs xdm dm) u) d))
    by (intros d _; rewrite apply_Q2_assembled; unfold zeros; ring).
  apply assembled_energy_nonneg.
  - apply Q2_weights_nonneg.
  - exact Hc.
  - apply clean_start_Q2.
  - exact Hdm.
Qed.

Lemma apply_Q2_positive_semidefinite_witness :
  0 <= dot 45 e0 (Aglobal (MatFreeLaplace.apply
                             (MatFreeLaplace.new tabulate_tensor_Q1 2 2 ones TwoCells.x
                                TwoCells.x_dofmap TwoCells.dofmap_Q2)
                             (UnitCube.stacks 1) e0 zeros)).
Proof.
  apply (apply_Q2_positive_semidefinite tabulate_tensor_Q1 2 ones TwoCells.x
           TwoCells.x_dofmap TwoCells.dofmap_Q2 (UnitCube.stacks 1) 45 e0).
  - intros cell i Hc Hi. unfold TwoCells.dofmap_Q2.
    destruct (Nat.ltb_spec (cell * 27 + i) 27); lia.
  - apply Qcle_by_value. reflexivity.
Defined.

(** Degree 1, under exact arithmetic and on the same meshes: the same,
    provided the local array [A] of every cell's thread happens to start at
    zero. *)
Theorem apply_Q1_positive_semidefinite_from_zeroed_stack (k : kernel_pointer) (N : nat)
    (cs xs : array) (xdm dm : index_array) (s : nat -> Locals) (n : nat) (u : array) :
  (forall cell i, (cell < N)%nat -> (i < 8)%nat -> (dm (cell * 8 + i)%nat < n)%nat) ->
  (forall id i, (id < N)%nat -> (i < 8)%nat -> A_uninit (s id) i = 0) ->
  0 <= cs 0%nat ->
  0 <= dot n u (Aglobal (MatFreeLaplace.apply (MatFreeLaplace.new k 1 N cs xs xdm dm)
                           s u zeros)).
Proof.
  intros Hdm Hs Hc. unfold dot.
  rewrite (sum_n_ext n _ (fun d => u d *
    assembled 3 2 Q1.weights_461 Q1.FE_TF0 Q1.FE_TF1 Q1.FE_TF0 Q1.FE_TF1 false
      s N (with_input (mkMemory zeros zeros cs xs xdm dm) u) d))
    by (intros d _; rewrite apply_Q1_assembled; unfold zeros; ring).
  apply assembled_energy_nonneg.
  - apply Q1_weights_nonneg.
  - exact Hc.
  - apply clean_start_Q1, Hs.
  - exact Hdm.
Qed.

Lemma apply_Q1_positive_semidefinite_from_zeroed_stack_witness :
  0 <= dot 12 e0 (Aglobal (MatFreeLaplace.apply
                             (MatFreeLaplace.new tabulate_tensor_Q1 1 2 ones TwoCells.x
                                TwoCells.x_dofmap TwoCells.x_dofmap)
                             (UnitCube.stacks 0) e0 zeros)).
Proof.
  apply (apply_Q1_positive_semidefinite_from_zeroed_stack tabulate_tensor_Q1 2 ones
           TwoCells.x TwoCells.x_dofmap TwoCells.x_dofmap (UnitCube.stacks 0) 12 e0).
  - intros cell i Hc Hi. unfold TwoCells.x_dofmap.
    destruct (Nat.ltb_spec (cell * 8 + i) 8); lia.
  - intros id i Hid Hi. reflexivity.
  - apply Qcle_by_value. reflexivity.
Defined.

(** * The material constant *)

Lemma intermediates_scale (J0 J1 J2 J3 J4 J5 J6 J7 J8 g0 g1 g2 c0 weight kappa : Qc) :
  intermediates J0 J1 J2 J3 J4 J5 J6 J7 J8 g0 g1 g2 (kappa * c0) weight =
  (kappa * fw0 (intermediates J0 J1 J2 J3 J4 J5 J6 J7 J8 g0 g1 g2 c0 weight),
   kappa * fw1 (intermediates J0 J1 J2 J3 J4 J5 J6 J7 J8 g0 g1 g2 c0 weight),
   kappa * fw2 (intermediates J0 J1 J2 J3 J4 J5 J6 J7 J8 g0 g1 g2 c0 weight)).
Proof.
  rewrite (intermediates_closed_form J0 J1 J2 J3 J4 J5 J6 J7 J8 c0 weight g0 g1 g2),
          (intermediates_closed_form J0 J1 J2 J3 J4 J5 J6 J7 J8 (kappa * c0) weight g0 g1 g2).
  cbv zeta. unfold fw0, fw1, fw2; cbn [fst snd].
  apply f_equal2; [apply f_equal2|]; ring.
Qed.

Lemma contribution_scale (nq nd : nat) (weights : nat -> Qc)
    (GD GV CD CV : nat -> nat -> Qc) (w : array) (geo : nat -> nat -> Qc)
    (c0 kappa : Qc) (j : nat) :
  contribution nq nd weights GD GV CD CV w geo (kappa * c0) j =
  kappa * contribution nq nd weights GD GV CD CV w geo c0 j.
Proof.
  unfold contribution. rewrite <- sum3_scal. apply sum3_ext. intros iq0 iq1 iq2 _ _ _.
  unfold flux. cbv zeta.
  rewrite (intermediates_scale
             (jacobian GD GV geo iq0 iq1 iq2 0 0) (jacobian GD GV geo iq0 iq1 iq2 0 1)
             (jacobian GD GV geo iq0 iq1 iq2 0 2) (jacobian GD GV geo iq0 iq1 iq2 1 0)
             (jacobian GD GV geo iq0 iq1 iq2 1 1) (jacobian GD GV geo iq0 iq1 iq2 1 2)
             (jacobian GD GV geo iq0 iq1 iq2 2 0) (jacobian GD GV geo iq0 iq1 iq2 2 1)
             (jacobian GD GV geo iq0 iq1 iq2 2 2)).
  unfold point_contribution. rewrite <- sum3_scal. apply sum3_ext. intros i0 i1 i2 _ _ _.
  unfold fw0, fw1, fw2; cbn [fst snd].
  destruct (Nat.eqb j (idx3 nd i0 i1 i2)); ring.
Qed.

(** Degree 2, under exact arithmetic: of the constants only [c[0]] is read,
    and the output is proportional to it. *)
Theorem apply_Q2_scales_with_constant (k : kernel_pointer) (N : nat) (cs cs' xs : array)
    (xdm dm : index_array) (s s' : nat -> Locals) (in_ : array) (kappa : Qc) (d : nat) :
  cs' 0%nat = kappa * cs 0%nat ->
  Aglobal (MatFreeLaplace.apply (MatFreeLaplace.new k 2 N cs' xs xdm dm) s in_ zeros) d =
  kappa * Aglobal (MatFreeLaplace.apply (MatFreeLaplace.new k 2 N cs xs xdm dm) s' in_ zeros) d.
Proof.
  intros Hc. rewrite !apply_Q2_cells. cbv zeta. unfold zeros.
  rewrite Qcplus_0_l, Qcplus_0_l, <- sum_n_scal. apply sum_n_ext. intros id _.
  unfold cell_add_Q2. rewrite !cell_add_contribution, <- sum_n_scal.
  apply sum_n_ext. intros i Hi.
  rewrite !A_start_zeroed by (reflexivity || exact Hi).
  cbn [dofmap c MatFreeLaplace.memory MatFreeLaplace.dofmap MatFreeLaplace.constants
       MatFreeLaplace.new].
  rewrite Hc, contribution_scale. unfold gather_w, gather_geo.
  cbn [wglobal dofmap coordinate_dofs_global geom_dofmap MatFreeLaplace.memory
       MatFreeLaplace.x MatFreeLaplace.x_dofmap MatFreeLaplace.dofmap MatFreeLaplace.new].
  destruct (Nat.eqb d (dm (id * space_dim 3 + i)%nat)); ring.
Qed.

Lemma apply_Q2_scales_with_constant_witness :
  Aglobal (MatFreeLaplace.apply
             (MatFreeLaplace.new tabulate_tensor_Q1 2 1 (fun _ => 1 + 1) UnitCube.x
                UnitCube.identity UnitCube.identity)
             (UnitCube.stacks 0) e0 zeros) 0%nat =
  (1 + 1) * Aglobal (MatFreeLaplace.apply
                       (MatFreeLaplace.new tabulate_tensor_Q1 2 1 ones UnitCube.x
                          UnitCube.identity UnitCube.identity)
                       (UnitCube.stacks 1) e0 zeros) 0%nat.
Proof.
  apply (apply_Q2_scales_with_constant tabulate_tensor_Q1 1 ones (fun _ => 1 + 1) UnitCube.x
           UnitCube.identity UnitCube.identity (UnitCube.stacks 0) (UnitCube.stacks 1)
           e0 (1 + 1) 0).
  unfold ones. ring.
Defined.

(** * Telemetry *)

Close Scope Qc_scope.
Import Telemetry.
Open Scope list_scope.

(** * Telemetry: traces *)

Lemma clean_app (a b : list event) : clean (a ++ b) = clean a && clean b.
Proof. apply forallb_app. Qed.

Lemma failure_only_last_app (a b : list event) :
  clean a = true -> failure_only_last (a ++ b) = failure_only_last b.
Proof.
  induction a as [|e a IH]; intros H; [reflexivity|].
  simpl in H. apply andb_prop in H. destruct H as [He Ha].
  apply negb_true_iff in He. simpl. rewrite He. apply IH, Ha.
Qed.

Lemma failure_only_last_clean (a : list event) :
  clean a = true -> failure_only_last a = true.
Proof.
  intros H. rewrite <- (app_nil_r a). rewrite failure_only_last_app by exact H.
  reflexivity.
Qed.

Lemma failure_only_last_stopped (a : list event) :
  stopped a -> failure_only_last a = true.
Proof.
  intros (pre & e & -> & Hp & He). rewrite failure_only_last_app by exact Hp.
  simpl. rewrite He. reflexivity.
Qed.

Lemma stopped_app (a b : list event) : clean a = true -> stopped b -> stopped (a ++ b).
Proof.
  intros Ha (pre & e & -> & Hp & He). exists (a ++ pre), e.
  rewrite app_assoc. repeat split; [|exact He].
  rewrite clean_app, Ha, Hp. reflexivity.
Qed.

Lemma clean_cout (chs : list chunk) : clean (map Cout chs) = true.
Proof. induction chs; [reflexivity|assumption]. Qed.

Lemma seg_refl (st : State) : seg st st [].
Proof. split; [reflexivity|]. rewrite app_nil_r. reflexivity. Qed.

Lemma seg_trans (st1 st2 st3 : State) (a b : list event) :
  seg st1 st2 a -> seg st2 st3 b -> seg st1 st3 (a ++ b).
Proof.
  intros [A1 A2] [B1 B2]. split; [congruence|].
  rewrite B2, A2, app_assoc. reflexivity.
Qed.

Lemma seg_emit (e : event) (st : State) : seg st (emit e st) [e].
Proof. split; reflexivity. Qed.

Lemma seg_cout (chs : list chunk) (st : State) : seg st (cout chs st) (map Cout chs).
Proof. split; reflexivity. Qed.

Section Loops.

Variable lib : rsmi.

Lemma num_monitored_devices_seg (st : State) :
  exists evs, seg st (snd (num_monitored_devices lib st)) evs /\ clean evs = true.
Proof.
  unfold num_monitored_devices. destruct (initialised st).
  - exists [Call rsmi_num_monitor_devices (monitor_devices_status lib)].
    split; [apply seg_emit|reflexivity].
  - exists []. split; [apply seg_refl|reflexivity].
Qed.

Lemma for_memory_types_ok (tys : list rsmi_memory_type_t)
    (body : rsmi_memory_type_t -> State -> bool * State) :
  (forall ty, body_ok (body ty)) -> body_ok (for_memory_types tys body).
Proof.
  intros Hb. induction tys as [|ty tys IH]; intros st; simpl.
  - exists []. split; [apply seg_refl|reflexivity].
  - destruct (Hb ty st) as (a & Sa & Ca).
    destruct (body ty st) as [continue st1]. simpl in Sa, Ca.
    destruct continue.
    + destruct (IH st1) as (b & Sb & Cb). exists (a ++ b).
      split; [eapply seg_trans; eassumption|].
      destruct (fst (for_memory_types tys body st1)).
      * rewrite clean_app, Ca, Cb. reflexivity.
      * apply stopped_app; assumption.
    + exists a. split; assumption.
Qed.

Lemma for_devices_ok (fuel i : nat) (body : nat -> State -> bool * State) :
  (forall i, body_ok (body i)) ->
  forall st, exists evs,
    seg st (for_devices lib fuel i body st) evs /\ (clean evs = true \/ stopped evs).
Proof.
  intros Hb. revert i. induction fuel as [|fuel IH]; intros i st; simpl.
  - exists []. split; [apply seg_refl|left; reflexivity].
  - destruct (num_monitored_devices_seg st) as (a & Sa & Ca).
    destruct (num_monitored_devices lib st) as [n st1]. simpl in Sa.
    destruct (Nat.ltb i n).
    + destruct (Hb i st1) as (b & Sb & Cb).
      destruct (body i st1) as [continue st2]. simpl in Sb, Cb.
      destruct continue.
      * destruct (IH (S i) st2) as (d & Sd & Cd). exists (a ++ b ++ d).
        split; [eapply seg_trans; [eassumption|eapply seg_trans; eassumption]|].
        destruct Cd as [Cd|Cd].
        -- left. rewrite !clean_app, Ca, Cb, Cd. reflexivity.
        -- right. apply stopped_app; [exact Ca|]. apply stopped_app; assumption.
      * exists (a ++ b). split; [eapply seg_trans; eassumption|].
        right. apply stopped_app; assumption.
    + exists a. split; [exact Sa|left; exact Ca].
Qed.

End Loops.

(** * Telemetry: the print operations stop at the first failed query *)

Lemma query_step_ok (f : rsmi_call) (err : rsmi_status_t) (chs : list chunk) :
  is_failed_query (Call f err) = negb (Z.eqb err RSMI_STATUS_SUCCESS) ->
  body_ok (fun st =>
    let st := emit (Call f err) st in
    if negb (Z.eqb err RSMI_STATUS_SUCCESS) then (false, st) else (true, cout chs st)).
Proof.
  intros Hf st. cbv zeta. destruct (negb (Z.eqb err RSMI_STATUS_SUCCESS)) eqn:E; simpl.
  - exists [Call f err]. split; [apply seg_emit|].
    exists [], (Call f err). repeat split. exact Hf.
  - exists ([Call f err] ++ map Cout chs). split.
    + eapply seg_trans; [apply seg_emit|apply seg_cout].
    + rewrite clean_app, clean_cout. unfold clean. cbn [forallb].
      rewrite Hf. reflexivity.
Qed.

Lemma two_query_steps_ok (f1 f2 : rsmi_call) (err1 err2 : rsmi_status_t)
    (chs : list chunk) :
  is_failed_query (Call f1 err1) = negb (Z.eqb err1 RSMI_STATUS_SUCCESS) ->
  is_failed_query (Call f2 err2) = negb (Z.eqb err2 RSMI_STATUS_SUCCESS) ->
  body_ok (fun st =>
    let st := emit (Call f1 err1) st in
    if negb (Z.eqb err1 RSMI_STATUS_SUCCESS) then (false, st)
    else
      let st := emit (Call f2 err2) st in
      if negb (Z.eqb err2 RSMI_STATUS_SUCCESS) then (false, st) else (true, cout chs st)).
Proof.
  intros H1 H2 st. cbv zeta.
  destruct (negb (Z.eqb err1 RSMI_STATUS_SUCCESS)) eqn:E1; simpl.
  - exists [Call f1 err1]. split; [apply seg_emit|].
    exists [], (Call f1 err1). repeat split. exact H1.
  - destruct (negb (Z.eqb err2 RSMI_STATUS_SUCCESS)) eqn:E2; simpl.
    + exists ([Call f1 err1] ++ [Call f2 err2]). split.
      * eapply seg_trans; apply seg_emit.
      * exists [Call f1 err1], (Call f2 err2). repeat split; [|exact H2].
        unfold clean. cbn [forallb]. rewrite H1. reflexivity.
    + exists ([Call f1 err1] ++ [Call f2 err2] ++ map Cout chs). split.
      * eapply seg_trans; [apply seg_emit|]. eapply seg_trans; [apply seg_emit|apply seg_cout].
      * rewrite !clean_app, clean_cout. unfold clean. cbn [forallb].
        rewrite H1, H2. reflexivity.
Qed.

Lemma device_body_ok (prefix suffix : list chunk) (inner : State -> bool * State) :
  body_ok inner ->
  body_ok (fun st =>
    let st := cout prefix st in
    let (continue, st) := inner st in
    if continue then (true, cout suffix st) else (false, st)).
Proof.
  intros Hi st. cbv zeta.
  destruct (Hi (cout prefix st)) as (a & Sa & Ca).
  destruct (inner (cout prefix st)) as [continue st1]. simpl in Sa, Ca.
  destruct continue; simpl.
  - exists (map Cout prefix ++ a ++ map Cout suffix). split.
    + eapply seg_trans; [apply seg_cout|]. eapply seg_trans; [exact Sa|apply seg_cout].
    + rewrite !clean_app, !clean_cout, Ca. reflexivity.
  - exists (map Cout prefix ++ a). split.
    + eapply seg_trans; [apply seg_cout|exact Sa].
    + apply stopped_app; [apply clean_cout|exact Ca].
Qed.

Lemma not_initialised_seg (st : State) :
  exists evs, seg st (not_initialised st) evs /\ failure_only_last evs = true.
Proof.
  eexists. split; [apply seg_cout|]. apply failure_only_last_clean, clean_cout.
Qed.

Lemma for_devices_stops (lib : rsmi) (fuel : nat) (body : nat -> State -> bool * State)
    (st : State) :
  (forall i, body_ok (body i)) ->
  exists evs, seg st (for_devices lib fuel 0 body st) evs /\ failure_only_last evs = true.
Proof.
  intros Hb. destruct (for_devices_ok lib fuel 0 body Hb st) as (evs & S & [C|C]).
  - exists evs. split; [exact S|apply failure_only_last_clean, C].
  - exists evs. split; [exact S|apply failure_only_last_stopped, C].
Qed.

Lemma print_busy_seg (lib : rsmi) (rank : nat) (text : string) (st : State) :
  exists evs, seg st (print_amd_gpu_memory_busy lib rank text st) evs
              /\ failure_only_last evs = true.
Proof.
  unfold print_amd_gpu_memory_busy. destruct (initialised st); [|apply not_initialised_seg].
  apply for_devices_stops. intros i st1.
  destruct (busy_percent lib i) as [err v].
  apply (query_step_ok (rsmi_dev_memory_busy_percent_get i) err). reflexivity.
Qed.

Lemma print_used_seg (lib : rsmi) (rank : nat) (text : string) (st : State) :
  exists evs, seg st (print_amd_gpu_memory_used lib rank text st) evs
              /\ failure_only_last evs = true.
Proof.
  unfold print_amd_gpu_memory_used. destruct (initialised st); [|apply not_initialised_seg].
  apply for_devices_stops. intros i. apply device_body_ok.
  apply for_memory_types_ok. intros ty st1.
  destruct (memory_usage lib i ty) as [err v].
  apply (query_step_ok (rsmi_dev_memory_usage_get i ty) err). reflexivity.
Qed.

Lemma print_total_seg (lib : rsmi) (rank : nat) (text : string) (st : State) :
  exists evs, seg st (print_amd_gpu_memory_total lib rank text st) evs
              /\ failure_only_last evs = true.
Proof.
  unfold print_amd_gpu_memory_total. destruct (initialised st); [|apply not_initialised_seg].
  apply for_devices_stops. intros i. apply device_body_ok.
  apply for_memory_types_ok. intros ty st1.
  destruct (memory_total lib i ty) as [err v].
  apply (query_step_ok (rsmi_dev_memory_total_get i ty) err). reflexivity.
Qed.

Lemma print_percentage_used_seg (lib : rsmi) (rank : nat) (text : string) (st : State) :
  exists evs, seg st (print_amd_gpu_memory_percentage_used lib rank text st) evs
              /\ failure_only_last evs = true.
Proof.
  unfold print_amd_gpu_memory_percentage_used.
  destruct (initialised st); [|apply not_initialised_seg].
  apply for_devices_stops. intros i. apply device_body_ok.
  apply for_memory_types_ok. intros ty st1.
  destruct (memory_total lib i ty) as [err1 total].
  destruct (memory_usage lib i ty) as [err2 usage].
  apply (two_query_steps_ok (rsmi_dev_memory_total_get i ty)
           (rsmi_dev_memory_usage_get i ty) err1 err2); reflexivity.
Qed.

(** C10 (amended).  Each of the four print operations keeps the flag and
    appends to the trace a sequence of events in which a failed per-device
    query, if there is one, is the last event: the first failed query ends
    the whole operation, so no line of a later device or memory category
    follows it.  Nothing is raised: the operation returns a state. *)
Theorem print_stops_at_first_failed_query (lib : rsmi) (rank : nat) (text : string)
    (st : State) :
  (exists evs, seg st (print_amd_gpu_memory_busy lib rank text st) evs
               /\ failure_only_last evs = true) /\
  (exists evs, seg st (print_amd_gpu_memory_used lib rank text st) evs
               /\ failure_only_last evs = true) /\
  (exists evs, seg st (print_amd_gpu_memory_total lib rank text st) evs
               /\ failure_only_last evs = true) /\
  (exists evs, seg st (print_amd_gpu_memory_percentage_used lib rank text st) evs
               /\ failure_only_last evs = true).
Proof.
  split; [apply print_busy_seg|].
  split; [apply print_used_seg|].
  split; [apply print_total_seg|apply print_percentage_used_seg].
Qed.

(** * Telemetry: what the flag guards *)

Lemma no_query_before_init_quiet (a b : list event) :
  quiet a = true -> no_query_before_init (a ++ b) = no_query_before_init b.
Proof.
  induction a as [|e a IH]; intros H; [reflexivity|].
  simpl in H. apply andb_prop in H. destruct H as [He Ha].
  apply negb_true_iff, orb_false_iff in He. destruct He as [Hq Hi].
  simpl. rewrite Hi, Hq. simpl. apply IH, Ha.
Qed.

Lemma no_query_before_init_after (a b : list event) :
  no_query_before_init a = true -> existsb is_successful_init a = true ->
  no_query_before_init (a ++ b) = true.
Proof.
  induction a as [|e a IH]; intros H1 H2; [discriminate H2|].
  simpl in *. destruct (is_successful_init e); [reflexivity|].
  apply andb_prop in H1. destruct H1 as [Hq Ha]. rewrite Hq. simpl.
  apply IH; assumption.
Qed.

Lemma quiet_app (a b : list event) : quiet (a ++ b) = quiet a && quiet b.
Proof. apply forallb_app. Qed.

Lemma quiet_no_query (a : list event) : quiet a = true -> no_query_before_init a = true.
Proof.
  intros H. rewrite <- (app_nil_r a), no_query_before_init_quiet by exact H. reflexivity.
Qed.

Lemma quiet_cout (chs : list chunk) : quiet (map Cout chs) = true.
Proof. induction chs; [reflexivity|assumption]. Qed.

Lemma consistent_initial : consistent initial.
Proof. repeat split. intros H. discriminate H. Qed.

(** Appending anything to the trace of an initialised state. *)
Lemma consistent_extend (st st' : State) (evs : list event) :
  consistent st -> initialised st = true -> seg st st' evs -> consistent st'.
Proof.
  intros (H1 & H2 & H3) Hi [S1 S2]. unfold consistent. rewrite S1, S2, Hi.
  repeat split.
  - apply no_query_before_init_after; [exact H1|apply H3, Hi].
  - intros D. discriminate D.
  - intros _. rewrite existsb_app, (H3 Hi). reflexivity.
Qed.

(** Appending quiet events to the trace of a state that is not initialised. *)
Lemma consistent_quiet (st st' : State) (evs : list event) :
  consistent st -> initialised st = false -> seg st st' evs -> quiet evs = true ->
  consistent st'.
Proof.
  intros (H1 & H2 & H3) Hi [S1 S2] Q. unfold consistent. rewrite S1, S2, Hi.
  repeat split.
  - rewrite no_query_before_init_quiet by (apply H2, Hi). apply quiet_no_query, Q.
  - intros _. rewrite quiet_app, (H2 Hi), Q. reflexivity.
  - intros D. discriminate D.
Qed.

Lemma perform_consistent (lib : rsmi) (rank : nat) (op : operation) (st : State) :
  consistent st -> consistent (perform lib rank op st).
Proof.
  intros C. destruct (initialised st) eqn:Hi.
  - (* initialised: every operation only appends *)
    destruct op; simpl.
    + unfold initialise_rocm_smi. cbv zeta. simpl.
      destruct (Z.eqb (init_status lib) RSMI_STATUS_SUCCESS).
      * apply (consistent_extend st _ [Call rsmi_init (init_status lib)] C Hi).
        split; [simpl; congruence|reflexivity].
      * apply (consistent_extend st _ [Call rsmi_init (init_status lib)] C Hi).
        apply seg_emit.
    + unfold shutdown_rocm_smi. rewrite Hi. simpl.
      apply (consistent_extend st _ _ C Hi (seg_emit _ st)).
    + unfold num_monitored_devices. rewrite Hi. simpl.
      apply (consistent_extend st _ _ C Hi (seg_emit _ st)).
    + destruct (print_busy_seg lib rank text st) as (evs & S & _).
      apply (consistent_extend st _ evs C Hi S).
    + destruct (print_used_seg lib rank text st) as (evs & S & _).
      apply (consistent_extend st _ evs C Hi S).
    + destruct (print_total_seg lib rank text st) as (evs & S & _).
      apply (consistent_extend st _ evs C Hi S).
    + destruct (print_percentage_used_seg lib rank text st) as (evs & S & _).
      apply (consistent_extend st _ evs C Hi S).
  - (* not initialised *)
    destruct op; simpl.
    + unfold initialise_rocm_smi. cbv zeta. simpl.
      destruct (Z.eqb (init_status lib) RSMI_STATUS_SUCCESS) eqn:E.
      * destruct C as (H1 & H2 & H3). unfold consistent. simpl. repeat split.
        -- rewrite no_query_before_init_quiet by (apply H2, Hi). simpl. rewrite E. reflexivity.
        -- intros D. discriminate D.
        -- intros _. rewrite existsb_app. simpl. rewrite E. apply orb_true_r.
      * apply (consistent_quiet st _ [Call rsmi_init (init_status lib)] C Hi (seg_emit _ st)).
        simpl. rewrite E. reflexivity.
    + unfold shutdown_rocm_smi. rewrite Hi. exact C.
    + unfold num_monitored_devices. rewrite Hi. exact C.
    + unfold print_amd_gpu_memory_busy. rewrite Hi.
      apply (consistent_quiet st _ _ C Hi (seg_cout _ st)), quiet_cout.
    + unfold print_amd_gpu_memory_used. rewrite Hi.
      apply (consistent_quiet st _ _ C Hi (seg_cout _ st)), quiet_cout.
    + unfold print_amd_gpu_memory_total. rewrite Hi.
      apply (consistent_quiet st _ _ C Hi (seg_cout _ st)), quiet_cout.
    + unfold print_amd_gpu_memory_percentage_used. rewrite Hi.
      apply (consistent_quiet st _ _ C Hi (seg_cout _ st)), quiet_cout.
Qed.

Lemma run_consistent (rank : nat) (ops : list (operation * rsmi)) :
  consistent (run rank ops).
Proof.
  unfold run. generalize consistent_initial. generalize initial.
  induction ops as [|o ops IH]; intros st C; simpl; [exact C|].
  apply IH, perform_consistent, C.
Qed.

(** In every run, the library is not queried before [rsmi_init] has
    succeeded, and the flag is set exactly when it has. *)
Theorem no_query_before_successful_init (rank : nat) (ops : list (operation * rsmi)) :
  no_query_before_init (trace (run rank ops)) = true /\
  initialised (run rank ops) = existsb is_successful_init (trace (run rank ops)).
Proof.
  destruct (run_consistent rank ops) as (H1 & H2 & H3). split; [exact H1|].
  destruct (initialised (run rank ops)).
  - symmetry. apply H3. reflexivity.
  - specialize (H2 eq_refl). symmetry. apply not_true_is_false. intros E.
    apply existsb_exists in E. destruct E as (e & He & Hs).
    unfold quiet in H2. rewrite forallb_forall in H2. specialize (H2 e He).
    rewrite Hs, orb_true_r in H2. discriminate H2.
Qed.

(** No operation clears the flag: in particular [shutdown_rocm_smi] leaves it
    set. *)
Theorem initialised_is_never_cleared (lib : rsmi) (rank : nat) (op : operation)
    (st : State) :
  initialised st = true -> initialised (perform lib rank op st) = true.
Proof.
  intros Hi. destruct op; simpl.
  - unfold initialise_rocm_smi. cbv zeta. simpl.
    destruct (Z.eqb (init_status lib) RSMI_STATUS_SUCCESS); [reflexivity|exact Hi].
  - unfold shutdown_rocm_smi. rewrite Hi. exact Hi.
  - unfold num_monitored_devices. rewrite Hi. exact Hi.
  - destruct (print_busy_seg lib rank text st) as [evs [[S _] _]]. congruence.
  - destruct (print_used_seg lib rank text st) as [evs [[S _] _]]. congruence.
  - destruct (print_total_seg lib rank text st) as [evs [[S _] _]]. congruence.
  - destruct (print_percentage_used_seg lib rank text st) as [evs [[S _] _]]. congruence.
Qed.

(** C9.  [shutdown_rocm_smi] leaves the flag set: after a successful
    initialise and a shutdown, [num_monitored_devices] queries the library
    again. *)
Theorem query_after_shut_down :
  no_query_after_shut_down
    (trace (run 0 [(Initialise, TestLibrary.healthy); (Shutdown, TestLibrary.healthy);
                   (NumMonitoredDevices, TestLibrary.healthy)])) = false.
Proof. reflexivity. Qed.

(** C10, counterexample.  Device 1 answers every query, device 0 does not:
    [print_amd_gpu_memory_busy] writes no line at all, and
    [print_amd_gpu_memory_used] stops inside the line of device 0. *)
Lemma failed_query_suppresses_remaining_lines :
  fst (busy_percent TestLibrary.device0_fails 1) = RSMI_STATUS_SUCCESS /\
  filter is_cout
    (trace (print_amd_gpu_memory_busy TestLibrary.device0_fails 0 "t" (mkState true []))) = [] /\
  trace (print_amd_gpu_memory_used TestLibrary.device0_fails 0 "t" (mkState true [])) =
  [Call rsmi_num_monitor_devices 0%Z;
   Cout (Str "t"); Cout (Str " MPI Rank "); Cout (Rank 0); Cout (Str " GPU "); Cout (UInt 0%N);
   Cout (Str " memory used:");
   Call (rsmi_dev_memory_usage_get 0 RSMI_MEM_TYPE_VRAM) 0%Z;
   Cout (Str " "); Cout (Str "VRAM memory"); Cout (Str " "); Cout (UInt 100%N);
   Call (rsmi_dev_memory_usage_get 0 RSMI_MEM_TYPE_VIS_VRAM) 1%Z].
Proof. repeat split. Qed.

(** Before a successful [rsmi_init], the print operations write the notice
    and call nothing, and [shutdown_rocm_smi] and [num_monitored_devices]
    answer 0 without calling the library. *)
Theorem not_initialised_behaviour (lib : rsmi) (rank : nat) (text : string) (st : State) :
  initialised st = false ->
  let notice := cout [Str "ROCm SMI not initialised"; Str endl] st in
  print_amd_gpu_memory_busy lib rank text st = notice /\
  print_amd_gpu_memory_used lib rank text st = notice /\
  print_amd_gpu_memory_total lib rank text st = notice /\
  print_amd_gpu_memory_percentage_used lib rank text st = notice /\
  shutdown_rocm_smi lib st = (0%Z, st) /\
  num_monitored_devices lib st = (0%nat, st).
Proof.
  intros Hi notice.
  unfold print_amd_gpu_memory_busy, print_amd_gpu_memory_used, print_amd_gpu_memory_total,
    print_amd_gpu_memory_percentage_used, shutdown_rocm_smi, num_monitored_devices.
  rewrite Hi. repeat split.
Qed.

(** * Telemetry: the device loop *)

(** The device loop leaves by its own test: fuel beyond the number of
    devices still to visit changes nothing. *)
Theorem for_devices_fuel (lib : rsmi) (body : nat -> State -> bool * State)
    (fuel i : nat) (st : State) :
  (monitor_devices lib - i < fuel)%nat ->
  for_devices lib (S fuel) i body st = for_devices lib fuel i body st.
Proof.
  revert i st. induction fuel as [|fuel IH]; intros i st H; [lia|].
  change (for_devices lib (S (S fuel)) i body st)
    with (let (n, st1) := num_monitored_devices lib st in
          if Nat.ltb i n then
            let (continue, st2) := body i st1 in
            if continue then for_devices lib (S fuel) (S i) body st2 else st2
          else st1).
  change (for_devices lib (S fuel) i body st)
    with (let (n, st1) := num_monitored_devices lib st in
          if Nat.ltb i n then
            let (continue, st2) := body i st1 in
            if continue then for_devices lib fuel (S i) body st2 else st2
          else st1).
  assert (Hn : (fst (num_monitored_devices lib st) <= monitor_devices lib)%nat).
  { unfold num_monitored_devices. destruct (initialised st); simpl; lia. }
  destruct (num_monitored_devices lib st) as [n st1]. simpl in Hn.
  destruct (Nat.ltb_spec i n) as [Hi|Hi]; [|reflexivity].
  destruct (body i st1) as [continue st2]. destruct continue; [|reflexivity].
  apply IH. lia.
Qed.

Lemma state_eta (st : State) : st = mkState (initialised st) (trace st).
Proof. destruct st. reflexivity. Qed.

Lemma for_devices_all (lib : rsmi) (body : nat -> State -> bool * State)
    (evs : nat -> list event) (fuel i : nat) (st : State) :
  initialised st = true ->
  (monitor_devices lib - i < fuel)%nat ->
  (forall j st, (i <= j < monitor_devices lib)%nat -> initialised st = true ->
     body j st = (true, mkState true (trace st ++ evs j))) ->
  for_devices lib fuel i body st =
  mkState true
    (trace st
     ++ flat_map (fun j => Call rsmi_num_monitor_devices (monitor_devices_status lib) :: evs j)
                 (seq i (monitor_devices lib - i))
     ++ [Call rsmi_num_monitor_devices (monitor_devices_status lib)]).
Proof.
  revert i st. induction fuel as [|fuel IH]; intros i st Hi Hf Hb; [lia|].
  cbn [for_devices]. unfold num_monitored_devices. rewrite Hi.
  destruct (Nat.ltb_spec i (monitor_devices lib)) as [Hlt|Hge].
  - rewrite Hb by (first [lia | exact Hi]).
    rewrite IH; [|reflexivity|lia|intros; apply Hb; [lia|assumption]].
    replace (monitor_devices lib - i)%nat with (S (monitor_devices lib - S i)) by lia.
    cbn [seq flat_map trace emit]. rewrite <- !app_assoc. reflexivity.
  - replace (monitor_devices lib - i)%nat with 0%nat by lia. simpl.
    unfold emit. rewrite Hi. reflexivity.
Qed.

(** When every busy query succeeds, [print_amd_gpu_memory_busy] asks for the
    device count before each device and once more at the end, and writes one
    line per device, in order. *)
Theorem print_busy_all_succeed (lib : rsmi) (rank : nat) (text : string) (st : State) :
  initialised st = true ->
  (forall i, (i < monitor_devices lib)%nat ->
     fst (busy_percent lib i) = RSMI_STATUS_SUCCESS) ->
  print_amd_gpu_memory_busy lib rank text st =
  mkState true
    (trace st
     ++ flat_map (fun i =>
          Call rsmi_num_monitor_devices (monitor_devices_status lib)
          :: Call (rsmi_dev_memory_busy_percent_get i) RSMI_STATUS_SUCCESS
          :: map Cout (busy_line text rank i (snd (busy_percent lib i))))
          (seq 0 (monitor_devices lib))
     ++ [Call rsmi_num_monitor_devices (monitor_devices_status lib)]).
Proof.
  intros Hi Hok. unfold print_amd_gpu_memory_busy. rewrite Hi.
  rewrite (for_devices_all lib _
             (fun i => Call (rsmi_dev_memory_busy_percent_get i) RSMI_STATUS_SUCCESS
                       :: map Cout (busy_line text rank i (snd (busy_percent lib i))))).
  - rewrite Nat.sub_0_r. reflexivity.
  - exact Hi.
  - unfold device_fuel. lia.
  - intros j st1 Hj Hi1. specialize (Hok j ltac:(lia)).
    destruct (busy_percent lib j) as [err v]. simpl in Hok. subst err.
    simpl. unfold cout, emit. simpl. rewrite Hi1, <- app_assoc. reflexivity.
Qed.

(** After a shutdown the flag is still set. *)
Lemma initialised_is_never_cleared_witness :
  initialised (perform TestLibrary.healthy 0 Shutdown (mkState true [])) = true.
Proof.
  apply (initialised_is_never_cleared TestLibrary.healthy 0 Shutdown (mkState true [])).
  reflexivity.
Defined.

(** In the initial state. *)
Lemma not_initialised_behaviour_witness :
  print_amd_gpu_memory_busy TestLibrary.healthy 0 "t" initial =
  cout [Str "ROCm SMI not initialised"; Str endl] initial.
Proof.
  apply (proj1 (not_initialised_behaviour TestLibrary.healthy 0 "t" initial eq_refl)).
Defined.

(** Two devices: a bound of 4 does what a bound of 3 does. *)
Lemma for_devices_fuel_witness :
  for_devices TestLibrary.healthy 4 0 (fun _ st => (true, st)) (mkState true []) =
  for_devices TestLibrary.healthy 3 0 (fun _ st => (true, st)) (mkState true []).
Proof.
  apply (for_devices_fuel TestLibrary.healthy (fun _ st => (true, st)) 3 0 (mkState true [])).
  simpl. lia.
Defined.

(** Two devices that answer: two lines, three device counts. *)
Lemma print_busy_all_succeed_witness :
  print_amd_gpu_memory_busy TestLibrary.healthy 0 "t" (mkState true []) =
  mkState true
    ([] ++ flat_map (fun i =>
          Call rsmi_num_monitor_devices 0%Z
          :: Call (rsmi_dev_memory_busy_percent_get i) RSMI_STATUS_SUCCESS
          :: map Cout (busy_line "t" 0 i 10%N)) (seq 0 2)
        ++ [Call rsmi_num_monitor_devices 0%Z]).
Proof.
  apply (print_busy_all_succeed TestLibrary.healthy 0 "t" (mkState true [])).
  - reflexivity.
  - intros i Hi. reflexivity.
Defined.

(** * Telemetry: the memory reports when every query succeeds *)

Lemma for_memory_types_all (tys : list rsmi_memory_type_t)
    (body : rsmi_memory_type_t -> State -> bool * State)
    (ev : rsmi_memory_type_t -> list event) (st : State) :
  (forall ty st, body ty st = (true, mkState (initialised st) (trace st ++ ev ty))) ->
  for_memory_types tys body st =
  (true, mkState (initialised st) (trace st ++ flat_map ev tys)).
Proof.
  intros H. revert st. induction tys as [|ty tys IH]; intros st; simpl.
  - rewrite app_nil_r, <- state_eta. reflexivity.
  - rewrite H, IH. simpl. rewrite <- app_assoc. reflexivity.
Qed.

Lemma memory_line_body (header : list chunk)
    (inner : rsmi_memory_type_t -> State -> bool * State)
    (calls : rsmi_memory_type_t -> list event) (value : rsmi_memory_type_t -> chunk)
    (st : State) :
  initialised st = true ->
  (forall ty st, inner ty st =
     (true, mkState (initialised st)
              (trace st ++ calls ty ++ map Cout (memory_item ty (value ty))))) ->
  (let st := cout header st in
   let (continue, st) := for_memory_types memory_types inner st in
   if continue then (true, cout [Str endl] st) else (false, st)) =
  (true, mkState true (trace st ++ memory_line header calls value)).
Proof.
  intros Hi H. cbv zeta.
  rewrite (for_memory_types_all memory_types inner
             (fun ty => calls ty ++ map Cout (memory_item ty (value ty)))) by exact H.
  unfold cout, memory_line. simpl. rewrite Hi, <- !app_assoc. reflexivity.
Qed.

(** When every usage query succeeds, [print_amd_gpu_memory_used] writes one
    complete line per device, with the three memory categories in order;
    when every total query succeeds, so does [print_amd_gpu_memory_total];
    when both do, [print_amd_gpu_memory_percentage_used] asks for the total
    and then the usage of each category.  Each asks for the device count
    before each device and once more at the end. *)
Theorem print_memory_all_succeed (lib : rsmi) (rank : nat) (text : string) (st : State) :
  initialised st = true ->
  let count := Call rsmi_num_monitor_devices (monitor_devices_status lib) in
  let report label calls value :=
    mkState true
      (trace st
       ++ flat_map (fun i =>
            count :: memory_line (memory_header text rank i label) (calls i) (value i))
            (seq 0 (monitor_devices lib))
       ++ [count]) in
  let usage_call i ty := Call (rsmi_dev_memory_usage_get i ty) RSMI_STATUS_SUCCESS in
  let total_call i ty := Call (rsmi_dev_memory_total_get i ty) RSMI_STATUS_SUCCESS in
  ((forall i ty, (i < monitor_devices lib)%nat ->
      fst (memory_usage lib i ty) = RSMI_STATUS_SUCCESS) ->
   print_amd_gpu_memory_used lib rank text st =
   report " memory used:" (fun i ty => [usage_call i ty])
          (fun i ty => UInt (snd (memory_usage lib i ty)))) /\
  ((forall i ty, (i < monitor_devices lib)%nat ->
      fst (memory_total lib i ty) = RSMI_STATUS_SUCCESS) ->
   print_amd_gpu_memory_total lib rank text st =
   report " total memory:" (fun i ty => [total_call i ty])
          (fun i ty => UInt (snd (memory_total lib i ty)))) /\
  ((forall i ty, (i < monitor_devices lib)%nat ->
      fst (memory_usage lib i ty) = RSMI_STATUS_SUCCESS /\
      fst (memory_total lib i ty) = RSMI_STATUS_SUCCESS) ->
   print_amd_gpu_memory_percentage_used lib rank text st =
   report "  % memory used:" (fun i ty => [total_call i ty; usage_call i ty])
          (fun i ty => Percent (snd (memory_usage lib i ty)) (snd (memory_total lib i ty)))).
Proof.
  intros Hi count report usage_call total_call. subst report. cbv beta.
  split; [|split]; intros Hok.
  - unfold print_amd_gpu_memory_used. rewrite Hi.
    rewrite (for_devices_all lib _
               (fun i => memory_line (memory_header text rank i " memory used:")
                           (fun ty => [usage_call i ty])
                           (fun ty => UInt (snd (memory_usage lib i ty))))).
    + rewrite Nat.sub_0_r. reflexivity.
    + exact Hi.
    + unfold device_fuel. lia.
    + intros j st1 Hj Hi1.
      apply (memory_line_body (memory_header text rank j " memory used:")); [exact Hi1|].
      intros ty st2. specialize (Hok j ty ltac:(lia)).
      destruct (memory_usage lib j ty) as [err v]. simpl in Hok. subst err.
      simpl. unfold cout, emit. simpl. rewrite <- app_assoc. reflexivity.
  - unfold print_amd_gpu_memory_total. rewrite Hi.
    rewrite (for_devices_all lib _
               (fun i => memory_line (memory_header text rank i " total memory:")
                           (fun ty => [total_call i ty])
                           (fun ty => UInt (snd (memory_total lib i ty))))).
    + rewrite Nat.sub_0_r. reflexivity.
    + exact Hi.
    + unfold device_fuel. lia.
    + intros j st1 Hj Hi1.
      apply (memory_line_body (memory_header text rank j " total memory:")); [exact Hi1|].
      intros ty st2. specialize (Hok j ty ltac:(lia)).
      destruct (memory_total lib j ty) as [err v]. simpl in Hok. subst err.
      simpl. unfold cout, emit. simpl. rewrite <- app_assoc. reflexivity.
  - unfold print_amd_gpu_memory_percentage_used. rewrite Hi.
    rewrite (for_devices_all lib _
               (fun i => memory_line (memory_header text rank i "  % memory used:")
                           (fun ty => [total_call i ty; usage_call i ty])
                           (fun ty => Percent (snd (memory_usage lib i ty))
                                              (snd (memory_total lib i ty))))).
    + rewrite Nat.sub_0_r. reflexivity.
    + exact Hi.
    + unfold device_fuel. lia.
    + intros j st1 Hj Hi1.
      apply (memory_line_body (memory_header text rank j "  % memory used:")); [exact Hi1|].
      intros ty st2. destruct (Hok j ty ltac:(lia)) as [Hu Ht].
      destruct (memory_total lib j ty) as [err1 total].
      destruct (memory_usage lib j ty) as [err2 usage]. simpl in Hu, Ht. subst err1 err2.
      simpl. unfold cout, emit. simpl. rewrite <- !app_assoc. reflexivity.
Qed.

(** Two devices that answer every query. *)
Lemma print_memory_all_succeed_witness :
  trace (print_amd_gpu_memory_used TestLibrary.healthy 0 "t" (mkState true [])) =
  [] ++ flat_map (fun i =>
          Call rsmi_num_monitor_devices 0%Z
          :: memory_line (memory_header "t" 0 i " memory used:")
               (fun ty => [Call (rsmi_dev_memory_usage_get i ty) RSMI_STATUS_SUCCESS])
               (fun ty => UInt 100%N)) (seq 0 2)
     ++ [Call rsmi_num_monitor_devices 0%Z].
Proof.
  rewrite (proj1 (print_memory_all_succeed TestLibrary.healthy 0 "t" (mkState true []) eq_refl)).
  - reflexivity.
  - intros i ty Hi. reflexivity.
Defined.
